(** * Storage adapter abstraction of better-auth: the Kysely adapter and the
      adapter factory's contract

    The development embeds the Kysely adapter ([kyselyAdapter]) the way its
    source is written: JavaScript values as an inductive type, objects as
    insertion-ordered association lists, the query builder as the record of
    the calls made on it, and exceptions as [None].

    The source file of the adapter carries unresolved merge markers.  The
    sides embedded are:
    - [convertWhereClause]: the side marked HEAD (the other side reads a
      variable [_value] that is never declared);
    - the join selections, [processJoinedResults] and the end of [findOne]
      and [findMany]: the side of the commit "update: kysely working", whose
      aliases read [joined_<model>_<field>] and are parsed with
      [substring(7)]; the other side of that conflict writes the same alias
      with one more leading underscore;
    - [transformValueToDB], [transformValueFromDB] and the limit, offset and
      ordering of [findMany] carry no conflict.

    Keys of objects are taken in insertion order; integer-like keys, which
    JavaScript enumerates first, are outside the model.  The properties an
    object inherits are modelled where [transformValueToDB] reads the
    schema, and are outside the model elsewhere. *)

From Stdlib Require Import List String Ascii ZArith Bool Lia.
From Stdlib Require Import Numbers.DecimalString.
Import ListNotations.

Set Warnings "-register-all".

Open Scope string_scope.
Open Scope list_scope.

(** ** JavaScript values *)

Module JS.

(** Numbers are modelled by integers ([Z]); floating point values and [NaN]
    are outside the model, and an integer beyond the safe range is only ever
    handed on or printed by the host (see [toStr]).  [VDate ms] is the object
    [new Date(ms)]: its instant in milliseconds, and an Invalid Date when
    [ms] lies outside the range of time values (see [validTime]). *)
Inductive value : Type :=
| VUndefined
| VNull
| VBool (b : bool)
| VNum (n : Z)
| VStr (s : string)
| VDate (ms : Z)
| VArr (xs : list value)
| VObj (props : list (string * value)).

(** An object: own enumerable string keys in insertion order. *)
Definition obj := list (string * value).

(** Induction principle that reaches below arrays and objects. *)
Section ValueInd.
Variable P : value -> Prop.
Hypothesis Hundef : P VUndefined.
Hypothesis Hnull : P VNull.
Hypothesis Hbool : forall b, P (VBool b).
Hypothesis Hnum : forall n, P (VNum n).
Hypothesis Hstr : forall s, P (VStr s).
Hypothesis Hdate : forall ms, P (VDate ms).
Hypothesis Harr : forall xs, Forall P xs -> P (VArr xs).
Hypothesis Hobj : forall props, Forall (fun kv => P (snd kv)) props -> P (VObj props).

Fixpoint value_nested_ind (v : value) : P v :=
    match v with
    | VUndefined => Hundef
    | VNull => Hnull
    | VBool b => Hbool b
    | VNum n => Hnum n
    | VStr s => Hstr s
    | VDate ms => Hdate ms
    | VArr xs =>
        Harr xs ((fix go (l : list value) : Forall P l :=
                    match l with
                    | [] => Forall_nil P
                    | x :: l' => Forall_cons x (value_nested_ind x) (go l')
                    end) xs)
    | VObj props =>
        Hobj props ((fix go (l : list (string * value))
                       : Forall (fun kv => P (snd kv)) l :=
                       match l with
                       | [] => Forall_nil _
                       | kv :: l' =>
                           Forall_cons kv (value_nested_ind (snd kv)) (go l')
                       end) props)
    end.
End ValueInd.

(** [if (v)], [!v], [v ? a : b] *)
Definition truthy (v : value) : bool :=
  match v with
  | VUndefined | VNull => false
  | VBool b => b
  | VNum n => negb (Z.eqb n 0)
  | VStr s => negb (String.eqb s EmptyString)
  | VDate _ | VArr _ | VObj _ => true
  end.

(** [typeof v === "object" && v !== null] *)
Definition isObjectLike (v : value) : bool :=
  match v with
  | VDate _ | VArr _ | VObj _ => true
  | _ => false
  end.

(** [Array.isArray(v)] *)
Definition isArray (v : value) : bool :=
  match v with VArr _ => true | _ => false end.

(** [v instanceof Date] *)
Definition isDate (v : value) : bool :=
  match v with VDate _ => true | _ => false end.

(** [a === b].  Primitives compare by content.  Dates, arrays and objects
    compare by reference; two cells of a driver's result are distinct
    allocations, so they are never equal. *)
Definition strictEq (a b : value) : bool :=
  match a, b with
  | VUndefined, VUndefined => true
  | VNull, VNull => true
  | VBool x, VBool y => Bool.eqb x y
  | VNum x, VNum y => Z.eqb x y
  | VStr x, VStr y => String.eqb x y
  | _, _ => false
  end.

(** [o[k]] on a keyed object: [None] is a missing key (JavaScript reads it
    as [undefined]). *)
Fixpoint get {A : Type} (k : string) (o : list (string * A)) : option A :=
  match o with
  | [] => None
  | (k', v) :: o' => if String.eqb k' k then Some v else get k o'
  end.

(** [o.k] read as a value. *)
Definition prop (k : string) (o : obj) : value :=
  match get k o with Some v => v | None => VUndefined end.

(** The names an object literal inherits from [Object.prototype]: reading one
    of them on an object that has no such key of its own gives a function
    (for [__proto__], the prototype itself), which is truthy and has none of
    the properties the adapter looks for. *)
Definition objectPrototypeKeys : list string :=
  ["constructor"; "__proto__"; "hasOwnProperty"; "isPrototypeOf";
   "propertyIsEnumerable"; "toLocaleString"; "toString"; "valueOf";
   "__defineGetter__"; "__defineSetter__"; "__lookupGetter__";
   "__lookupSetter__"].

Definition inherited (k : string) : bool :=
  existsb (String.eqb k) objectPrototypeKeys.

(** [o[k] = v]: an existing key keeps its place, a new key goes last. *)
Fixpoint set {A : Type} (k : string) (v : A) (o : list (string * A))
  : list (string * A) :=
  match o with
  | [] => [(k, v)]
  | (k', v') :: o' =>
      if String.eqb k' k then (k, v) :: o' else (k', v') :: set k v o'
  end.

Definition keys {A : Type} (o : list (string * A)) : list string := map fst o.

(** [s.toLowerCase()] on the ASCII letters; the comparisons made with its
    result are against ASCII words only. *)
Definition lowerAscii (c : ascii) : ascii :=
  let n := nat_of_ascii c in
  if andb (Nat.leb 65 n) (Nat.leb n 90) then ascii_of_nat (n + 32) else c.

Fixpoint toLowerCase (s : string) : string :=
  match s with
  | EmptyString => EmptyString
  | String c s' => String (lowerAscii c) (toLowerCase s')
  end.

Definition Z_to_string (n : Z) : string :=
  NilZero.string_of_int (Z.to_int n).

(** [parts.join(sep)] *)
Fixpoint joinWith (sep : string) (parts : list string) : string :=
    match parts with
    | [] => EmptyString
    | [p] => p
    | p :: rest => (p ++ sep ++ joinWith sep rest)%string
    end.

(** [Number.isSafeInteger(n)]: up to [2^53 - 1] in absolute value. *)
Definition safeInteger (n : Z) : bool :=
  (Z.abs n <=? 9007199254740991)%Z.

(** [new Date(ms)] holds a time value when [ms] is within 8.64e15
    milliseconds of the epoch, and is an Invalid Date otherwise. *)
Definition validTime (ms : Z) : bool :=
  (Z.abs ms <=? 8640000000000000)%Z.

Section ToString.
  (** [String(date)] depends on the host's time zone. *)
Variable dateToString : Z -> string.
  (** [String(n)] for a number beyond the safe integers, where the host
      prints the digits of the nearest double, in exponent notation from
      [1e21] on. *)
Variable numberToString : Z -> string.

  (** The string a template literal [`${v}`] inserts. *)
Fixpoint toStr (v : value) : string :=
    match v with
    | VUndefined => "undefined"
    | VNull => "null"
    | VBool true => "true"
    | VBool false => "false"
    | VNum n => if safeInteger n then Z_to_string n else numberToString n
    | VStr s => s
    | VDate ms => dateToString ms
    | VArr xs =>
        joinWith ","
          (map (fun x => match x with
                         | VUndefined | VNull => EmptyString
                         | _ => toStr x
                         end) xs)
    | VObj _ => "[object Object]"
    end.
End ToString.

(** [s.substring(n)] *)
Fixpoint substringFrom (n : nat) (s : string) : string :=
  match n, s with
  | O, _ => s
  | S n', String _ s' => substringFrom n' s'
  | S _, EmptyString => EmptyString
  end.

(** [s.split(sep)] for a one-character separator; the result is never empty. *)
Fixpoint split (sep : ascii) (s : string) : list string :=
  match s with
  | EmptyString => [EmptyString]
  | String c s' =>
      if Ascii.eqb c sep then EmptyString :: split sep s'
      else match split sep s' with
           | [] => [String c EmptyString]
           | p :: ps => String c p :: ps
           end
  end.

End JS.
Import JS.

(** ** The Kysely adapter *)

Inductive KyselyDatabaseType := postgres | mysql | sqlite | mssql.

Definition dbTypeEqb (a b : KyselyDatabaseType) : bool :=
  match a, b with
  | postgres, postgres | mysql, mysql | sqlite, sqlite | mssql, mssql => true
  | _, _ => false
  end.

(** [KyselyAdapterConfig]; [debugLogs] only feeds the logger. *)
Module Config.
Record KyselyAdapterConfig := mkConfig {
    type : option KyselyDatabaseType;
    usePlural : option bool;
    transaction : option bool
  }.
End Config.

(** A field of the schema: the attributes the adapter reads. *)
Module Field.
Record FieldAttribute := mkField {
    type : string;
    fieldName : option string;
    unique : option bool
  }.
End Field.

Module Table.
Record TableSchema := mkTable {
    modelName : string;
    fields : list (string * Field.FieldAttribute)
  }.
End Table.

(** [schema]: model key to table, in insertion order. *)
Definition Schema := list (string * Table.TableSchema).

Inductive Connector := AND | OR.

(** One clause of [Where[]]; [operator] and [connector] may be omitted. *)
Module Where.
Record Clause := mkWhere {
    field : string;
    value : JS.value;
    operator : option string;
    connector : option Connector
  }.
End Where.

Inductive JoinType := inner | left.

Module Join.
Record JoinAttr := mkJoin {
    type : JoinType;
    on_from : string;
    on_to : string
  }.
End Join.

(** [join]: joined model to its attributes, in [Object.entries] order. *)
Definition JoinConfig := list (string * Join.JoinAttr).

Inductive Direction := asc | desc.

Module SortBy.
Record SortSpec := mkSortBy { field : string; direction : Direction }.
End SortBy.

(** What the expression builder [eb] returns. *)
Inductive Expr :=
| EBin (lhs : string) (op : string) (rhs : JS.value)
| EAnd (es : list Expr)
| EOr (es : list Expr).

(** A raw selection [sql`${ref(table)}.${ref(column)} as ${ref(alias)}`]. *)
Module Selection.
Record RawSelection := mkSelection { table : string; column : string; alias : string }.
End Selection.

Module JoinClause.
Record JoinCall := mkJoinClause {
    kind : JoinType;
    table : string;
    lhs : string;
    rhs : string
  }.
End JoinClause.

(** The select query builder, as the calls made on it: each [where] call adds
    one predicate and the predicates of all calls must hold together. *)
Module Query.
Record SelectQuery := mkQuery {
    from : string;
    selectAll : list (option string);
    wheres : list Expr;
    joins : list JoinClause.JoinCall;
    selections : list Selection.RawSelection;
    limit : option Z;
    top : option Z;
    offset : option Z;
    fetch : option Z;
    orderBy : list (string * option Direction)
  }.

Definition selectFrom (model : string) : SelectQuery :=
    mkQuery model [] [] [] [] None None None None [].
Definition withSelectAll (tbl : option string) (q : SelectQuery) : SelectQuery :=
    mkQuery (from q) (selectAll q ++ [tbl]) (wheres q) (joins q) (selections q)
       (limit q) (top q) (offset q) (fetch q) (orderBy q).
Definition where_ (e : Expr) (q : SelectQuery) : SelectQuery :=
    mkQuery (from q) (selectAll q) (wheres q ++ [e]) (joins q) (selections q)
       (limit q) (top q) (offset q) (fetch q) (orderBy q).
Definition addJoin (j : JoinClause.JoinCall) (q : SelectQuery) : SelectQuery :=
    mkQuery (from q) (selectAll q) (wheres q) (joins q ++ [j]) (selections q)
       (limit q) (top q) (offset q) (fetch q) (orderBy q).
Definition select (ss : list Selection.RawSelection) (q : SelectQuery) : SelectQuery :=
    mkQuery (from q) (selectAll q) (wheres q) (joins q) (selections q ++ ss)
       (limit q) (top q) (offset q) (fetch q) (orderBy q).
Definition withLimit (n : Z) (q : SelectQuery) : SelectQuery :=
    mkQuery (from q) (selectAll q) (wheres q) (joins q) (selections q)
       (Some n) (top q) (offset q) (fetch q) (orderBy q).
Definition withTop (n : Z) (q : SelectQuery) : SelectQuery :=
    mkQuery (from q) (selectAll q) (wheres q) (joins q) (selections q)
       (limit q) (Some n) (offset q) (fetch q) (orderBy q).
Definition withOffset (n : Z) (q : SelectQuery) : SelectQuery :=
    mkQuery (from q) (selectAll q) (wheres q) (joins q) (selections q)
       (limit q) (top q) (Some n) (fetch q) (orderBy q).
Definition withFetch (n : Z) (q : SelectQuery) : SelectQuery :=
    mkQuery (from q) (selectAll q) (wheres q) (joins q) (selections q)
       (limit q) (top q) (offset q) (Some n) (orderBy q).
Definition addOrderBy (col : string) (dir : option Direction) (q : SelectQuery) : SelectQuery :=
    mkQuery (from q) (selectAll q) (wheres q) (joins q) (selections q)
       (limit q) (top q) (offset q) (fetch q) (orderBy q ++ [(col, dir)]).
End Query.

(** The result of [convertWhereClause]: each group is [null] or a non-empty
    list of predicates. *)
Module Conditions.
Record Groups := mkGroups {
    and : option (list Expr);
    or : option (list Expr)
  }.
End Conditions.

(** The state of the loop that fills [allSelects] and [allSelectsStr]. *)
Module Selects.
Record SelectState := mkSelects {
    schema : Schema;
    allSelects : list Selection.RawSelection;
    allSelectsStr : list string
  }.
End Selects.

(** A statement that changes or counts rows: its table, the values it
    sets, and its [where] calls. *)
Inductive StatementKind := UpdateTable | DeleteFrom | SelectCount.

Module Statement.
Record FilteredStatement := mkStatement {
    kind : StatementKind;
    table : string;
    set : option obj;
    wheres : list Expr
  }.
End Statement.

Module Kysely.
Section Adapter.

(** The adapter closes over its configuration and over the helpers the
    factory hands it; [toISOString] and the host's [String(date)] are the
    runtime's. *)
Variable config : option Config.KyselyAdapterConfig.
Variable getFieldName : string -> string -> string.
Variable getDefaultModelName : string -> string.
Variable toISOString : Z -> string.
Variable dateToString numberToString : Z -> string.

(** [config?.type] *)
Definition configType : option KyselyDatabaseType :=
  match config with
  | Some c => Config.type c
  | None => None
  end.

(** [config?.type === t] *)
Definition typeIs (t : KyselyDatabaseType) : bool :=
  match configType with
  | Some t' => dbTypeEqb t' t
  | None => false
  end.

(** [schema[model]?.fields] *)
Definition modelFields (schema : Schema) (model : string)
  : option (list (string * Field.FieldAttribute)) :=
  match get model schema with
  | Some tbl => Some (Table.fields tbl)
  | None => None
  end.

(** [transformValueToDB(value, model, field)]; [None] is an exception: the
    [TypeError] of reading a property of [undefined], or the [RangeError] of
    [toISOString] on an Invalid Date.

    [schema[model]?.fields[field]] finds the field's own entry, or else what
    the objects inherit: an inherited [field] gives a function without
    [type], so that the value is handed back; an inherited [model] gives a
    function without [fields], and reading [field] on [undefined] throws.
    Only when neither is found is the table looked up by its [modelName]. *)
Definition transformValueToDB (schema : Schema) (value : JS.value)
  (model field : string) : option JS.value :=
  if field =? "id" then Some value
  else
    let type := match configType with Some t => t | None => sqlite end in
    let byModelName :=
      match find (fun t => Table.modelName t =? model) (map snd schema) with
      | Some _ => Some value
      | None => None
      end in
    match modelFields schema model with
    | Some fs =>
        match get field fs with
        | Some f =>
            if (Field.type f =? "boolean")
               && (dbTypeEqb type sqlite || dbTypeEqb type mssql)
               && negb (match value with
                        | VNull | VUndefined => true
                        | _ => false
                        end)
            then Some (if truthy value then VNum 1 else VNum 0)
            else if (Field.type f =? "date") && truthy value && isDate value
            then
              if dbTypeEqb type sqlite
              then match value with
                   | VDate ms =>
                       if validTime ms then Some (VStr (toISOString ms))
                       else None
                   | _ => Some value
                   end
              else Some value
            else Some value
        | None => if inherited field then Some value else byModelName
        end
    | None => if inherited model then None else byModelName
    end.

(** [transformObject(obj)]: the walk over the own keys of [obj]; its only
    assignment is commented out in the source. *)
Fixpoint transformObject (o : JS.value) : JS.value :=
  let visit (field : JS.value) : JS.value :=
    if isDate field && typeIs mysql then field
    else if isObjectLike field then transformObject field
    else field in
  match o with
  | VObj props => VObj (map (fun kv => (fst kv, visit (snd kv))) props)
  | VArr xs => VArr (map visit xs)
  | other => other
  end.

(** [transformValueFromDB(value)] *)
Definition transformValueFromDB (value : JS.value) : JS.value :=
  match value with
  | VArr items =>
      VArr (map (fun item =>
                   if isObjectLike item then transformObject item else item)
                items)
  | _ => if isObjectLike value then transformObject value else value
  end.

(** [Array.isArray(value) ? value : [value]] *)
Definition asArray (value : JS.value) : JS.value :=
  if isArray value then value else VArr [value].

(** The closure [expr] of one clause, applied to the expression builder. *)
Definition whereExpr (model field operator : string) (value : JS.value)
  : Expr :=
  let qualified := (model ++ "." ++ field)%string in
  if toLowerCase operator =? "in" then EBin field "in" (asArray value)
  else if toLowerCase operator =? "not_in" then
    EBin field "not in" (asArray value)
  else if operator =? "contains" then
    EBin qualified "like" (VStr ("%" ++ toStr dateToString numberToString value ++ "%")%string)
  else if operator =? "starts_with" then
    EBin qualified "like" (VStr (toStr dateToString numberToString value ++ "%")%string)
  else if operator =? "ends_with" then
    EBin qualified "like" (VStr ("%" ++ toStr dateToString numberToString value)%string)
  else if operator =? "eq" then EBin qualified "=" value
  else if operator =? "ne" then EBin qualified "<>" value
  else if operator =? "gt" then EBin qualified ">" value
  else if operator =? "gte" then EBin qualified ">=" value
  else if operator =? "lt" then EBin qualified "<" value
  else if operator =? "lte" then EBin qualified "<=" value
  else EBin qualified operator value.

(** The body of [w.forEach]: the defaults of the destructuring, the field
    and value of the side marked HEAD, and the group the clause goes to. *)
Definition convertCondition (schema : Schema) (model : string)
  (condition : Where.Clause) : option (Connector * Expr) :=
  let operator := match Where.operator condition with
                  | Some o => o
                  | None => "="
                  end in
  let connector := match Where.connector condition with
                   | Some c => c
                   | None => AND
                   end in
  let field := getFieldName model (Where.field condition) in
  match transformValueToDB schema (Where.value condition) model
          (Where.field condition) with
  | Some value => Some (connector, whereExpr model field operator value)
  | None => None
  end.

Fixpoint convertConditions (schema : Schema) (model : string)
  (w : list Where.Clause) (conditions : list Expr * list Expr)
  : option (list Expr * list Expr) :=
  match w with
  | [] => Some conditions
  | condition :: rest =>
      match convertCondition schema model condition with
      | None => None
      | Some (OR, expr) =>
          convertConditions schema model rest
            (fst conditions, snd conditions ++ [expr])
      | Some (AND, expr) =>
          convertConditions schema model rest
            (fst conditions ++ [expr], snd conditions)
      end
  end.

(** [l.length ? l : null] *)
Definition nonEmpty {A : Type} (l : list A) : option (list A) :=
  match l with
  | [] => None
  | _ => Some l
  end.

(** [convertWhereClause(model, w)] *)
Definition convertWhereClause (schema : Schema) (model : string)
  (w : option (list Where.Clause)) : option Conditions.Groups :=
  match w with
  | None => Some (Conditions.mkGroups None None)
  | Some w =>
      match convertConditions schema model w ([], []) with
      | None => None
      | Some (ands, ors) =>
          Some (Conditions.mkGroups (nonEmpty ands) (nonEmpty ors))
      end
  end.

(** [if (and) query = query.where(eb => eb.and(...));
     if (or) query = query.where(eb => eb.or(...));] *)
Definition applyConditions (c : Conditions.Groups)
  (query : Query.SelectQuery) : Query.SelectQuery :=
  let query := match Conditions.and c with
               | Some ands => Query.where_ (EAnd ands) query
               | None => query
               end in
  match Conditions.or c with
  | Some ors => Query.where_ (EOr ors) query
  | None => query
  end.

(** [if (join) for (const [joinModel, joinAttr] of Object.entries(join))] *)
Definition applyJoins (model : string) (join : option JoinConfig)
  (query : Query.SelectQuery) : Query.SelectQuery :=
  match join with
  | None => query
  | Some j =>
      fold_left
        (fun q (e : string * Join.JoinAttr) =>
           let (joinModel, joinAttr) := e in
           Query.addJoin
             (JoinClause.mkJoinClause (Join.type joinAttr) joinModel
                (joinModel ++ "." ++ Join.on_to joinAttr)%string
                (model ++ "." ++ Join.on_from joinAttr)%string) q)
        j query
  end.

(** *** Joins: the side of the merge marked "kysely working" *)

(** [fieldAttr.fieldName || field] *)
Definition physicalName (field : string) (fieldAttr : Field.FieldAttribute)
  : string :=
  match Field.fieldName fieldAttr with
  | Some n => if n =? EmptyString then field else n
  | None => field
  end.

(** [`joined_${joinModel}_${fieldAttr.fieldName || field}`] *)
Definition joinedAlias (joinModel column : string) : string :=
  ("joined_" ++ joinModel ++ "_" ++ column)%string.

(** The same template on the side "make kysely joins start with
    underscore". *)
Definition joinedAliasUnderscore (joinModel column : string) : string :=
  ("_joined_" ++ joinModel ++ "_" ++ column)%string.

(** [fields.id = { type: "string" }]: written into the shared schema. *)
Definition withIdField (fields : list (string * Field.FieldAttribute))
  : list (string * Field.FieldAttribute) :=
  set "id" (Field.mkField "string" None None) fields.

Definition joinSelectsStep (st : Selects.SelectState)
  (e : string * Join.JoinAttr) : Selects.SelectState :=
  let joinModel := fst e in
  let key := getDefaultModelName joinModel in
  match get key (Selects.schema st) with
  | None => st
  | Some tbl =>
      let fields := withIdField (Table.fields tbl) in
      let columns := map (fun fa => physicalName (fst fa) (snd fa)) fields in
      Selects.mkSelects
        (set key (Table.mkTable (Table.modelName tbl) fields)
           (Selects.schema st))
        (Selects.allSelects st
           ++ map (fun c => Selection.mkSelection joinModel c
                              (joinedAlias joinModel c)) columns)
        (Selects.allSelectsStr st ++ map (joinedAlias joinModel) columns)
  end.

(** [if (join) { for ... } query = query.select(allSelects)] *)
Definition joinSelects (schema : Schema) (join : option JoinConfig)
  : Selects.SelectState :=
  match join with
  | None => Selects.mkSelects schema [] []
  | Some j => fold_left joinSelectsStep j (Selects.mkSelects schema [] [])
  end.

(** [keyStr.substring(7).split("_")], then [parts[0]] and
    [parts.slice(1).join("_")] *)
Definition parseJoinedKey (keyStr : string) : string * string :=
  let parts := split "_"%char (substringFrom 7 keyStr) in
  (hd EmptyString parts, joinWith "_" (tl parts)).

(** [joinedModelFields[joinModel] = {}] for every joined model *)
Definition initJoinedModelFields (joinConfig : JoinConfig) : obj :=
  fold_left (fun acc (e : string * Join.JoinAttr) => set (fst e) (VObj []) acc)
    joinConfig [].

(** One column of [currentRow]: to its joined model when the key is one of
    [allSelectsStr], to the main model otherwise. *)
Definition distributeColumn (allSelectsStr : list string) (acc : obj * obj)
  (kv : string * JS.value) : obj * obj :=
  let (mainModelFields, joinedModelFields) := acc in
  let (key, value) := kv in
  if existsb (String.eqb key) allSelectsStr then
    let (joinModel, fieldName) := parseJoinedKey key in
    match get joinModel joinedModelFields with
    | Some (VObj o) =>
        (mainModelFields,
         set joinModel (VObj (set fieldName value o)) joinedModelFields)
    | _ => acc
    end
  else (set key value mainModelFields, joinedModelFields).

Definition distributeColumns (joinConfig : JoinConfig)
  (allSelectsStr : list string) (currentRow : obj) : obj * obj :=
  fold_left (distributeColumn allSelectsStr) currentRow
    ([], initJoinedModelFields joinConfig).

(** [fields?.[joinAttr.on.to]?.unique ?? false] *)
Definition isUnique (schema : Schema) (defaultModelName : string)
  (joinAttr : Join.JoinAttr) : bool :=
  match modelFields schema defaultModelName with
  | Some fields =>
      match get (Join.on_to joinAttr) fields with
      | Some joinFieldAttr =>
          match Field.unique joinFieldAttr with
          | Some b => b
          | None => false
          end
      | None => false
      end
  | None => false
  end.

(** [const entry = { ...mainModelFields }] and the slot of every joined
    model of the schema: [null] for a unique join field, [[]] otherwise. *)
Definition initEntry (schema : Schema) (joinConfig : JoinConfig)
  (mainModelFields : obj) : obj :=
  fold_left
    (fun entry (e : string * Join.JoinAttr) =>
       let (joinModel, joinAttr) := e in
       let defaultModelName := getDefaultModelName joinModel in
       match modelFields schema defaultModelName with
       | None => entry
       | Some _ =>
           set defaultModelName
             (if isUnique schema defaultModelName joinAttr
              then VNull else VArr [])
             entry
       end)
    joinConfig mainModelFields.

(** [item.id] *)
Definition idOf (item : JS.value) : JS.value :=
  match item with
  | VObj o => prop "id" o
  | _ => VUndefined
  end.

(** "Add joined records to the entry", for one joined model. *)
Definition addJoinedRecord (schema : Schema) (joinedModelFields : obj)
  (entry : obj) (e : string * Join.JoinAttr) : obj :=
  let (joinModel, joinAttr) := e in
  let defaultModelName := getDefaultModelName joinModel in
  let joinedObj := prop joinModel joinedModelFields in
  if isUnique schema defaultModelName joinAttr then
    set defaultModelName joinedObj entry
  else
    match get defaultModelName entry with
    | Some (VArr items) =>
        if truthy (idOf joinedObj) then
          if existsb (fun item => strictEq (idOf item) (idOf joinedObj)) items
          then entry
          else set defaultModelName (VArr (items ++ [joinedObj])) entry
        else entry
    | _ => entry
    end.

(** [groupedByMainId]: a [Map] in insertion order. *)
Definition GroupMap := list (JS.value * obj).

(** The position of the key [k] in the map, if it has it. *)
Fixpoint mapIndex (k : JS.value) (m : GroupMap) : option nat :=
  match m with
  | [] => None
  | (k', _) :: m' =>
      if strictEq k' k then Some O
      else match mapIndex k m' with
           | Some i => Some (S i)
           | None => None
           end
  end.

Fixpoint updateAt {A : Type} (i : nat) (f : A -> A) (l : list A) : list A :=
  match l, i with
  | [], _ => []
  | x :: l', O => f x :: l'
  | x :: l', S i' => x :: updateAt i' f l'
  end.

(** The body of [for (const currentRow of rows)]. *)
Definition processRow (schema : Schema) (joinConfig : JoinConfig)
  (allSelectsStr : list string) (groupedByMainId : GroupMap)
  (currentRow : obj) : GroupMap :=
  let (mainModelFields, joinedModelFields) :=
    distributeColumns joinConfig allSelectsStr currentRow in
  let mainId := prop "id" mainModelFields in
  if negb (truthy mainId) then groupedByMainId
  else
    let (grouped, i) :=
      match mapIndex mainId groupedByMainId with
      | Some i => (groupedByMainId, i)
      | None =>
          (groupedByMainId
             ++ [(mainId, initEntry schema joinConfig mainModelFields)],
           List.length groupedByMainId)
      end in
    updateAt i
      (fun ke : JS.value * obj =>
         (fst ke,
          fold_left (addJoinedRecord schema joinedModelFields) joinConfig
            (snd ke)))
      grouped.

Definition groupRows (schema : Schema) (joinConfig : JoinConfig)
  (allSelectsStr : list string) (rows : list obj) : GroupMap :=
  fold_left (processRow schema joinConfig allSelectsStr) rows [].

(** [processJoinedResults(rows, baseModel, joinConfig, allSelectsStr)] *)
Definition processJoinedResults (schema : Schema) (rows : list obj)
  (baseModel : string) (joinConfig : option JoinConfig)
  (allSelectsStr : list string) : list obj :=
  match joinConfig, rows with
  | None, _ => rows
  | Some _, [] => rows
  | Some jc, _ => map snd (groupRows schema jc allSelectsStr rows)
  end.

(** *** The queries of [findOne] and [findMany] *)

(** The query [findOne] executes, with the schema after the selects were
    built. *)
Definition findOneQuery (schema : Schema) (model : string)
  (where_ : option (list Where.Clause)) (join : option JoinConfig)
  : option (Selects.SelectState * Query.SelectQuery) :=
  match convertWhereClause schema model where_ with
  | None => None
  | Some c =>
      let query := Query.withSelectAll (Some model) (Query.selectFrom model) in
      let query := applyConditions c query in
      let query := applyJoins model join query in
      let st := joinSelects schema join in
      let query := match join with
                   | Some _ => Query.select (Selects.allSelects st) query
                   | None => query
                   end in
      Some (st, query)
  end.

(** [limit || 100] *)
Definition limitOr100 (limit : option Z) : Z :=
  match limit with
  | Some n => if (n =? 0)%Z then 100%Z else n
  | None => 100%Z
  end.

(** [if (offset)] *)
Definition offsetGiven (offset : option Z) : bool :=
  match offset with
  | Some n => negb (n =? 0)%Z
  | None => false
  end.

(** The limit, ordering and offset [findMany] puts on its query. *)
Definition paginate (model : string) (limit offset : option Z)
  (sortBy : option SortBy.SortSpec) (query : Query.SelectQuery)
  : Query.SelectQuery :=
  let query :=
    if typeIs mssql then
      if negb (offsetGiven offset) then Query.withTop (limitOr100 limit) query
      else query
    else Query.withLimit (limitOr100 limit) query in
  let query :=
    match sortBy with
    | Some s =>
        Query.addOrderBy (getFieldName model (SortBy.field s))
          (Some (SortBy.direction s)) query
    | None => query
    end in
  if offsetGiven offset then
    let off := match offset with Some n => n | None => 0%Z end in
    if typeIs mssql then
      let query :=
        match sortBy with
        | None => Query.addOrderBy (getFieldName model "id") None query
        | Some _ => query
        end in
      Query.withFetch (limitOr100 limit) (Query.withOffset off query)
    else Query.withOffset off query
  else query.

Definition findManyQuery (schema : Schema) (model : string)
  (where_ : option (list Where.Clause)) (limit offset : option Z)
  (sortBy : option SortBy.SortSpec) (join : option JoinConfig)
  : option (Selects.SelectState * Query.SelectQuery) :=
  match convertWhereClause schema model where_ with
  | None => None
  | Some c =>
      let query := Query.withSelectAll (Some model) (Query.selectFrom model) in
      let query := applyConditions c query in
      let query := applyJoins model join query in
      let query := paginate model limit offset sortBy query in
      let st := joinSelects schema join in
      let query := match join with
                   | Some _ => Query.select (Selects.allSelects st) query
                   | None => query
                   end in
      Some (st, query)
  end.

(** The driver: the rows a query yields. *)
Variable execute : Query.SelectQuery -> list obj.

(** [findOne({ model, where, select, join })]: the record, [null] or
    [undefined] it resolves to; [None] when building the query throws. *)
Definition findOne (schema : Schema) (model : string)
  (where_ : option (list Where.Clause)) (join : option JoinConfig)
  : option JS.value :=
  match findOneQuery schema model where_ join with
  | None => None
  | Some (st, query) =>
      match execute query with
      | [] => Some VNull
      | row :: rest =>
          match join with
          | Some _ =>
              match processJoinedResults (Selects.schema st) (row :: rest)
                      model join (Selects.allSelectsStr st) with
              | [] => Some VUndefined
              | first :: _ => Some (VObj first)
              end
          | None => Some (VObj row)
          end
      end
  end.

(** [findMany({ model, where, limit, offset, sortBy, join })]; without a
    join the rows pass through [transformValueFromDB], which hands them back
    as they are. *)
Definition findMany (schema : Schema) (model : string)
  (where_ : option (list Where.Clause)) (limit offset : option Z)
  (sortBy : option SortBy.SortSpec) (join : option JoinConfig)
  : option (list obj) :=
  match findManyQuery schema model where_ limit offset sortBy join with
  | None => None
  | Some (st, query) =>
      let res := execute query in
      match join with
      | Some _ =>
          Some (processJoinedResults (Selects.schema st) res model join
                  (Selects.allSelectsStr st))
      | None => Some res
      end
  end.

(** *** Writes: [withReturning], [create], [update], [updateMany], [count],
    [delete], [deleteMany] *)

(** How [withReturning] obtains the written row: from the statement itself
    ([returningAll], or [outputAll("inserted")] on mssql), or on mysql by
    executing the statement and reading the row again with a select. *)
Inductive Returning :=
| ReturningAll
| OutputAllInserted
| ExecuteThenSelect (query : Query.SelectQuery).

(** [values.id ? "id" : where.length > 0 && where[0]?.field ? where[0].field
    : "id"] *)
Definition returningField (values : obj) (where_ : list Where.Clause)
  : string :=
  if truthy (prop "id" values) then "id"
  else
    match where_ with
    | first :: _ =>
        if negb (Where.field first =? EmptyString) then Where.field first
        else "id"
    | [] => "id"
    end.

(** [values[field] || where[0]?.value] *)
Definition returningValue (values : obj) (where_ : list Where.Clause)
  (field : string) : JS.value :=
  if truthy (prop field values) then prop field values
  else
    match where_ with
    | first :: _ => Where.value first
    | [] => VUndefined
    end.

(** [withReturning(values, builder, model, where)] *)
Definition withReturning (values : obj) (model : string)
  (where_ : list Where.Clause) : Returning :=
  if typeIs mysql then
    let field := returningField values where_ in
    let ordered :=
      Query.addOrderBy (getFieldName model field) (Some desc)
        (Query.withSelectAll None (Query.selectFrom model)) in
    if negb (truthy (prop "id" values))
       && match where_ with [] => true | _ :: _ => false end
    then ExecuteThenSelect (Query.withLimit 1 ordered)
    else
      ExecuteThenSelect
        (Query.withLimit 1
           (Query.where_
              (EBin (getFieldName model field) "="
                 (returningValue values where_ field))
              ordered))
  else if typeIs mssql then OutputAllInserted
  else ReturningAll.

(** [create({ data, model })]: the row inserted and the way it is read
    back. *)
Definition create (data : obj) (model : string) : string * obj * Returning :=
  (model, data, withReturning data model []).

(** The same two [where] calls as on a select. *)
Definition filterStatement (c : Conditions.Groups)
  (st : Statement.FilteredStatement) : Statement.FilteredStatement :=
  let add e st :=
    Statement.mkStatement (Statement.kind st) (Statement.table st)
      (Statement.set st) (Statement.wheres st ++ [e]) in
  let st := match Conditions.and c with
            | Some ands => add (EAnd ands) st
            | None => st
            end in
  match Conditions.or c with
  | Some ors => add (EOr ors) st
  | None => st
  end.

Definition filtered (kind : StatementKind) (schema : Schema) (model : string)
  (where_ : option (list Where.Clause)) (values : option obj)
  : option Statement.FilteredStatement :=
  match convertWhereClause schema model where_ with
  | None => None
  | Some c =>
      Some (filterStatement c (Statement.mkStatement kind model values []))
  end.

(** [update({ model, where, update: values })]: the statement and the way
    the updated row is read back. *)
Definition update (schema : Schema) (model : string)
  (where_ : list Where.Clause) (values : obj)
  : option (Statement.FilteredStatement * Returning) :=
  match filtered UpdateTable schema model (Some where_) (Some values) with
  | None => None
  | Some st => Some (st, withReturning values model where_)
  end.

(** [updateMany({ model, where, update: values })] *)
Definition updateMany (schema : Schema) (model : string)
  (where_ : list Where.Clause) (values : obj)
  : option Statement.FilteredStatement :=
  filtered UpdateTable schema model (Some where_) (Some values).

(** [count({ model, where })] *)
Definition count (schema : Schema) (model : string)
  (where_ : option (list Where.Clause))
  : option Statement.FilteredStatement :=
  filtered SelectCount schema model where_ None.

(** [delete({ model, where })] and [deleteMany({ model, where })] issue the
    same statement. *)
Definition deleteMany (schema : Schema) (model : string)
  (where_ : list Where.Clause) : option Statement.FilteredStatement :=
  filtered DeleteFrom schema model (Some where_) None.

End Adapter.
End Kysely.

(** ** The adapter factory

    The factory ([createAdapter] / [createAdapterFactory]) is not among the
    sources: only its tests and the Kysely adapter built on it are.  Its
    pipelines are modelled from sections 3, 4.1 to 4.3 and 4.6 of the
    specification, and they agree with the assertions of its tests. *)

Module AdapterFactory.

(** Modelled from the spec: the semantic types of a Field (section 3); the
    factory's type declarations are missing. *)
Inductive FieldType := TString | TNumber | TBoolean | TDate | TJson | TReference.

(** Modelled from the spec: a Field of section 3 (the schema registry of the
    factory is missing): semantic type, optional physical-name override,
    uniqueness flag, optional default value. *)
Record FieldDef := mkFieldDef {
  semanticType : FieldType;
  physicalOverride : option string;
  uniqueFlag : bool;
  defaultValue : option JS.value
}.

(** Modelled from the spec: a Model of section 3 (missing registry): its
    logical name and its fields besides the identifier. *)
Record Model := mkModel {
  modelName : string;
  modelFields : list (string * FieldDef)
}.

(** Modelled from the spec: the Schema Registry of section 2. *)
Definition Registry := list Model.

(** Modelled from the spec: the designated identifier field of every Model
    (section 3): always of type string, always treated as unique. *)
Definition identifier : string := "id".

(** Modelled from the spec: the definition of the identifier field. *)
Definition identifierField : FieldDef := mkFieldDef TString None true None.

(** Modelled from the spec: the full logical shape of a Model, identifier
    first. *)
Definition allFields (m : Model) : list (string * FieldDef) :=
  (identifier, identifierField) :: modelFields m.

(** Modelled from the spec: the direction of a transform (section 3,
    TransformContext). *)
Inductive TransformDirection := Input | Output.

(** Modelled from the spec: the TransformContext handed to custom hooks. *)
Record TransformContext := mkContext {
  ctxField : string;
  ctxModel : string;
  ctxDirection : TransformDirection;
  ctxValue : JS.value
}.

(** Modelled from the spec: the AdapterConfig of section 3 (the factory's
    configuration type is missing).  A custom input hook answers [None] when
    it leaves the field to the built-in coercion; the key-remapping hooks are
    the tables they return.  The transaction capability plays no part in the
    pipelines and is left out. *)
Record AdapterConfig := mkAdapterConfig {
  supportsBooleans : bool;
  supportsDates : bool;
  supportsJSON : bool;
  usePlural : bool;
  disableIdGeneration : bool;
  customIdGenerator : option (string -> option nat -> string);
  customTransformInput : option (TransformContext -> option JS.value);
  customTransformOutput : option (TransformContext -> JS.value);
  mapKeysTransformInput : option (list (string * string));
  mapKeysTransformOutput : option (list (string * string))
}.

(** Modelled from the spec: the error taxonomy of section 7, as far as the
    pipelines raise it. *)
Inductive Error :=
| SchemaError (name : string)
| BackendError (message : string).

(** Modelled from the spec: an operation yields a result or an error that is
    passed on unchanged. *)
Inductive Result (A : Type) :=
| Ok (a : A)
| Err (e : Error).
Arguments Ok {A} a.
Arguments Err {A} e.

Definition bind {A B : Type} (r : Result A) (k : A -> Result B) : Result B :=
  match r with
  | Ok a => k a
  | Err e => Err e
  end.

Notation "x <- r ;; k" := (bind r (fun x => k))
  (at level 61, r at next level, right associativity).

(** Modelled from the spec: the boundary of section 6 a backend driver
    supplies, for the operations modelled here. *)
Record BackendDriver := mkDriver {
  insert : string -> obj -> Result obj;
  selectOne : string -> list Where.Clause -> Result (option obj)
}.

Section Factory.

(** The runtime's date and JSON conversions and the default identifier
    generator. *)
Variable toISOString : Z -> string.
Variable parseDate : string -> option Z.
Variable stringify : JS.value -> string.
Variable parseJSON : string -> option JS.value.
Variable defaultGenerateId : string -> option nat -> string.

Variable cfg : AdapterConfig.

(** Modelled from the spec: Schema Registry lookup (section 4.1); an unknown
    model is a schema error. *)
Definition findModel (registry : Registry) (model : string) : Result Model :=
  match find (fun m => modelName m =? model) registry with
  | Some m => Ok m
  | None => Err (SchemaError model)
  end.

(** Modelled from the spec: [resolveModelName] (section 4.1): the
    pluralization rule if enabled, the logical name otherwise. *)
Definition resolveModelName (m : Model) : string :=
  if usePlural cfg then (modelName m ++ "s")%string else modelName m.

(** Modelled from the spec: [resolveFieldName] (section 4.1): the explicit
    per-field override, else the logical name; an unknown field is a schema
    error. *)
Definition resolveFieldName (m : Model) (field : string) : Result string :=
  match get field (allFields m) with
  | Some fd =>
      Ok (match physicalOverride fd with Some p => p | None => field end)
  | None => Err (SchemaError field)
  end.

Definition physicalOf (field : string) (fd : FieldDef) : string :=
  match physicalOverride fd with Some p => p | None => field end.

(** Modelled from the spec: the built-in input coercions of section 4.2,
    keyed by semantic type and capability flag. *)
Definition coerceInput (ty : FieldType) (v : JS.value) : JS.value :=
  match ty with
  | TBoolean =>
      if supportsBooleans cfg then v
      else match v with
           | VBool b => VNum (if b then 1 else 0)
           | _ => v
           end
  | TDate =>
      if supportsDates cfg then v
      else match v with
           | VDate ms => VStr (toISOString ms)
           | _ => v
           end
  | TJson => if supportsJSON cfg then v else VStr (stringify v)
  | _ => v
  end.

(** Modelled from the spec: the inverse coercions of section 4.2
    ([1]/[0]/truthy to boolean, ISO strings to Date, texts to parsed JSON). *)
Definition coerceOutput (ty : FieldType) (v : JS.value) : JS.value :=
  match ty with
  | TBoolean => if supportsBooleans cfg then v else VBool (truthy v)
  | TDate =>
      if supportsDates cfg then v
      else match v with
           | VStr s => match parseDate s with
                       | Some ms => VDate ms
                       | None => v
                       end
           | _ => v
           end
  | TJson =>
      if supportsJSON cfg then v
      else match v with
           | VStr s => match parseJSON s with
                       | Some j => j
                       | None => v
                       end
           | _ => v
           end
  | _ => v
  end.

(** Modelled from the spec: the value step of the input transform: the
    custom hook runs first and its answer, if any, is used as it is. *)
Definition inputValue (m : Model) (field : string) (fd : FieldDef)
  (v : JS.value) : JS.value :=
  let builtin := coerceInput (semanticType fd) v in
  match customTransformInput cfg with
  | Some hook =>
      match hook (mkContext field (modelName m) Input v) with
      | Some answer => answer
      | None => builtin
      end
  | None => builtin
  end.

(** Modelled from the spec: the key under which a field travels to the
    backend: the key-remapping hook's name for the logical key, else the
    physical name. *)
Definition transportKey (field : string) (fd : FieldDef) : string :=
  match mapKeysTransformInput cfg with
  | Some table =>
      match get field table with
      | Some k => k
      | None => physicalOf field fd
      end
  | None => physicalOf field fd
  end.

(** Modelled from the spec: the Input Transform Pipeline, field by field
    over the input. *)
Fixpoint transformInputFrom (m : Model) (data : obj) (acc : obj)
  : Result obj :=
  match data with
  | [] => Ok acc
  | (field, v) :: rest =>
      match get field (allFields m) with
      | None => Err (SchemaError field)
      | Some fd =>
          transformInputFrom m rest
            (set (transportKey field fd) (inputValue m field fd v) acc)
      end
  end.

Definition transformInput (m : Model) (data : obj) : Result obj :=
  transformInputFrom m data [].

(** Modelled from the spec: the key of the backend's row read for a field:
    the key the output key-mapping hook maps onto the field's physical name,
    else the physical name. *)
Definition sourceKey (field : string) (fd : FieldDef) : string :=
  match mapKeysTransformOutput cfg with
  | Some table =>
      match find (fun kv => snd kv =? physicalOf field fd) table with
      | Some kv => fst kv
      | None => physicalOf field fd
      end
  | None => physicalOf field fd
  end.

(** Modelled from the spec: the key a field has in the output record: the
    logical name, renamed by the output key-mapping hook when it lists it. *)
Definition outputKey (field : string) : string :=
  match mapKeysTransformOutput cfg with
  | Some table =>
      match get field table with
      | Some k => k
      | None => field
      end
  | None => field
  end.

(** Modelled from the spec: the value step of the output transform: the
    inverse coercion, then the custom output hook; an absent field gets the
    Field's default, or [undefined]. *)
Definition outputValue (m : Model) (field : string) (fd : FieldDef)
  (row : obj) : JS.value :=
  match get (sourceKey field fd) row with
  | Some raw =>
      let v := coerceOutput (semanticType fd) raw in
      match customTransformOutput cfg with
      | Some hook => hook (mkContext field (modelName m) Output v)
      | None => v
      end
  | None =>
      match defaultValue fd with
      | Some d => d
      | None => VUndefined
      end
  end.

(** Modelled from the spec: whether a [select] projection keeps a field. *)
Definition selected (select : option (list string)) (field : string) : bool :=
  match select with
  | None => true
  | Some fs => existsb (String.eqb field) fs
  end.

(** Modelled from the spec: the Output Transform Pipeline: the full logical
    shape of the Model, restricted to the selected fields. *)
Definition transformOutput (m : Model) (row : obj)
  (select : option (list string)) : obj :=
  fold_left
    (fun acc (e : string * FieldDef) =>
       let (field, fd) := e in
       if selected select field
       then set (outputKey field) (outputValue m field fd row) acc
       else acc)
    (allFields m) [].

(** Modelled from the spec: the generator of the ID Policy (section 4.3):
    the caller's if supplied, the default otherwise. *)
Definition generateId (model : string) (size : option nat) : string :=
  match customIdGenerator cfg with
  | Some g => g model size
  | None => defaultGenerateId model size
  end.

(** Modelled from the spec: the ID Policy: with generation disabled the
    input is left as it is; otherwise the generated identifier is injected
    before the input transform. *)
Definition applyIdPolicy (m : Model) (data : obj) : obj :=
  if disableIdGeneration cfg then data
  else set identifier (VStr (generateId (modelName m) None)) data.

(** Modelled from the spec: what [create] hands to the backend driver. *)
Definition createPayload (m : Model) (data : obj) : Result obj :=
  transformInput m (applyIdPolicy m data).

(** Modelled from the spec: [create(model, data, select?)] of section 4.6. *)
Definition create (registry : Registry) (backend : BackendDriver)
  (model : string) (data : obj) (select : option (list string))
  : Result obj :=
  m <- findModel registry model ;;
  payload <- createPayload m data ;;
  row <- insert backend (resolveModelName m) payload ;;
  Ok (transformOutput m row select).

(** Modelled from the spec: the field names of a Where resolved to physical
    names. *)
Fixpoint resolveWhere (m : Model) (w : list Where.Clause)
  : Result (list Where.Clause) :=
  match w with
  | [] => Ok []
  | c :: rest =>
      p <- resolveFieldName m (Where.field c) ;;
      rest' <- resolveWhere m rest ;;
      Ok (Where.mkWhere p (Where.value c) (Where.operator c)
            (Where.connector c) :: rest')
  end.

(** Modelled from the spec: [findOne(model, where, select?)] of section
    4.6, without joins. *)
Definition findOne (registry : Registry) (backend : BackendDriver)
  (model : string) (w : list Where.Clause) (select : option (list string))
  : Result (option obj) :=
  m <- findModel registry model ;;
  w' <- resolveWhere m w ;;
  found <- selectOne backend (resolveModelName m) w' ;;
  Ok (match found with
      | Some row => Some (transformOutput m row select)
      | None => None
      end).

End Factory.

(** Modelled from the spec: the stand-in driver of the factory's tests, which
    hands back the row it was given. *)
Definition echoDriver : BackendDriver :=
  mkDriver (fun _ data => Ok data) (fun _ _ => Ok None).

End AdapterFactory.

(** ** Notions used to state the properties *)

(** The options the Kysely adapter hands to the factory
    ([adapterOptions.config]); the hooks and the identifier policy are left
    at the factory's defaults. *)
Definition kyselyAdapterOptions (config : option Config.KyselyAdapterConfig)
  : AdapterFactory.AdapterConfig :=
  let type := Kysely.configType config in
  AdapterFactory.mkAdapterConfig
    (match type with
     | Some sqlite | Some mssql | Some mysql | None => false
     | _ => true
     end)
    (match type with
     | Some sqlite | Some mssql | None => false
     | _ => true
     end)
    false
    (match config with
     | Some c => match Config.usePlural c with Some b => b | None => false end
     | None => false
     end)
    false None None None None None.

Section Statements.

Variable config : option Config.KyselyAdapterConfig.
Variable getFieldName : string -> string -> string.
Variable getDefaultModelName : string -> string.
Variable toISOString : Z -> string.
Variable dateToString numberToString : Z -> string.

(** The clauses of a Where compiled one by one, in order. *)
Fixpoint convertAll (schema : Schema) (model : string)
  (w : list Where.Clause) : option (list (Connector * Expr)) :=
  match w with
  | [] => Some []
  | c :: rest =>
      match Kysely.convertCondition config getFieldName toISOString
              dateToString numberToString schema model c with
      | None => None
      | Some ke =>
          match convertAll schema model rest with
          | None => None
          | Some kes => Some (ke :: kes)
          end
      end
  end.

(** The identifier a row has once its joined columns are set apart. *)
Definition mainIdOf (joinConfig : JoinConfig) (allSelectsStr : list string)
  (row : obj) : JS.value :=
  prop "id" (fst (Kysely.distributeColumns joinConfig allSelectsStr row)).

(** The claim on pagination as the specification words it: an offset without
    [sortBy] puts an ordering by the identifier on the query. *)
Definition offsetForcesIdOrdering (schema : Schema) (model : string)
  (w : option (list Where.Clause)) (limit offset : option Z)
  (join : option JoinConfig) : Prop :=
  Kysely.offsetGiven offset = true ->
  forall st query,
    Kysely.findManyQuery config getFieldName getDefaultModelName toISOString
      dateToString numberToString schema model w limit offset None join = Some (st, query) ->
    exists dir, In (getFieldName model "id", dir) (Query.orderBy query).

End Statements.

Definition isOR (k : Connector) : bool :=
  match k with OR => true | AND => false end.

(** The predicates of one group, in clause order. *)
Definition groupOf (or_ : bool) (es : list (Connector * Expr)) : list Expr :=
  map snd (filter (fun ke => Bool.eqb (isOR (fst ke)) or_) es).

(** The truth of a compiled predicate on a row, given the backend's
    comparison [atom lhs op rhs]; [eb.and] holds when all members hold,
    [eb.or] when one does. *)
Fixpoint evalExpr (atom : string -> string -> JS.value -> bool) (e : Expr)
  : bool :=
  match e with
  | EBin lhs op rhs => atom lhs op rhs
  | EAnd es => forallb (evalExpr atom) es
  | EOr es => existsb (evalExpr atom) es
  end.

(** A row passes the query's filter when every [where] call's predicate
    holds. *)
Definition passes (atom : string -> string -> JS.value -> bool)
  (query : Query.SelectQuery) : bool :=
  forallb (evalExpr atom) (Query.wheres query).

(** The operators [whereExpr] has a branch for. *)
Definition recognizedOperator (operator : string) : bool :=
  (toLowerCase operator =? "in") || (toLowerCase operator =? "not_in")
  || existsb (String.eqb operator)
       ["contains"; "starts_with"; "ends_with"; "eq"; "ne"; "gt"; "gte";
        "lt"; "lte"].

(** No two members are [===]. *)
Fixpoint pairwiseDistinct (l : list JS.value) : Prop :=
  match l with
  | [] => True
  | x :: rest =>
      Forall (fun y => strictEq x y = false) rest /\ pairwiseDistinct rest
  end.

(** A string without the character [c]. *)
Fixpoint lacksChar (c : ascii) (s : string) : bool :=
  match s with
  | EmptyString => true
  | String c' s' => negb (Ascii.eqb c' c) && lacksChar c s'
  end.



(** The schema after some joins were prepared: every table is the original
    one, possibly with the [id] field written into it. *)
Definition idFieldsAdded (schema0 schema : Schema) : Prop :=
  forall key,
    get key schema = get key schema0
    \/ exists tbl,
        get key schema0 = Some tbl
        /\ get key schema
           = Some (Table.mkTable (Table.modelName tbl)
                     (Kysely.withIdField (Table.fields tbl))).

(** The alias of a selection has the shape [joined_<model>_<field>]. *)
Definition aliasShaped (s : Selection.RawSelection) : Prop :=
  Selection.alias s
  = ("joined_" ++ Selection.table s ++ "_" ++ Selection.column s)%string.

(** What the slot of a joined model holds in an output record: for a unique
    join field [null] or one object; otherwise a list of objects that all
    have an identifier and no two of which have the same one. *)
Definition slotOk (unique : bool) (slot : option JS.value) : Prop :=
  if unique then
    slot = Some VNull \/ exists o, slot = Some (VObj o)
  else
    exists items,
      slot = Some (VArr items)
      /\ Forall (fun item =>
                   exists o, item = VObj o /\ truthy (prop "id" o) = true)
           items
      /\ pairwiseDistinct (map Kysely.idOf items).

(** Every joined model has its object of collected fields. *)
Definition joinedObjectsOf (joinConfig : JoinConfig)
  (joinedModelFields : obj) : Prop :=
  forall jm ja,
    In (jm, ja) joinConfig ->
    exists o, get jm joinedModelFields = Some (VObj o).

(** An output record whose slots of joined models are all as [slotOk]
    says. *)
Definition entryOkFor (getDefaultModelName : string -> string)
  (schema : Schema) (joinConfig : JoinConfig) (entry : obj) : Prop :=
  forall jm ja,
    In (jm, ja) joinConfig ->
    Kysely.modelFields schema (getDefaultModelName jm) <> None ->
    slotOk (Kysely.isUnique schema (getDefaultModelName jm) ja)
      (get (getDefaultModelName jm) entry).

(** The custom input hook, if there is one, leaves this field to the
    built-in coercion. *)
Definition inputLeftToBuiltin (cfg : AdapterFactory.AdapterConfig)
  (m : AdapterFactory.Model) (field : string) (v : JS.value) : Prop :=
  match AdapterFactory.customTransformInput cfg with
  | Some hook =>
      hook (AdapterFactory.mkContext field (AdapterFactory.modelName m)
              AdapterFactory.Input v) = None
  | None => True
  end.

(** The custom output hook, if there is one, hands this value on as it
    is. *)
Definition outputLeftAsIs (cfg : AdapterFactory.AdapterConfig)
  (m : AdapterFactory.Model) (field : string) (v : JS.value) : Prop :=
  match AdapterFactory.customTransformOutput cfg with
  | Some hook =>
      hook (AdapterFactory.mkContext field (AdapterFactory.modelName m)
              AdapterFactory.Output v) = v
  | None => True
  end.

(** Every field of the input is a field of the model. *)
Definition knownFields (m : AdapterFactory.Model) (data : obj) : Prop :=
  forall g, In g (keys data) -> get g (AdapterFactory.allFields m) <> None.

(** No field of the input other than [field] travels under the key [key]. *)
Definition transportKeyFree (cfg : AdapterFactory.AdapterConfig)
  (m : AdapterFactory.Model) (data : obj) (field key : string) : Prop :=
  forall g gd,
    In g (keys data) ->
    get g (AdapterFactory.allFields m) = Some gd ->
    AdapterFactory.transportKey cfg g gd = key ->
    g = field.

(** No other field of the model comes out under the output key of
    [field]. *)
Definition outputKeyOwn (cfg : AdapterFactory.AdapterConfig)
  (m : AdapterFactory.Model) (field : string) (fd : AdapterFactory.FieldDef)
  : Prop :=
  forall g gd,
    In (g, gd) (AdapterFactory.allFields m) ->
    AdapterFactory.outputKey cfg g = AdapterFactory.outputKey cfg field ->
    (g, gd) = (field, fd).

(** The claim on identifiers as the specification words it, for the record a
    [create] call returns. *)
Definition createdRecordHasId (r : AdapterFactory.Result obj) : Prop :=
  exists record s,
    r = AdapterFactory.Ok record /\
    get AdapterFactory.identifier record = Some (VStr s) /\ s <> EmptyString.

(** The claim on identifiers as the specification words it, for the data a
    [create] call hands to the backend. *)
Definition payloadHasId (p : AdapterFactory.Result obj) : Prop :=
  exists payload s,
    p = AdapterFactory.Ok payload /\
    get AdapterFactory.identifier payload = Some (VStr s) /\ s <> EmptyString.

(** The claim on identifiers as the specification words it, for the record a
    [create] call returns with generation disabled. *)
Definition createdRecordLacksId (r : AdapterFactory.Result obj) : Prop :=
  exists record,
    r = AdapterFactory.Ok record /\
    prop AdapterFactory.identifier record = VUndefined.

(** The claim on booleans as the specification words it, for one create
    call: the backend is handed [1] or [0] for the field, and the returned
    record has the boolean. *)
Definition booleanStoredAndReturned
  (payload returned : AdapterFactory.Result obj) (field : string) (b : bool)
  : Prop :=
  (exists p,
      payload = AdapterFactory.Ok p
      /\ get field p = Some (VNum (if b then 1 else 0)))
  /\ (exists r,
        returned = AdapterFactory.Ok r /\ get field r = Some (VBool b)).

(** The claim on [select] as the specification words it: the keys of the
    returned record are exactly the selected fields. *)
Definition keysAreExactly (r : AdapterFactory.Result obj)
  (fields : list string) : Prop :=
  exists record,
    r = AdapterFactory.Ok record
    /\ forall k, In k (keys record) <-> In k fields.

(** * The API-key routes: sweeping the expired keys *)

Module ApiKeyRoutes.

(** The [lastChecked] of the closure of [createApiKeyRoutes], with the number
    of times the clock was read so far. *)
Record SweepState := mkSweepState {
  lastChecked : option Z;
  reads : nat
}.

(** The argument of a [ctx.adapter.deleteMany] call. *)
Definition DeleteManyCall : Type := string * list Where.Clause.

Section Sweep.

(** [new Date().getTime()] at the n-th reading of the clock. *)
Variable clock : nat -> Z.
(** [schema.apikey.modelName] *)
Variable modelName : string.

(** From [lastChecked = new Date()] on, with [t] the next reading of the
    clock. *)
Definition sweep (t : nat) : SweepState * option DeleteManyCall :=
  (mkSweepState (Some (clock t)) (t + 2),
   Some (modelName,
         [Where.mkWhere "expiresAt" (VNum (clock (t + 1))) (Some "lt") None])).

(** [deleteAllExpiredApiKeys(ctx, byPassLastCheckTime)]: the state after the
    call and the [deleteMany] it makes, if it makes one. *)
Definition deleteAllExpiredApiKeys (byPassLastCheckTime : bool)
  (s : SweepState) : SweepState * option DeleteManyCall :=
  match lastChecked s with
  | Some last =>
      if negb byPassLastCheckTime then
        let now := clock (reads s) in
        let diff := (now - last)%Z in
        if (diff <? 10000)%Z
        then (mkSweepState (Some last) (S (reads s)), None)
        else sweep (S (reads s))
      else sweep (reads s)
  | None => sweep (reads s)
  end.

(** The values [lastChecked] is given in a run of calls, one for every call
    that goes on to [deleteMany]. *)
Fixpoint sweepTimes (calls : list bool) (s : SweepState) : list Z :=
  match calls with
  | [] => []
  | byPass :: rest =>
      let (s', request) := deleteAllExpiredApiKeys byPass s in
      match request, lastChecked s' with
      | Some _, Some t => t :: sweepTimes rest s'
      | _, _ => sweepTimes rest s'
      end
  end.

End Sweep.

End ApiKeyRoutes.

(** Each member is at least [gap] after the one before it. *)
Fixpoint spaced (gap : Z) (l : list Z) : Prop :=
  match l with
  | a :: (b :: _) as rest => (a + gap <= b)%Z /\ spaced gap rest
  | _ => True
  end.

(** * The [init] command: the lines added to the [.env] files *)

Module InitCommand.

Definition newline : ascii := "010"%char.

(** [`"${s}"`] *)
Definition quoted (s : string) : string :=
  String "034"%char (s ++ String "034"%char EmptyString).

(** [previouslyGeneratedSecret], with the number of calls of
    [generateSecretHash] made so far. *)
Record SecretState := mkSecretState {
  previouslyGeneratedSecret : option string;
  generated : nat
}.

(** The files at their full paths, with their contents. *)
Definition FileSystem := list (string * string).

Section UpdateEnvs.

(** The secret the n-th call of [generateSecretHash()] gives. *)
Variable generateSecretHash : nat -> string.

(** [getEnvDescription(env)]; [None] is [undefined]. *)
Definition getEnvDescription (env : string) (s : SecretState)
  : option string * SecretState :=
  if env =? "DATABASE_HOST" then
    (Some (quoted "The host of your database"), s)
  else if env =? "DATABASE_PORT" then
    (Some (quoted "The port of your database"), s)
  else if env =? "DATABASE_USER" then
    (Some (quoted "The username of your database"), s)
  else if env =? "DATABASE_PASSWORD" then
    (Some (quoted "The password of your database"), s)
  else if env =? "DATABASE_NAME" then
    (Some (quoted "The name of your database"), s)
  else if env =? "DATABASE_URL" then
    (Some (quoted "The URL of your database"), s)
  else if env =? "BETTER_AUTH_SECRET" then
    match previouslyGeneratedSecret s with
    | Some secret => (Some (quoted secret), s)
    | None =>
        let secret := generateSecretHash (generated s) in
        (Some (quoted secret), mkSecretState (Some secret) (S (generated s)))
    end
  else if env =? "BETTER_AUTH_URL" then
    (Some (quoted "http://localhost:3000" ++ " # Your APP URL")%string, s)
  else (None, s).

(** [`${isCommented ? "# " : ""}${x}=${getEnvDescription(x) ??
    `"some_value"`}`] *)
Definition envLine (isCommented : bool) (x : string) (s : SecretState)
  : string * SecretState :=
  let (description, s') := getEnvDescription x s in
  (((if isCommented then "# " else EmptyString) ++ x ++ "="
    ++ match description with
       | Some d => d
       | None => quoted "some_value"
       end)%string,
   s').

(** [envs.map(...)], from the first to the last. *)
Fixpoint envLines (isCommented : bool) (envs : list string) (s : SecretState)
  : list string * SecretState :=
  match envs with
  | [] => ([], s)
  | x :: rest =>
      let (line, s1) := envLine isCommented x s in
      let (lines, s2) := envLines isCommented rest s1 in
      (line :: lines, s2)
  end.

(** The body of [for (const file of files)]; [None] when [fs.readFile]
    rejects because there is no such file. *)
Definition updateEnvFile (envs : list string) (isCommented : bool)
  (file : string) (st : FileSystem * SecretState)
  : option (FileSystem * SecretState) :=
  let (fs, s) := st in
  match get file fs with
  | None => None
  | Some content =>
      let lines := split newline content in
      let (newLines, s') := envLines isCommented envs s in
      let newLines := newLines ++ [EmptyString] ++ lines in
      Some (set file (joinWith (String newline EmptyString) newLines) fs, s')
  end.

(** The loop over the files: the files and the secret when it ends, and
    whether it went through all of them. *)
Fixpoint updateEnvsFrom (envs : list string) (isCommented : bool)
  (files : list string) (st : FileSystem * SecretState)
  : (FileSystem * SecretState) * bool :=
  match files with
  | [] => (st, true)
  | file :: rest =>
      match updateEnvFile envs isCommented file st with
      | None => (st, false)
      | Some st' => updateEnvsFrom envs isCommented rest st'
      end
  end.

(** [updateEnvs({ envs, files, isCommented })] *)
Definition updateEnvs (envs files : list string) (isCommented : bool)
  (fs : FileSystem) : (FileSystem * SecretState) * bool :=
  updateEnvsFrom envs isCommented files (fs, mkSecretState None 0).

End UpdateEnvs.

End InitCommand.

(** ** Fixtures: the models and calls of the tests *)

Module Fixtures.

(** The [user] and [session] tables as the Kysely adapter sees them. *)
Definition schema : Schema :=
  [("user",
    Table.mkTable "user"
      [("name", Field.mkField "string" None None);
       ("email", Field.mkField "string" (Some "email_address") (Some true));
       ("emailVerified", Field.mkField "boolean" None None);
       ("createdAt", Field.mkField "date" None None)]);
   ("session",
    Table.mkTable "session"
      [("token", Field.mkField "string" None (Some true));
       ("userId", Field.mkField "string" None None)]);
   ("account",
    Table.mkTable "account"
      [("userId", Field.mkField "string" None (Some true))])].

Definition getFieldName (model field : string) : string :=
  match Kysely.modelFields schema model with
  | Some fs =>
      match get field fs with
      | Some a => Kysely.physicalName field a
      | None => field
      end
  | None => field
  end.

Definition getDefaultModelName (model : string) : string := model.

Definition toISOString (ms : Z) : string := "1970-01-01T00:00:00.000Z".

Definition dateToString (ms : Z) : string :=
  "Thu Jan 01 1970 00:00:00 GMT+0000".

(** The host's print of the one large number of the examples, [10^21]. *)
Definition numberToString (n : Z) : string := "1e+21".

Definition sqliteConfig : option Config.KyselyAdapterConfig :=
  Some (Config.mkConfig (Some sqlite) None None).

Definition mssqlConfig : option Config.KyselyAdapterConfig :=
  Some (Config.mkConfig (Some mssql) None None).

(** A user joined with its sessions (many) and its account (unique). *)
Definition join : JoinConfig :=
  [("session", Join.mkJoin left "id" "userId");
   ("account", Join.mkJoin left "id" "userId")].

Definition joinedRow (id name : string) (sessionId accountId : JS.value)
  : obj :=
  [("id", VStr id); ("name", VStr name);
   ("joined_session_token", VNull);
   ("joined_session_userId", VStr id);
   ("joined_session_id", sessionId);
   ("joined_account_userId", VStr id);
   ("joined_account_id", accountId)].

Definition joinedRows : list obj :=
  [joinedRow "u1" "a" (VStr "s1") VNull;
   joinedRow "u1" "a" (VStr "s2") VNull;
   joinedRow "u2" "b" VNull (VStr "a1");
   joinedRow "u1" "a" (VStr "s1") VNull].

(** The [user] model of the factory's tests. *)
Definition userModel : AdapterFactory.Model :=
  AdapterFactory.mkModel "user"
    [("name", AdapterFactory.mkFieldDef AdapterFactory.TString None false None);
     ("email",
      AdapterFactory.mkFieldDef AdapterFactory.TString (Some "email_address")
        true None);
     ("emailVerified",
      AdapterFactory.mkFieldDef AdapterFactory.TBoolean None false
        (Some (VBool false)));
     ("image", AdapterFactory.mkFieldDef AdapterFactory.TString None false None);
     ("createdAt",
      AdapterFactory.mkFieldDef AdapterFactory.TDate None false
        (Some (VDate 0)));
     ("updatedAt",
      AdapterFactory.mkFieldDef AdapterFactory.TDate None false
        (Some (VDate 0)))].

Definition registry : AdapterFactory.Registry := [userModel].

(** The configuration of [createTestAdapter], with the capability for
    booleans and the identifier policy as arguments. *)
Definition testConfig (supportsBooleans disableIdGeneration : bool)
  : AdapterFactory.AdapterConfig :=
  AdapterFactory.mkAdapterConfig supportsBooleans true true false
    disableIdGeneration None None None None None.

Definition defaultGenerateId (model : string) (size : option nat) : string :=
  "generated-id".

Definition parseDate (s : string) : option Z := Some 0%Z.
Definition stringify (v : JS.value) : string := "{}".
Definition parseJSON (s : string) : option JS.value := Some (VObj []).

(** A custom input transform that answers for one field with one value. *)
Definition answerFor (field : string) (answer : JS.value)
  (ctx : AdapterFactory.TransformContext) : option JS.value :=
  if AdapterFactory.ctxField ctx =? field then Some answer else None.

(** The configuration of the tests with a custom input transform. *)
Definition hookedConfig (supportsBooleans : bool)
  (hook : AdapterFactory.TransformContext -> option JS.value)
  : AdapterFactory.AdapterConfig :=
  AdapterFactory.mkAdapterConfig supportsBooleans true true false false None
    (Some hook) None None None.

(** The configuration of the tests with an output key mapping. *)
Definition renamingConfig (table : list (string * string))
  : AdapterFactory.AdapterConfig :=
  AdapterFactory.mkAdapterConfig true true true false false None None None
    None (Some table).

(** The configuration of the tests with the custom transforms and the key
    mappings as arguments. *)
Definition customConfig (supportsBooleans : bool)
  (input : option (AdapterFactory.TransformContext -> option JS.value))
  (output : option (AdapterFactory.TransformContext -> JS.value))
  (inputKeys outputKeys : option (list (string * string)))
  : AdapterFactory.AdapterConfig :=
  AdapterFactory.mkAdapterConfig supportsBooleans true true false false None
    input output inputKeys outputKeys.

(** A driver whose database assigns the identifier. *)
Definition assigningDriver : AdapterFactory.BackendDriver :=
  AdapterFactory.mkDriver
    (fun _ data => AdapterFactory.Ok (set "id" (VStr "db-1") data))
    (fun _ _ => AdapterFactory.Ok None).

(** Users and their keys, the table of the keys under a name of one's
    choice; a user joined with its keys; and the one row a driver yields
    for the user [u1] with the key [k1]. *)
Definition keySchema (keys : string) : Schema :=
  [("user", Table.mkTable "user" [("name", Field.mkField "string" None None)]);
   (keys, Table.mkTable keys [("userId", Field.mkField "string" None None)])].

Definition keyJoin (keys : string) : JoinConfig :=
  [(keys, Join.mkJoin left "id" "userId")].

Definition keyRow (keys : string) : obj :=
  [("id", VStr "u1");
   (("joined_" ++ keys ++ "_userId")%string, VStr "u1");
   (("joined_" ++ keys ++ "_id")%string, VStr "k1")].

(** [adapter.create] of the tests, on the stand-in driver. *)
Definition create (cfg : AdapterFactory.AdapterConfig) (data : obj)
  (select : option (list string)) : AdapterFactory.Result obj :=
  AdapterFactory.create toISOString parseDate stringify parseJSON
    defaultGenerateId cfg registry AdapterFactory.echoDriver "user" data
    select.

(** The claim on booleans as the specification words it, for a create call
    of the tests that gives [emailVerified: true]. *)
Definition booleanClaimOn (cfg : AdapterFactory.AdapterConfig) (data : obj)
  (select : option (list string)) : Prop :=
  booleanStoredAndReturned
    (AdapterFactory.createPayload toISOString stringify defaultGenerateId cfg
       userModel data)
    (create cfg data select) "emailVerified" true.

End Fixtures.

(** * Properties *)

(** ** Objects and strings *)

Lemma get_set_same {A : Type} k (v : A) o : get k (set k v o) = Some v.
Proof.
  induction o as [|[k' v'] o IH]; simpl.
  - now rewrite String.eqb_refl.
  - destruct (String.eqb k' k) eqn:E; simpl.
    + now rewrite String.eqb_refl.
    + now rewrite E.
Qed.

Lemma get_set_other {A : Type} k k' (v : A) o :
  k' <> k -> get k' (set k v o) = get k' o.
Proof.
  intros Hne.
  induction o as [|[k0 v0] o IH]; simpl.
  - destruct (String.eqb k k') eqn:E; [|reflexivity].
    apply String.eqb_eq in E; congruence.
  - destruct (String.eqb k0 k) eqn:E; simpl.
    + apply String.eqb_eq in E; subst k0.
      destruct (String.eqb k k') eqn:E'; [|reflexivity].
      apply String.eqb_eq in E'; congruence.
    + now rewrite IH.
Qed.

Lemma get_None_iff {A : Type} k (o : list (string * A)) :
  get k o = None <-> ~ In k (keys o).
Proof.
  induction o as [|[k' v'] o IH]; simpl.
  - tauto.
  - destruct (String.eqb k' k) eqn:E.
    + apply String.eqb_eq in E. split; [discriminate|]. intros H; exfalso; auto.
    + apply String.eqb_neq in E. rewrite IH. tauto.
Qed.

Lemma get_In {A : Type} k (v : A) o : get k o = Some v -> In (k, v) o.
Proof.
  induction o as [|[k' v'] o IH]; simpl; [discriminate|].
  destruct (String.eqb k' k) eqn:E.
  - apply String.eqb_eq in E. intros [= ->]. left. now subst.
  - auto.
Qed.

Lemma keys_set {A : Type} k (v : A) o k' :
  In k' (keys (set k v o)) <-> k' = k \/ In k' (keys o).
Proof.
  induction o as [|[k0 v0] o IH]; simpl.
  - intuition.
  - destruct (String.eqb k0 k) eqn:E; simpl.
    + apply String.eqb_eq in E; subst. intuition.
    + rewrite IH. intuition.
Qed.

Lemma strictEq_true a b : strictEq a b = true -> a = b.
Proof.
  destruct a, b; simpl; try discriminate; intros H; try reflexivity.
  - apply Bool.eqb_prop in H. now subst.
  - apply Z.eqb_eq in H. now subst.
  - apply String.eqb_eq in H. now subst.
Qed.

(** ** The Kysely adapter's value transforms *)

Section KyselyValues.

Variable config : option Config.KyselyAdapterConfig.
Variable toISOString : Z -> string.

Lemma transformObject_id (v : JS.value) : Kysely.transformObject config v = v.
Proof.
  induction v as [| | | | | |xs IH|props IH] using value_nested_ind;
    try reflexivity.
  - simpl. f_equal.
    induction IH as [|x xs Hx _ IHxs]; simpl; [reflexivity|].
    f_equal; [|exact IHxs].
    destruct (isDate x && Kysely.typeIs config mysql); [reflexivity|].
    destruct (isObjectLike x); [exact Hx | reflexivity].
  - simpl. f_equal.
    induction IH as [|[k x] props Hx _ IHprops]; simpl; [reflexivity|].
    f_equal; [|exact IHprops].
    simpl in Hx. f_equal.
    destruct (isDate x && Kysely.typeIs config mysql); [reflexivity|].
    destruct (isObjectLike x); [exact Hx | reflexivity].
Qed.

Lemma transformValueFromDB_id (v : JS.value) :
  Kysely.transformValueFromDB config v = v.
Proof.
  destruct v; try reflexivity; unfold Kysely.transformValueFromDB; simpl.
  - f_equal. induction xs as [|x xs IH]; simpl; [reflexivity|].
    f_equal; [|exact IH].
    destruct (isObjectLike x); [apply transformObject_id | reflexivity].
  - change (Kysely.transformObject config (VObj props) = VObj props).
    apply transformObject_id.
Qed.

(** C8.  The Kysely adapter leaves the identifier as it is in both
    directions, whatever the database type, schema, model and value:
    [transformValueToDB] returns the value of the field ["id"] unchanged
    (and never throws on it), and [transformValueFromDB] returns what the
    driver produced, so the identifier of a row read back is the one the
    driver gave. *)
Theorem identifier_passes_unchanged :
  forall (schema : Schema) (model : string) (value : JS.value),
    Kysely.transformValueToDB config toISOString schema value model "id"
      = Some value
    /\ Kysely.transformValueFromDB config value = value
    /\ (forall row : obj,
          exists row',
            Kysely.transformValueFromDB config (VObj row) = VObj row'
            /\ get "id" row' = get "id" row).
Proof.
  intros schema model value. split; [reflexivity|]. split.
  - apply transformValueFromDB_id.
  - intros row. exists row. split; [apply transformValueFromDB_id | reflexivity].
Qed.

End KyselyValues.

(** ** The where-clause compiler *)

Section WhereCompiler.

Variable config : option Config.KyselyAdapterConfig.
Variable getFieldName : string -> string -> string.
Variable getDefaultModelName : string -> string.
Variable toISOString : Z -> string.
Variable dateToString numberToString : Z -> string.

Let convertCondition :=
  Kysely.convertCondition config getFieldName toISOString dateToString numberToString.
Let convertWhereClause :=
  Kysely.convertWhereClause config getFieldName toISOString dateToString numberToString.
Let transformValueToDB := Kysely.transformValueToDB config toISOString.
Let findOneQuery :=
  Kysely.findOneQuery config getFieldName getDefaultModelName toISOString
    dateToString numberToString.

Lemma convertCondition_value schema model f v op k v' :
  transformValueToDB schema v model f = Some v' ->
  convertCondition schema model (Where.mkWhere f v op k)
  = Some (match k with Some c => c | None => AND end,
          Kysely.whereExpr dateToString numberToString model (getFieldName model f)
            (match op with Some o => o | None => "=" end) v').
Proof.
  intros Hv. unfold convertCondition, Kysely.convertCondition. simpl.
  unfold transformValueToDB in Hv. now rewrite Hv.
Qed.

Lemma groupOf_cons or_ k e es :
  groupOf or_ ((k, e) :: es)
  = if Bool.eqb (isOR k) or_ then e :: groupOf or_ es else groupOf or_ es.
Proof.
  unfold groupOf. simpl. now destruct (Bool.eqb (isOR k) or_).
Qed.

Lemma convertConditions_groups schema model w :
  forall es acc,
    convertAll config getFieldName toISOString dateToString numberToString schema model w
      = Some es ->
    Kysely.convertConditions config getFieldName toISOString dateToString numberToString
      schema model w acc
    = Some (fst acc ++ groupOf false es, snd acc ++ groupOf true es).
Proof.
  induction w as [|c w IH]; intros es acc H; simpl in *.
  - injection H as <-. unfold groupOf. simpl. now rewrite !app_nil_r, <- surjective_pairing.
  - destruct (Kysely.convertCondition config getFieldName toISOString
                dateToString numberToString schema model c) as [[k e]|]; [|discriminate].
    destruct (convertAll config getFieldName toISOString dateToString numberToString schema
                model w) as [kes|]; [|discriminate].
    injection H as <-.
    rewrite !groupOf_cons.
    destruct k; simpl; rewrite (IH kes) by reflexivity; simpl;
      now rewrite <- app_assoc.
Qed.

Lemma convertConditions_fails schema model w :
  forall acc,
    convertAll config getFieldName toISOString dateToString numberToString schema model w
      = None ->
    Kysely.convertConditions config getFieldName toISOString dateToString numberToString
      schema model w acc = None.
Proof.
  induction w as [|c w IH]; intros acc H; simpl in *; [discriminate|].
  destruct (Kysely.convertCondition config getFieldName toISOString
              dateToString numberToString schema model c) as [[k e]|]; [|reflexivity].
  destruct (convertAll config getFieldName toISOString dateToString numberToString schema
              model w) as [kes|] eqn:Hw; [discriminate|].
  destruct k; now apply IH.
Qed.

(** A Where over fields of the model, none of them compared with an Invalid
    Date, compiles. *)
Lemma convertAll_total schema model fs w :
  Kysely.modelFields schema model = Some fs ->
  Forall (fun c => Where.field c = "id"
                   \/ (get (Where.field c) fs <> None
                       /\ forall ms, Where.value c = VDate ms ->
                                     validTime ms = true)) w ->
  exists es,
    convertAll config getFieldName toISOString dateToString numberToString
      schema model w
    = Some es.
Proof.
  intros Hfs Hall. induction Hall as [|c w Hc _ IH]; simpl.
  - now exists [].
  - destruct IH as [es Hes]. rewrite Hes.
    assert (Hv : exists v',
               Kysely.transformValueToDB config toISOString schema
                 (Where.value c) model (Where.field c) = Some v').
    { unfold Kysely.transformValueToDB.
      destruct (Where.field c =? "id") eqn:E; [eexists; reflexivity|].
      destruct Hc as [Hc | [Hc Hvalid]]; [rewrite Hc in E; discriminate|].
      rewrite Hfs.
      destruct (get (Where.field c) fs) as [f|]; [|contradiction].
      destruct (_ && _ && negb _); [eexists; reflexivity|].
      destruct (_ && _ && _); [|eexists; reflexivity].
      destruct (dbTypeEqb _ sqlite); [|eexists; reflexivity].
      destruct (Where.value c) as [| | | | |ms| |]; try (eexists; reflexivity).
      rewrite (Hvalid ms eq_refl). eexists. reflexivity. }
    destruct Hv as [v' Hv].
    unfold Kysely.convertCondition. rewrite Hv. eexists. reflexivity.
Qed.

Lemma wheres_applyJoins model join q :
  Query.wheres (Kysely.applyJoins model join q) = Query.wheres q.
Proof.
  destruct join as [j|]; [|reflexivity]. simpl.
  revert q. induction j as [|[jm ja] j IH]; intros q; simpl; [reflexivity|].
  now rewrite IH.
Qed.

Lemma wheres_findOneQuery schema model w join c :
  convertWhereClause schema model w = Some c ->
  exists st query,
    findOneQuery schema model w join = Some (st, query)
    /\ Query.wheres query
       = Query.wheres
           (Kysely.applyConditions c
              (Query.withSelectAll (Some model) (Query.selectFrom model))).
Proof.
  intros Hc. unfold findOneQuery, Kysely.findOneQuery.
  unfold convertWhereClause in Hc. rewrite Hc.
  eexists _, _. split; [reflexivity|].
  destruct join as [j|].
  - change (Query.wheres (Kysely.applyJoins model (Some j)
                            (Kysely.applyConditions c
                               (Query.withSelectAll (Some model)
                                  (Query.selectFrom model))))
            = Query.wheres
                (Kysely.applyConditions c
                   (Query.withSelectAll (Some model) (Query.selectFrom model)))).
    apply wheres_applyJoins.
  - apply wheres_applyJoins.
Qed.

(** C3.  The clauses with connector OR are compiled into a group of their
    own, apart from the other clauses; the query [findOne] issues carries the
    AND-group and the OR-group as two predicates that must both hold when
    both groups are non-empty, the one non-empty group alone otherwise, and
    no predicate at all for an empty or absent Where.  A row passes the
    filter exactly when every AND-clause holds and, if there are OR-clauses,
    one of them holds. *)
Theorem where_groups_conjoined :
  forall (schema : Schema) (model : string) (join : option JoinConfig),
    (exists st query,
        findOneQuery schema model None join = Some (st, query)
        /\ Query.wheres query = [])
    /\ forall (w : list Where.Clause) (es : list (Connector * Expr)),
        convertAll config getFieldName toISOString dateToString numberToString schema model w
          = Some es ->
        let ands := groupOf false es in
        let ors := groupOf true es in
        convertWhereClause schema model (Some w)
          = Some (Conditions.mkGroups (Kysely.nonEmpty ands)
                    (Kysely.nonEmpty ors))
        /\ exists st query,
            findOneQuery schema model (Some w) join = Some (st, query)
            /\ Query.wheres query
               = match ands, ors with
                 | [], [] => []
                 | _ :: _, [] => [EAnd ands]
                 | [], _ :: _ => [EOr ors]
                 | _ :: _, _ :: _ => [EAnd ands; EOr ors]
                 end
            /\ forall atom,
                passes atom query
                = forallb (evalExpr atom) ands
                  && match ors with
                     | [] => true
                     | _ :: _ => existsb (evalExpr atom) ors
                     end.
Proof.
  intros schema model join. split.
  - destruct (wheres_findOneQuery schema model None join
                (Conditions.mkGroups None None) eq_refl)
      as (st & query & Hq & Hw).
    exists st, query. split; [exact Hq|]. rewrite Hw. reflexivity.
  - intros w es Hes ands ors.
    assert (Hc : convertWhereClause schema model (Some w)
                 = Some (Conditions.mkGroups (Kysely.nonEmpty ands)
                           (Kysely.nonEmpty ors))).
    { unfold convertWhereClause, Kysely.convertWhereClause.
      now rewrite (convertConditions_groups schema model w es ([], []) Hes). }
    split; [exact Hc|].
    destruct (wheres_findOneQuery schema model (Some w) join _ Hc)
      as (st & query & Hq & Hw).
    exists st, query. split; [exact Hq|].
    assert (Hshape : Query.wheres query
                     = match ands, ors with
                       | [], [] => []
                       | _ :: _, [] => [EAnd ands]
                       | [], _ :: _ => [EOr ors]
                       | _ :: _, _ :: _ => [EAnd ands; EOr ors]
                       end).
    { rewrite Hw. unfold Kysely.applyConditions.
      destruct ands, ors; reflexivity. }
    split; [exact Hshape|].
    intros atom. unfold passes. rewrite Hshape.
    destruct ands as [|a ands'], ors as [|o ors']; simpl;
      rewrite ?andb_true_r; reflexivity.
Qed.

(** C10.  A clause whose operator is omitted compiles to the equality
    comparison [model.field = value] on the resolved field name, and a clause
    whose connector is omitted goes to the AND-group. *)
Theorem omitted_operator_is_equality :
  forall (schema : Schema) (model f : string) (v v' : JS.value)
         (op : option string) (k : option Connector),
    transformValueToDB schema v model f = Some v' ->
    convertCondition schema model (Where.mkWhere f v None k)
    = Some (match k with Some c => c | None => AND end,
            EBin (model ++ "." ++ getFieldName model f)%string "=" v')
    /\ (exists e, convertCondition schema model (Where.mkWhere f v op None)
                  = Some (AND, e))
    /\ convertWhereClause schema model (Some [Where.mkWhere f v None None])
       = Some (Conditions.mkGroups
                 (Some [EBin (model ++ "." ++ getFieldName model f)%string
                          "=" v'])
                 None).
Proof.
  intros schema model f v v' op k Hv.
  assert (H1 : forall k0, convertCondition schema model (Where.mkWhere f v None k0)
               = Some (match k0 with Some c => c | None => AND end,
                       EBin (model ++ "." ++ getFieldName model f)%string
                         "=" v')).
  { intros k0. now rewrite (convertCondition_value schema model f v None k0 v' Hv). }
  split; [apply H1|]. split.
  - eexists. now rewrite (convertCondition_value schema model f v op None v' Hv).
  - unfold convertWhereClause, Kysely.convertWhereClause. simpl.
    fold convertCondition. now rewrite (H1 None).
Qed.

(** C4.  How one clause is compiled, by operator: [in] and [not_in]
    (in any letter case) compare the field with the value, wrapped into a
    one-element array when it is not an array already; [contains],
    [starts_with] and [ends_with] compile to [like] with the wildcard [%] on
    both sides, after, and before the value; [eq], [ne], [gt], [gte], [lt]
    and [lte] compile to [=], [<>], [>], [>=], [<] and [<=]; any other
    operator is handed to the expression builder as it is.  The value is the
    one [transformValueToDB] returns for the clause; in a pattern it stands
    as the template literal prints it: a string as it is, a safe integer by
    its decimal digits, a larger number as the host prints it. *)
Theorem operators_compiled :
  forall (schema : Schema) (model f : string) (v v' : JS.value)
         (k : option Connector),
    transformValueToDB schema v model f = Some v' ->
    let col := getFieldName model f in
    let qualified := (model ++ "." ++ col)%string in
    let conn := match k with Some c => c | None => AND end in
    let compiled op :=
      convertCondition schema model (Where.mkWhere f v (Some op) k) in
    let text := toStr dateToString numberToString v' in
    let wrapped := if isArray v' then v' else VArr [v'] in
    (forall op, toLowerCase op = "in" ->
                compiled op = Some (conn, EBin col "in" wrapped))
    /\ (forall op, toLowerCase op = "not_in" ->
                   compiled op = Some (conn, EBin col "not in" wrapped))
    /\ compiled "contains"
       = Some (conn, EBin qualified "like" (VStr ("%" ++ text ++ "%")%string))
    /\ compiled "starts_with"
       = Some (conn, EBin qualified "like" (VStr (text ++ "%")%string))
    /\ compiled "ends_with"
       = Some (conn, EBin qualified "like" (VStr ("%" ++ text)%string))
    /\ compiled "eq" = Some (conn, EBin qualified "=" v')
    /\ compiled "ne" = Some (conn, EBin qualified "<>" v')
    /\ compiled "gt" = Some (conn, EBin qualified ">" v')
    /\ compiled "gte" = Some (conn, EBin qualified ">=" v')
    /\ compiled "lt" = Some (conn, EBin qualified "<" v')
    /\ compiled "lte" = Some (conn, EBin qualified "<=" v')
    /\ (forall op, recognizedOperator op = false ->
                   compiled op = Some (conn, EBin qualified op v'))
    /\ (forall s, v' = VStr s -> text = s)
    /\ (forall n, v' = VNum n ->
                  text = if safeInteger n then Z_to_string n
                         else numberToString n).
Proof.
  intros schema model f v v' k Hv col qualified conn compiled text wrapped.
  assert (Hc : forall op,
             compiled op
             = Some (conn, Kysely.whereExpr dateToString numberToString model col op v')).
  { intros op. unfold compiled.
    now rewrite (convertCondition_value schema model f v (Some op) k v' Hv). }
  repeat split; try (rewrite Hc; reflexivity).
  - intros op Hop. rewrite Hc. unfold Kysely.whereExpr. now rewrite Hop.
  - intros op Hop. rewrite Hc. unfold Kysely.whereExpr. now rewrite Hop.
  - intros op Hop. rewrite Hc. unfold recognizedOperator in Hop. simpl in Hop.
    repeat match type of Hop with
           | (_ || _)%bool = false =>
               apply orb_false_iff in Hop; destruct Hop as [? Hop]
           end.
    repeat match goal with
           | H : (_ || _)%bool = false |- _ =>
               apply orb_false_iff in H; destruct H
           end.
    unfold Kysely.whereExpr.
    repeat match goal with
           | H : (_ =? _) = false |- _ => rewrite H; clear H
           end.
    reflexivity.
  - intros s ->. reflexivity.
  - intros n ->. reflexivity.
Qed.

End WhereCompiler.

(** ** Pagination in [findMany] *)

Section Pagination.

Variable config : option Config.KyselyAdapterConfig.
Variable getFieldName : string -> string -> string.
Variable getDefaultModelName : string -> string.
Variable toISOString : Z -> string.
Variable dateToString numberToString : Z -> string.

Lemma orderBy_applyConditions c q :
  Query.orderBy (Kysely.applyConditions c q) = Query.orderBy q.
Proof.
  unfold Kysely.applyConditions.
  now destruct (Conditions.and c), (Conditions.or c).
Qed.

Lemma orderBy_applyJoins model join q :
  Query.orderBy (Kysely.applyJoins model join q) = Query.orderBy q.
Proof.
  destruct join as [j|]; [|reflexivity]. simpl.
  revert q. induction j as [|[jm ja] j IH]; intros q; simpl; [reflexivity|].
  now rewrite IH.
Qed.

Lemma orderBy_paginate_unsorted model limit offset q :
  Query.orderBy
    (Kysely.paginate config getFieldName model limit offset None q)
  = Query.orderBy q
    ++ (if Kysely.offsetGiven offset && Kysely.typeIs config mssql
        then [(getFieldName model "id", None)]
        else []).
Proof.
  unfold Kysely.paginate.
  destruct (Kysely.offsetGiven offset), (Kysely.typeIs config mssql); simpl;
    now rewrite ?app_nil_r.
Qed.

(** C7, as the code has it.  When [findMany] is given a non-zero offset and
    no [sortBy], the query it issues is ordered by the identifier's column
    on an [mssql] database (where [OFFSET ... FETCH] needs an ordering), and
    carries no ordering at all on the other database types. *)
Theorem offset_orders_by_id_on_mssql_only :
  forall (schema : Schema) (model : string) (w : option (list Where.Clause))
         (limit offset : option Z) (join : option JoinConfig)
         (c : Conditions.Groups),
    Kysely.convertWhereClause config getFieldName toISOString dateToString numberToString
      schema model w = Some c ->
    Kysely.offsetGiven offset = true ->
    exists st query,
      Kysely.findManyQuery config getFieldName getDefaultModelName
        toISOString dateToString numberToString schema model w limit offset None join
      = Some (st, query)
      /\ Query.orderBy query
         = if Kysely.typeIs config mssql
           then [(getFieldName model "id", None)]
           else [].
Proof.
  intros schema model w limit offset join c Hc Hoff.
  unfold Kysely.findManyQuery. rewrite Hc.
  eexists _, _. split; [reflexivity|].
  assert (H : Query.orderBy
                (Kysely.paginate config getFieldName model limit offset None
                   (Kysely.applyJoins model join
                      (Kysely.applyConditions c
                         (Query.withSelectAll (Some model)
                            (Query.selectFrom model)))))
              = if Kysely.typeIs config mssql
                then [(getFieldName model "id", None)]
                else []).
  { rewrite orderBy_paginate_unsorted, orderBy_applyJoins,
      orderBy_applyConditions, Hoff. reflexivity. }
  destruct join; exact H.
Qed.

End Pagination.

(** C7, as the specification words it, fails: on [sqlite] a [findMany] with
    offset 5 and no [sortBy] issues a query without any ordering. *)
Lemma offset_without_sort_unordered_on_sqlite :
  ~ offsetForcesIdOrdering
      (Some (Config.mkConfig (Some sqlite) None None))
      (fun _ field => field) (fun model => model)
      (fun _ => EmptyString) (fun _ => EmptyString) (fun _ => EmptyString)
      [] "user" None None (Some 5%Z) None.
Proof.
  intros H.
  destruct (H eq_refl _ _ eq_refl) as [dir Hin].
  exact Hin.
Qed.

(** ** Joined columns: aliases and their recognition *)

Lemma set_set_same {A : Type} k (v : A) o : set k v (set k v o) = set k v o.
Proof.
  induction o as [|[k' v'] o IH]; simpl.
  - now rewrite String.eqb_refl.
  - destruct (String.eqb k' k) eqn:E; simpl.
    + now rewrite String.eqb_refl.
    + now rewrite E, IH.
Qed.

Lemma existsb_eqb_In key (l : list string) :
  existsb (String.eqb key) l = true <-> In key l.
Proof.
  rewrite existsb_exists. split.
  - intros (x & Hx & E). apply String.eqb_eq in E. now subst.
  - intros H. exists key. split; [exact H | apply String.eqb_refl].
Qed.

Lemma split_nonempty sep s : split sep s <> [].
Proof.
  destruct s as [|c s]; simpl; [discriminate|].
  destruct (Ascii.eqb c sep); [discriminate|].
  destruct (split sep s); discriminate.
Qed.

Lemma joinWith_cons sep p q rest :
  joinWith sep (p :: q :: rest) = (p ++ sep ++ joinWith sep (q :: rest))%string.
Proof. reflexivity. Qed.

Lemma joinWith_split sep s :
  joinWith (String sep EmptyString) (split sep s) = s.
Proof.
  induction s as [|c s IH]; simpl; [reflexivity|].
  destruct (Ascii.eqb c sep) eqn:E.
  - apply Ascii.eqb_eq in E; subst c.
    destruct (split sep s) as [|q qs] eqn:Hs; [now apply split_nonempty in Hs|].
    rewrite joinWith_cons, IH. reflexivity.
  - destruct (split sep s) as [|p ps] eqn:Hs; [now apply split_nonempty in Hs|].
    destruct ps as [|p' ps'].
    + simpl in IH. simpl. now rewrite IH.
    + rewrite joinWith_cons in IH. rewrite joinWith_cons, <- IH. reflexivity.
Qed.

Lemma split_prefix sep (a b : string) :
  lacksChar sep a = true ->
  split sep (a ++ String sep b)%string = a :: split sep b.
Proof.
  induction a as [|c a IH]; simpl; intros H.
  - now rewrite Ascii.eqb_refl.
  - apply andb_true_iff in H. destruct H as [Hc Ha].
    apply negb_true_iff in Hc. rewrite Hc.
    now rewrite (IH Ha).
Qed.

Lemma parseJoinedKey_alias joinModel column :
  lacksChar "_" joinModel = true ->
  Kysely.parseJoinedKey (Kysely.joinedAlias joinModel column)
  = (joinModel, column).
Proof.
  intros H. unfold Kysely.parseJoinedKey, Kysely.joinedAlias.
  change (substringFrom 7 ("joined_" ++ joinModel ++ "_" ++ column)%string)
    with (joinModel ++ String "_" column)%string.
  rewrite (split_prefix "_" joinModel column H). simpl.
  now rewrite (joinWith_split "_" column).
Qed.

Section JoinAliases.

Variable config : option Config.KyselyAdapterConfig.
Variable getFieldName : string -> string -> string.
Variable getDefaultModelName : string -> string.
Variable toISOString : Z -> string.
Variable dateToString numberToString : Z -> string.

Let joinSelectsStep := Kysely.joinSelectsStep getDefaultModelName.

Lemma selections_of_step st e tbl :
  get (getDefaultModelName (fst e)) (Selects.schema st) = Some tbl ->
  Selects.allSelects (joinSelectsStep st e)
  = Selects.allSelects st
    ++ map (fun fa =>
              Selection.mkSelection (fst e)
                (Kysely.physicalName (fst fa) (snd fa))
                (Kysely.joinedAlias (fst e)
                   (Kysely.physicalName (fst fa) (snd fa))))
        (Kysely.withIdField (Table.fields tbl)).
Proof.
  intros H. unfold joinSelectsStep, Kysely.joinSelectsStep. rewrite H. simpl.
  now rewrite map_map.
Qed.

Lemma step_keeps_selections st e s :
  In s (Selects.allSelects st) -> In s (Selects.allSelects (joinSelectsStep st e)).
Proof.
  intros H. unfold joinSelectsStep, Kysely.joinSelectsStep.
  destruct (get (getDefaultModelName (fst e)) (Selects.schema st)); [|exact H].
  simpl. apply in_or_app. now left.
Qed.

Lemma fold_keeps_selections jc : forall st s,
  In s (Selects.allSelects st) ->
  In s (Selects.allSelects (fold_left joinSelectsStep jc st)).
Proof.
  induction jc as [|e jc IH]; intros st s H; simpl; [exact H|].
  apply IH. now apply step_keeps_selections.
Qed.

Lemma step_idFieldsAdded schema0 st e :
  idFieldsAdded schema0 (Selects.schema st) ->
  idFieldsAdded schema0 (Selects.schema (joinSelectsStep st e)).
Proof.
  intros HR. unfold joinSelectsStep, Kysely.joinSelectsStep.
  destruct (get (getDefaultModelName (fst e)) (Selects.schema st)) as [tbl|] eqn:Ht;
    [|exact HR].
  simpl. intros key.
  destruct (String.eqb (getDefaultModelName (fst e)) key) eqn:E.
  - apply String.eqb_eq in E. subst key. rewrite get_set_same. right.
    destruct (HR (getDefaultModelName (fst e))) as [Hsame | (tbl0 & H0 & H1)].
    + exists tbl. rewrite <- Hsame. now split.
    + exists tbl0. split; [exact H0|].
      rewrite Ht in H1. injection H1 as ->. simpl.
      unfold Kysely.withIdField. now rewrite set_set_same.
  - apply String.eqb_neq in E. rewrite get_set_other by congruence. apply HR.
Qed.

Lemma fold_covers schema0 jc : forall st,
  idFieldsAdded schema0 (Selects.schema st) ->
  forall jm ja tbl f a,
    In (jm, ja) jc ->
    get (getDefaultModelName jm) schema0 = Some tbl ->
    In (f, a) (Kysely.withIdField (Table.fields tbl)) ->
    In (Selection.mkSelection jm (Kysely.physicalName f a)
          (Kysely.joinedAlias jm (Kysely.physicalName f a)))
       (Selects.allSelects (fold_left joinSelectsStep jc st)).
Proof.
  induction jc as [|e jc IH]; intros st HR jm ja tbl f a Hin Ht Hf;
    [contradiction|].
  simpl. destruct Hin as [-> | Hin].
  - apply fold_keeps_selections.
    assert (Hfields : exists tbl',
               get (getDefaultModelName jm) (Selects.schema st) = Some tbl'
               /\ Kysely.withIdField (Table.fields tbl')
                  = Kysely.withIdField (Table.fields tbl)).
    { destruct (HR (getDefaultModelName jm)) as [Hsame | (tbl0 & H0 & H1)].
      - exists tbl. split; [congruence | reflexivity].
      - rewrite Ht in H0. injection H0 as <-.
        eexists. split; [exact H1|]. simpl.
        unfold Kysely.withIdField. now rewrite set_set_same. }
    destruct Hfields as (tbl' & Ht' & Hsame).
    rewrite (selections_of_step st (jm, ja) tbl' Ht'). rewrite Hsame.
    apply in_or_app. right.
    apply (in_map (fun fa =>
                     Selection.mkSelection jm
                       (Kysely.physicalName (fst fa) (snd fa))
                       (Kysely.joinedAlias jm
                          (Kysely.physicalName (fst fa) (snd fa))))
             _ (f, a) Hf).
  - apply (IH (joinSelectsStep st e) (step_idFieldsAdded schema0 st e HR)
             jm ja tbl f a Hin Ht Hf).
Qed.

Lemma fold_shapes jc : forall st,
  Forall aliasShaped (Selects.allSelects st) ->
  Selects.allSelectsStr st = map Selection.alias (Selects.allSelects st) ->
  let st' := fold_left joinSelectsStep jc st in
  Forall aliasShaped (Selects.allSelects st')
  /\ Selects.allSelectsStr st' = map Selection.alias (Selects.allSelects st').
Proof.
  induction jc as [|e jc IH]; intros st HF HS; simpl; [now split|].
  apply IH; unfold joinSelectsStep, Kysely.joinSelectsStep;
    destruct (get (getDefaultModelName (fst e)) (Selects.schema st));
    simpl; try assumption.
  - apply Forall_app. split; [exact HF|].
    apply Forall_forall. intros s Hs. apply in_map_iff in Hs.
    destruct Hs as (c & <- & _). reflexivity.
  - rewrite map_app, HS, !map_map. reflexivity.
Qed.

Lemma selections_applyConditions c q :
  Query.selections (Kysely.applyConditions c q) = Query.selections q.
Proof.
  unfold Kysely.applyConditions.
  now destruct (Conditions.and c), (Conditions.or c).
Qed.

Lemma selections_applyJoins model join q :
  Query.selections (Kysely.applyJoins model join q) = Query.selections q.
Proof.
  destruct join as [j|]; [|reflexivity]. simpl.
  revert q. induction j as [|[jm ja] j IH]; intros q; simpl; [reflexivity|].
  now rewrite IH.
Qed.

Lemma selections_paginate model limit offset sortBy q :
  Query.selections
    (Kysely.paginate config getFieldName model limit offset sortBy q)
  = Query.selections q.
Proof.
  unfold Kysely.paginate.
  destruct (Kysely.typeIs config mssql), (Kysely.offsetGiven offset),
    sortBy; reflexivity.
Qed.

(** The other side of the same merge conflict differs by one leading
    underscore in the alias. *)
Lemma underscore_side_alias joinModel column :
  Kysely.joinedAliasUnderscore joinModel column
  = ("_" ++ Kysely.joinedAlias joinModel column)%string.
Proof. reflexivity. Qed.

(** The selects of a joined query.  [findOne] and [findMany] request every
    field of every joined model the schema knows (with the [id] field they
    write into the schema), by its physical name, under the alias
    [joined_<model>_<field>]; the list of aliases handed to the
    post-processor is the list of the aliases requested; and the
    post-processor takes a column for a joined one exactly when its key is
    one of these aliases, reading the model (when its name has no
    underscore) and the field back from the key. *)
Theorem joined_columns_aliased :
  forall (schema : Schema) (jc : JoinConfig),
    let st := Kysely.joinSelects getDefaultModelName schema (Some jc) in
    Forall aliasShaped (Selects.allSelects st)
    /\ Selects.allSelectsStr st = map Selection.alias (Selects.allSelects st)
    /\ (forall jm ja tbl f a,
          In (jm, ja) jc ->
          get (getDefaultModelName jm) schema = Some tbl ->
          In (f, a) (Kysely.withIdField (Table.fields tbl)) ->
          In (Selection.mkSelection jm (Kysely.physicalName f a)
                ("joined_" ++ jm ++ "_" ++ Kysely.physicalName f a)%string)
             (Selects.allSelects st))
    /\ (forall model w c,
          Kysely.convertWhereClause config getFieldName toISOString
            dateToString numberToString schema model w = Some c ->
          exists query,
            Kysely.findOneQuery config getFieldName getDefaultModelName
              toISOString dateToString numberToString schema model w (Some jc)
            = Some (st, query)
            /\ Query.selections query = Selects.allSelects st)
    /\ (forall model w limit offset sortBy c,
          Kysely.convertWhereClause config getFieldName toISOString
            dateToString numberToString schema model w = Some c ->
          exists query,
            Kysely.findManyQuery config getFieldName getDefaultModelName
              toISOString dateToString numberToString schema model w limit offset sortBy
              (Some jc)
            = Some (st, query)
            /\ Query.selections query = Selects.allSelects st)
    /\ (forall main joined key v,
          (In key (Selects.allSelectsStr st) ->
           fst (Kysely.distributeColumn (Selects.allSelectsStr st)
                  (main, joined) (key, v)) = main)
          /\ (~ In key (Selects.allSelectsStr st) ->
              Kysely.distributeColumn (Selects.allSelectsStr st)
                (main, joined) (key, v) = (set key v main, joined)))
    /\ (forall main joined jm column v o,
          lacksChar "_" jm = true ->
          In (Kysely.joinedAlias jm column) (Selects.allSelectsStr st) ->
          get jm joined = Some (VObj o) ->
          Kysely.distributeColumn (Selects.allSelectsStr st) (main, joined)
            (Kysely.joinedAlias jm column, v)
          = (main, set jm (VObj (set column v o)) joined)).
Proof.
  intros schema jc st.
  destruct (fold_shapes jc (Selects.mkSelects schema [] [])
              (Forall_nil _) eq_refl) as [Hshape Hstr].
  split; [exact Hshape|]. split; [exact Hstr|].
  split; [|split; [|split; [|split]]].
  - intros jm ja tbl f a Hin Ht Hf.
    apply (fold_covers schema jc (Selects.mkSelects schema [] [])
             (fun key => or_introl eq_refl) jm ja tbl f a Hin Ht Hf).
  - intros model w c Hc. unfold Kysely.findOneQuery. rewrite Hc.
    eexists. split; [reflexivity|].
    change (Query.selections
              (Kysely.applyJoins model (Some jc)
                 (Kysely.applyConditions c
                    (Query.withSelectAll (Some model)
                       (Query.selectFrom model))))
            ++ Selects.allSelects st = Selects.allSelects st).
    now rewrite selections_applyJoins, selections_applyConditions.
  - intros model w limit offset sortBy c Hc.
    unfold Kysely.findManyQuery. rewrite Hc.
    eexists. split; [reflexivity|].
    change (Query.selections
              (Kysely.paginate config getFieldName model limit offset sortBy
                 (Kysely.applyJoins model (Some jc)
                    (Kysely.applyConditions c
                       (Query.withSelectAll (Some model)
                          (Query.selectFrom model)))))
            ++ Selects.allSelects st = Selects.allSelects st).
    now rewrite selections_paginate, selections_applyJoins,
      selections_applyConditions.
  - intros main joined key v. unfold Kysely.distributeColumn. split.
    + intros Hin. apply existsb_eqb_In in Hin. rewrite Hin.
      destruct (Kysely.parseJoinedKey key) as [jm fieldName].
      destruct (get jm joined) as [[]|]; reflexivity.
    + intros Hnin.
      destruct (existsb (String.eqb key) (Selects.allSelectsStr st)) eqn:E;
        [|reflexivity].
      apply existsb_eqb_In in E. contradiction.
  - intros main joined jm column v o Hjm Hin Hget.
    unfold Kysely.distributeColumn.
    apply existsb_eqb_In in Hin. rewrite Hin.
    rewrite (parseJoinedKey_alias jm column Hjm). now rewrite Hget.
Qed.

End JoinAliases.

(** ** Regrouping the rows of a joined query *)

Lemma fold_left_preserves {A B : Type} (P : A -> Prop) (f : A -> B -> A)
  (l : list B) :
  (forall a b, In b l -> P a -> P (f a b)) ->
  forall a, P a -> P (fold_left f l a).
Proof.
  induction l as [|b l IH]; intros Hstep a Ha; simpl; [exact Ha|].
  apply IH.
  - intros a' b' Hb'. apply Hstep. now right.
  - apply Hstep; [now left | exact Ha].
Qed.

Lemma updateAt_Forall {A : Type} (P : A -> Prop) (f : A -> A) i l :
  (forall x, P x -> P (f x)) -> Forall P l -> Forall P (Kysely.updateAt i f l).
Proof.
  intros Hf. revert i. induction l as [|x l IH]; intros i H; simpl.
  - destruct i; constructor.
  - inversion H as [|? ? Hx Hl]; subst.
    destruct i; constructor; auto.
Qed.

Lemma updateAt_map_fst {A B : Type} (f : A * B -> A * B) i l :
  (forall x, fst (f x) = fst x) ->
  map fst (Kysely.updateAt i f l) = map fst l.
Proof.
  intros Hf. revert i. induction l as [|x l IH]; intros i; simpl.
  - now destruct i.
  - destruct i; simpl; [now rewrite Hf | now rewrite IH].
Qed.

Lemma mapIndex_Some_In k m i :
  Kysely.mapIndex k m = Some i -> In k (map fst m).
Proof.
  revert i. induction m as [|[k' e] m IH]; intros i; simpl; [discriminate|].
  destruct (strictEq k' k) eqn:E.
  - intros _. left. now apply strictEq_true.
  - destruct (Kysely.mapIndex k m); [|discriminate].
    intros _. right. now apply (IH n).
Qed.


Lemma pairwiseDistinct_snoc l k :
  pairwiseDistinct l ->
  Forall (fun x => strictEq x k = false) l ->
  pairwiseDistinct (l ++ [k]).
Proof.
  induction l as [|x l IH]; simpl; intros Hd Hk.
  - split; [constructor | exact I].
  - destruct Hd as [Hx Hd]. inversion Hk as [|? ? Hxk Hlk]; subst.
    split.
    + apply Forall_app. split; [exact Hx|]. constructor; [exact Hxk | constructor].
    + now apply IH.
Qed.

Lemma NoDup_map_injective {A B : Type} (f : A -> B) l x y :
  NoDup (map f l) -> In x l -> In y l -> f x = f y -> x = y.
Proof.
  induction l as [|a l IH]; simpl; intros Hnd Hx Hy Hf; [contradiction|].
  inversion Hnd as [|? ? Hnotin Hnd']; subst.
  destruct Hx as [-> | Hx], Hy as [-> | Hy]; auto.
  - exfalso. apply Hnotin. rewrite Hf. now apply in_map.
  - exfalso. apply Hnotin. rewrite <- Hf. now apply in_map.
Qed.

Section JoinedResults.

Variable getDefaultModelName : string -> string.
Variable schema : Schema.
Variable joinConfig : JoinConfig.
Variable allSelectsStr : list string.

Let nameOf (e : string * Join.JoinAttr) : string :=
  getDefaultModelName (fst e).
Let joinedObjects := joinedObjectsOf joinConfig.
Let entryOk := entryOkFor getDefaultModelName schema joinConfig.

Lemma initJoinedModelFields_objects :
  joinedObjects (Kysely.initJoinedModelFields joinConfig).
Proof.
  unfold joinedObjects, joinedObjectsOf, Kysely.initJoinedModelFields.
  assert (H : forall (jc : JoinConfig) acc jm,
             (In jm (map fst jc) \/ exists o, get jm acc = Some (VObj o)) ->
             exists o,
               get jm (fold_left
                         (fun acc (e : string * Join.JoinAttr) =>
                            set (fst e) (VObj []) acc) jc acc)
               = Some (VObj o)).
  { induction jc as [|e jc IH]; intros acc jm H; simpl.
    - destruct H as [[]|H]; exact H.
    - apply IH. destruct H as [[<- | H] | H].
      + right. exists []. apply get_set_same.
      + now left.
      + right. destruct (String.eqb (fst e) jm) eqn:E.
        * apply String.eqb_eq in E. subst. exists []. apply get_set_same.
        * apply String.eqb_neq in E. rewrite get_set_other by congruence.
          exact H. }
  intros jm ja Hin. apply H. left.
  change jm with (fst (jm, ja)). now apply in_map.
Qed.

Lemma distributeColumn_objects acc kv :
  joinedObjects (snd acc) ->
  joinedObjects (snd (Kysely.distributeColumn allSelectsStr acc kv)).
Proof.
  destruct acc as [main joined], kv as [key value].
  unfold Kysely.distributeColumn. intros H.
  destruct (existsb (String.eqb key) allSelectsStr); [|exact H].
  destruct (Kysely.parseJoinedKey key) as [joinModel fieldName].
  destruct (get joinModel joined) as [[| | | | | | |o]|] eqn:Hg; try exact H.
  simpl. intros jm ja Hin.
  destruct (String.eqb joinModel jm) eqn:E.
  - apply String.eqb_eq in E. subst. eexists. apply get_set_same.
  - apply String.eqb_neq in E. rewrite get_set_other by congruence.
    apply (H jm ja Hin).
Qed.

Lemma distributeColumns_objects row :
  joinedObjects (snd (Kysely.distributeColumns joinConfig allSelectsStr row)).
Proof.
  unfold Kysely.distributeColumns.
  apply (fold_left_preserves (fun acc => joinedObjects (snd acc))).
  - intros acc kv _. apply distributeColumn_objects.
  - apply initJoinedModelFields_objects.
Qed.

(** Only the slot of the joined model at hand is written. *)
Lemma addJoinedRecord_other joined entry e k :
  k <> nameOf e ->
  get k (Kysely.addJoinedRecord getDefaultModelName schema joined entry e)
  = get k entry.
Proof.
  intros Hk. destruct e as [jm ja]. unfold Kysely.addJoinedRecord.
  unfold nameOf in Hk. simpl in Hk.
  destruct (Kysely.isUnique schema (getDefaultModelName jm) ja).
  - now apply get_set_other.
  - destruct (get (getDefaultModelName jm) entry) as [[| | | | | |items|]|];
      try reflexivity.
    destruct (truthy (Kysely.idOf (prop jm joined))); [|reflexivity].
    destruct (existsb _ items); [reflexivity|].
    now apply get_set_other.
Qed.

Lemma initEntry_other k (jc : JoinConfig) :
  ~ In k (map nameOf jc) ->
  forall entry,
    get k (Kysely.initEntry getDefaultModelName schema jc entry) = get k entry.
Proof.
  unfold Kysely.initEntry.
  induction jc as [|[jm ja] jc IH]; intros Hk entry; simpl; [reflexivity|].
  assert (Hrest : ~ In k (map nameOf jc)) by (intros H; apply Hk; now right).
  assert (Hhead : k <> getDefaultModelName jm)
    by (intros ->; apply Hk; now left).
  rewrite (IH Hrest).
  destruct (Kysely.modelFields schema (getDefaultModelName jm)); [|reflexivity].
  now apply get_set_other.
Qed.

Hypothesis distinctModels : NoDup (map nameOf joinConfig).

Lemma initEntry_slot main jm ja :
  In (jm, ja) joinConfig ->
  Kysely.modelFields schema (getDefaultModelName jm) <> None ->
  get (getDefaultModelName jm)
    (Kysely.initEntry getDefaultModelName schema joinConfig main)
  = Some (if Kysely.isUnique schema (getDefaultModelName jm) ja
          then VNull else VArr []).
Proof.
  revert main.
  generalize distinctModels. generalize joinConfig as jc.
  induction jc as [|[jm' ja'] jc IH]; intros Hnd main Hin Hf; [contradiction|].
  inversion Hnd as [|? ? Hnotin Hnd']; subst.
  destruct Hin as [[= -> ->] | Hin].
  - change (get (getDefaultModelName jm)
              (Kysely.initEntry getDefaultModelName schema jc
                 (match Kysely.modelFields schema (getDefaultModelName jm) with
                  | None => main
                  | Some _ =>
                      set (getDefaultModelName jm)
                        (if Kysely.isUnique schema (getDefaultModelName jm) ja
                         then VNull else VArr []) main
                  end))
            = Some (if Kysely.isUnique schema (getDefaultModelName jm) ja
                    then VNull else VArr [])).
    rewrite (initEntry_other (getDefaultModelName jm) jc Hnotin).
    destruct (Kysely.modelFields schema (getDefaultModelName jm));
      [|contradiction].
    apply get_set_same.
  - change (get (getDefaultModelName jm)
              (Kysely.initEntry getDefaultModelName schema jc
                 (match Kysely.modelFields schema (getDefaultModelName jm') with
                  | None => main
                  | Some _ =>
                      set (getDefaultModelName jm')
                        (if Kysely.isUnique schema (getDefaultModelName jm') ja'
                         then VNull else VArr []) main
                  end))
            = Some (if Kysely.isUnique schema (getDefaultModelName jm) ja
                    then VNull else VArr [])).
    now apply IH.
Qed.

Lemma initEntry_ok main :
  entryOk (Kysely.initEntry getDefaultModelName schema joinConfig main).
Proof.
  intros jm ja Hin Hf. rewrite (initEntry_slot main jm ja Hin Hf).
  unfold slotOk.
  destruct (Kysely.isUnique schema (getDefaultModelName jm) ja).
  - now left.
  - exists []. repeat split; constructor.
Qed.

Lemma addJoinedRecord_ok joined entry e :
  joinedObjects joined ->
  In e joinConfig ->
  entryOk entry ->
  entryOk (Kysely.addJoinedRecord getDefaultModelName schema joined entry e).
Proof.
  intros Hobj He Hok jm ja Hin Hf.
  destruct (String.eqb (getDefaultModelName jm) (nameOf e)) eqn:E.
  - apply String.eqb_eq in E.
    assert (Heq : (jm, ja) = e).
    { apply (NoDup_map_injective nameOf joinConfig); auto. }
    subst e. specialize (Hok jm ja Hin Hf).
    destruct (Hobj jm ja Hin) as [o Ho].
    assert (Hjo : prop jm joined = VObj o) by (unfold prop; now rewrite Ho).
    unfold Kysely.addJoinedRecord. rewrite Hjo. unfold slotOk in *.
    destruct (Kysely.isUnique schema (getDefaultModelName jm) ja).
    + right. exists o. apply get_set_same.
    + destruct Hok as (items & Hitems & Hall & Hdist).
      rewrite Hitems.
      destruct (truthy (Kysely.idOf (VObj o))) eqn:Hid;
        [|exists items; now repeat split].
      destruct (existsb
                  (fun item =>
                     strictEq (Kysely.idOf item) (Kysely.idOf (VObj o)))
                  items) eqn:Hex;
        [exists items; now repeat split|].
      exists (items ++ [VObj o]). split; [apply get_set_same|]. split.
      * apply Forall_app. split; [exact Hall|].
        constructor; [|constructor]. exists o. split; [reflexivity|].
        exact Hid.
      * rewrite map_app. apply pairwiseDistinct_snoc; [exact Hdist|].
        apply Forall_forall. intros x Hx. apply in_map_iff in Hx.
        destruct Hx as (item & <- & Hitem).
        destruct (strictEq (Kysely.idOf item) (Kysely.idOf (VObj o))) eqn:Hs;
          [|reflexivity].
        assert (Htrue : existsb
                          (fun item0 =>
                             strictEq (Kysely.idOf item0)
                               (Kysely.idOf (VObj o))) items = true).
        { apply existsb_exists. now exists item. }
        rewrite Htrue in Hex. discriminate.
  - apply String.eqb_neq in E.
    rewrite addJoinedRecord_other by exact E. now apply Hok.
Qed.

Lemma addJoinedRecords_ok joined entry :
  joinedObjects joined ->
  entryOk entry ->
  entryOk (fold_left (Kysely.addJoinedRecord getDefaultModelName schema joined)
             joinConfig entry).
Proof.
  intros Hobj.
  apply (fold_left_preserves entryOk).
  intros a e He Ha. now apply addJoinedRecord_ok.
Qed.

Let processRow :=
  Kysely.processRow getDefaultModelName schema joinConfig allSelectsStr.
Let mainId := mainIdOf joinConfig allSelectsStr.

Lemma processRow_keys groups row :
  map fst (processRow groups row)
  = if truthy (mainId row) then
      match Kysely.mapIndex (mainId row) groups with
      | Some _ => map fst groups
      | None => map fst groups ++ [mainId row]
      end
    else map fst groups.
Proof.
  unfold processRow, Kysely.processRow, mainId, mainIdOf.
  destruct (Kysely.distributeColumns joinConfig allSelectsStr row)
    as [main joined].
  simpl fst.
  destruct (truthy (prop "id" main)); simpl; [|reflexivity].
  destruct (Kysely.mapIndex (prop "id" main) groups).
  - now apply updateAt_map_fst.
  - rewrite updateAt_map_fst by reflexivity. rewrite map_app. reflexivity.
Qed.



Lemma processRow_records (Q : JS.value * obj -> Prop) groups row :
  (forall main,
      main = fst (Kysely.distributeColumns joinConfig allSelectsStr row) ->
      Q (prop "id" main,
         Kysely.initEntry getDefaultModelName schema joinConfig main)) ->
  (forall joined k entry e,
      joinedObjects joined -> In e joinConfig -> Q (k, entry) ->
      Q (k, Kysely.addJoinedRecord getDefaultModelName schema joined entry e)) ->
  Forall Q groups ->
  Forall Q (processRow groups row).
Proof.
  intros Hinit Hadd Hall.
  unfold processRow, Kysely.processRow.
  pose proof (distributeColumns_objects row) as Hobj.
  destruct (Kysely.distributeColumns joinConfig allSelectsStr row)
    as [main joined].
  simpl in Hobj, Hinit.
  destruct (negb (truthy (prop "id" main))); [exact Hall|].
  assert (Hstep : forall ke : JS.value * obj,
             Q ke ->
             Q (fst ke,
                fold_left
                  (Kysely.addJoinedRecord getDefaultModelName schema joined)
                  joinConfig (snd ke))).
  { intros [k entry] Hke. simpl.
    apply (fold_left_preserves (fun entry' => Q (k, entry'))); [|exact Hke].
    intros a e He Ha. now apply Hadd. }
  destruct (Kysely.mapIndex (prop "id" main) groups).
  - now apply updateAt_Forall.
  - apply updateAt_Forall; [exact Hstep|].
    apply Forall_app. split; [exact Hall|].
    constructor; [|constructor]. now apply Hinit.
Qed.

Lemma groupRows_records (Q : JS.value * obj -> Prop) rows :
  (forall main,
      Q (prop "id" main,
         Kysely.initEntry getDefaultModelName schema joinConfig main)) ->
  (forall joined k entry e,
      joinedObjects joined -> In e joinConfig -> Q (k, entry) ->
      Q (k, Kysely.addJoinedRecord getDefaultModelName schema joined entry e)) ->
  Forall Q
    (Kysely.groupRows getDefaultModelName schema joinConfig allSelectsStr rows).
Proof.
  intros Hinit Hadd. unfold Kysely.groupRows.
  apply (fold_left_preserves (Forall Q)); [|constructor].
  intros groups row _ Hall.
  apply (processRow_records Q groups row); auto.
Qed.

End JoinedResults.

(** ** The adapter factory's pipelines *)

Lemma keys_set_NoDup {A : Type} k (v : A) o :
  NoDup (keys o) -> NoDup (keys (set k v o)).
Proof.
  induction o as [|[k' v'] o IH]; simpl; intros H.
  - constructor; [intros [] | constructor].
  - inversion H as [|? ? Hnotin Hnd]; subst.
    destruct (String.eqb k' k) eqn:E; simpl.
    + apply String.eqb_eq in E. subst. now constructor.
    + constructor; [|now apply IH].
      intros Hin. apply keys_set in Hin. destruct Hin as [-> | Hin].
      * now rewrite String.eqb_refl in E.
      * contradiction.
Qed.

Lemma In_keys_get {A : Type} k (o : list (string * A)) :
  In k (keys o) -> exists v, get k o = Some v.
Proof.
  intros H. destruct (get k o) as [v|] eqn:E; [now exists v|].
  apply get_None_iff in E. contradiction.
Qed.

Lemma NoDup_keys_get {A : Type} k (v : A) o :
  NoDup (keys o) -> In (k, v) o -> get k o = Some v.
Proof.
  induction o as [|[k' v'] o IH]; simpl; intros Hnd Hin; [contradiction|].
  inversion Hnd as [|? ? Hnotin Hnd']; subst.
  destruct Hin as [[= -> ->] | Hin].
  - now rewrite String.eqb_refl.
  - destruct (String.eqb k' k) eqn:E; [|now apply IH].
    apply String.eqb_eq in E. subst. exfalso. apply Hnotin.
    change k with (fst (k, v)). now apply in_map.
Qed.

Section FactoryPipelines.

Variable toISOString : Z -> string.
Variable parseDate : string -> option Z.
Variable stringify : JS.value -> string.
Variable parseJSON : string -> option JS.value.
Variable defaultGenerateId : string -> option nat -> string.
Variable cfg : AdapterFactory.AdapterConfig.

Import AdapterFactory.

Arguments allFields : simpl never.

Let transformInputFrom := transformInputFrom toISOString stringify cfg.
Let inputValue := inputValue toISOString stringify cfg.
Let outputValue := outputValue parseDate parseJSON cfg.
Let transformOutput := transformOutput parseDate parseJSON cfg.
Let createPayload :=
  createPayload toISOString stringify defaultGenerateId cfg.
Let create :=
  create toISOString parseDate stringify parseJSON defaultGenerateId cfg.
Let findOne := findOne parseDate parseJSON cfg.

Lemma transformInputFrom_cons m g w data acc :
  transformInputFrom m ((g, w) :: data) acc
  = match get g (allFields m) with
    | None => Err (SchemaError g)
    | Some fd =>
        transformInputFrom m data
          (set (transportKey cfg g fd) (inputValue m g fd w) acc)
    end.
Proof. reflexivity. Qed.

Lemma transformInputFrom_total m data : forall acc,
  knownFields m data ->
  exists payload, transformInputFrom m data acc = Ok payload.
Proof.
  induction data as [|[g w] data IH]; intros acc Hk.
  - now exists acc.
  - rewrite transformInputFrom_cons.
    destruct (get g (allFields m)) as [gd|] eqn:Hg.
    + apply IH. intros g' Hg'. apply Hk. now right.
    + exfalso. apply (Hk g); [now left | exact Hg].
Qed.

Lemma transformInputFrom_untouched m key data : forall acc payload,
  (forall g gd, In g (keys data) -> get g (allFields m) = Some gd ->
                transportKey cfg g gd <> key) ->
  transformInputFrom m data acc = Ok payload ->
  get key payload = get key acc.
Proof.
  induction data as [|[g w] data IH]; intros acc payload Hfree H.
  - now injection H as <-.
  - rewrite transformInputFrom_cons in H.
    destruct (get g (allFields m)) as [gd|] eqn:Hg; [|discriminate].
    rewrite (IH _ _ (fun g' gd' Hin => Hfree g' gd' (or_intror Hin)) H).
    apply get_set_other.
    intros Heq. apply (Hfree g gd); [now left | exact Hg | now symmetry].
Qed.

Lemma transformInputFrom_written m f fd v data : forall acc payload,
  NoDup (keys data) ->
  In (f, v) data ->
  get f (allFields m) = Some fd ->
  transportKeyFree cfg m data f (transportKey cfg f fd) ->
  transformInputFrom m data acc = Ok payload ->
  get (transportKey cfg f fd) payload = Some (inputValue m f fd v).
Proof.
  induction data as [|[g w] data IH]; intros acc payload Hnd Hin Hf Hfree H;
    [contradiction|].
  rewrite transformInputFrom_cons in H.
  simpl in Hnd. inversion Hnd as [|? ? Hnotin Hnd']; subst.
  destruct (get g (allFields m)) as [gd|] eqn:Hg; [|discriminate].
  destruct Hin as [Heq | Hin].
  - injection Heq as -> ->.
    rewrite Hf in Hg. injection Hg as <-.
    assert (Hrest : forall g' gd',
               In g' (keys data) -> get g' (allFields m) = Some gd' ->
               transportKey cfg g' gd' <> transportKey cfg f fd).
    { intros g' gd' Hin' Hg' Heq.
      assert (g' = f)
        by (apply (Hfree g' gd'); [now right | exact Hg' | exact Heq]).
      subst g'. contradiction. }
    rewrite (transformInputFrom_untouched m (transportKey cfg f fd) data _
               payload Hrest H).
    apply get_set_same.
  - apply (IH (set (transportKey cfg g gd) (inputValue m g gd w) acc) payload
             Hnd' Hin Hf); [|exact H].
    intros g' gd' Hin'. apply Hfree. now right.
Qed.

Lemma transformOutput_fold_keys m row select l : forall acc k,
  In k (keys
          (fold_left
             (fun acc (e : string * FieldDef) =>
                let (field, fd) := e in
                if selected select field
                then set (outputKey cfg field) (outputValue m field fd row) acc
                else acc) l acc))
  <-> In k (keys acc)
      \/ exists f fd, In (f, fd) l /\ selected select f = true
                      /\ k = outputKey cfg f.
Proof.
  induction l as [|[g gd] l IH]; intros acc k; simpl.
  - split; [now left|]. intros [H | (f & fd & [] & _)]. exact H.
  - rewrite IH. destruct (selected select g) eqn:Hs.
    + rewrite keys_set. split.
      * intros [[-> | H] | (f & fd & Hin & Hsel & Hk)].
        -- right. exists g, gd. auto.
        -- now left.
        -- right. exists f, fd. auto.
      * intros [H | (f & fd & [[= -> ->] | Hin] & Hsel & Hk)].
        -- left. now right.
        -- left. now left.
        -- right. exists f, fd. auto.
    + split.
      * intros [H | (f & fd & Hin & Hsel & Hk)]; [now left|].
        right. exists f, fd. auto.
      * intros [H | (f & fd & [[= -> ->] | Hin] & Hsel & Hk)].
        -- now left.
        -- congruence.
        -- right. exists f, fd. auto.
Qed.

Lemma transformOutput_keys m row select k :
  In k (keys (transformOutput m row select))
  <-> exists f fd, In (f, fd) (allFields m) /\ selected select f = true
                   /\ k = outputKey cfg f.
Proof.
  etransitivity.
  - apply (transformOutput_fold_keys m row select (allFields m) [] k).
  - simpl. tauto.
Qed.

Lemma transformOutput_NoDup m row select :
  NoDup (keys (transformOutput m row select)).
Proof.
  unfold transformOutput, AdapterFactory.transformOutput.
  apply (fold_left_preserves (fun acc : obj => NoDup (keys acc))).
  - intros acc [g gd] _ H. destruct (selected select g); [|exact H].
    now apply keys_set_NoDup.
  - constructor.
Qed.

Lemma transformOutput_fold_get m row select f fd l : forall acc,
  (forall g gd, In (g, gd) l -> outputKey cfg g = outputKey cfg f ->
                (g, gd) = (f, fd)) ->
  get (outputKey cfg f)
    (fold_left
       (fun acc (e : string * FieldDef) =>
          let (field, fd) := e in
          if selected select field
          then set (outputKey cfg field) (outputValue m field fd row) acc
          else acc) l acc)
  = if selected select f && existsb (fun e => fst e =? f) l
    then Some (outputValue m f fd row)
    else get (outputKey cfg f) acc.
Proof.
  induction l as [|[g gd] l IH]; intros acc Hown; simpl.
  - now rewrite andb_false_r.
  - rewrite IH by (intros g' gd' Hin; apply Hown; now right).
    destruct (String.eqb (outputKey cfg g) (outputKey cfg f)) eqn:E.
    + apply String.eqb_eq in E.
      assert (Heq : (g, gd) = (f, fd)) by (apply Hown; [now left | exact E]).
      injection Heq as -> ->. rewrite String.eqb_refl. simpl.
      destruct (selected select f); simpl; [|reflexivity].
      rewrite get_set_same. now destruct (existsb _ l).
    + apply String.eqb_neq in E.
      assert (Hgf : (g =? f) = false).
      { apply String.eqb_neq. intros ->. now apply E. }
      rewrite Hgf. simpl.
      destruct (selected select g); [|reflexivity].
      rewrite get_set_other by congruence. reflexivity.
Qed.

Lemma transformOutput_get m row select f fd :
  In (f, fd) (allFields m) ->
  outputKeyOwn cfg m f fd ->
  get (outputKey cfg f) (transformOutput m row select)
  = if selected select f then Some (outputValue m f fd row) else None.
Proof.
  intros Hin Hown.
  assert (Hex : existsb (fun e : string * FieldDef => fst e =? f) (allFields m)
                = true).
  { apply existsb_exists. exists (f, fd). split; [exact Hin|].
    apply String.eqb_refl. }
  etransitivity.
  - apply (transformOutput_fold_get m row select f fd (allFields m) [] Hown).
  - rewrite Hex, andb_true_r. reflexivity.
Qed.

Lemma identifier_field m : get identifier (allFields m) = Some identifierField.
Proof. reflexivity. Qed.

Lemma identifier_listed m : In (identifier, identifierField) (allFields m).
Proof. now left. Qed.

Lemma In_set_other (k k' : string) (v v' : JS.value) (o : obj) :
  k' <> k -> In (k', v') o -> In (k', v') (set k v o).
Proof.
  intros Hne. induction o as [|[k0 v0] o IH]; simpl; [contradiction|].
  intros [[= -> ->] | Hin].
  - destruct (String.eqb k' k) eqn:E; [|now left].
    apply String.eqb_eq in E. contradiction.
  - destruct (String.eqb k0 k); right; [exact Hin | now apply IH].
Qed.

Lemma create_from_row registry backend model m data select payload row :
  findModel registry model = Ok m ->
  createPayload m data = Ok payload ->
  insert backend (resolveModelName cfg m) payload = Ok row ->
  create registry backend model data select
  = Ok (transformOutput m row select).
Proof.
  intros Hm Hp Hi. unfold create, AdapterFactory.create, bind.
  rewrite Hm. fold createPayload. rewrite Hp, Hi. reflexivity.
Qed.

Lemma create_returns registry backend model m data select r :
  findModel registry model = Ok m ->
  create registry backend model data select = Ok r ->
  exists row, r = transformOutput m row select.
Proof.
  intros Hm. unfold create, AdapterFactory.create, bind. rewrite Hm.
  destruct (AdapterFactory.createPayload toISOString stringify
              defaultGenerateId cfg m data) as [payload|]; [|discriminate].
  destruct (insert backend (resolveModelName cfg m) payload) as [row|];
    [|discriminate].
  intros [= <-]. now exists row.
Qed.

Lemma findOne_from_row registry backend model m w w' select row :
  findModel registry model = Ok m ->
  resolveWhere m w = Ok w' ->
  selectOne backend (resolveModelName cfg m) w' = Ok (Some row) ->
  findOne registry backend model w select
  = Ok (Some (transformOutput m row select)).
Proof.
  intros Hm Hw Hs. unfold findOne, AdapterFactory.findOne, bind.
  rewrite Hm, Hw, Hs. reflexivity.
Qed.

Lemma findOne_returns registry backend model m w select r :
  findModel registry model = Ok m ->
  findOne registry backend model w select = Ok (Some r) ->
  exists row, r = transformOutput m row select.
Proof.
  intros Hm. unfold findOne, AdapterFactory.findOne, bind. rewrite Hm.
  destruct (resolveWhere m w) as [w'|]; [|discriminate].
  destruct (selectOne backend (resolveModelName cfg m) w') as [[row|]|];
    try discriminate.
  intros [= <-]. now exists row.
Qed.

(** The built-in coercions leave a string-typed field, and so the
    identifier, as it is, whatever the capability flags. *)
Lemma identifier_coercions_identity (v : JS.value) :
  coerceInput toISOString stringify cfg (semanticType identifierField) v = v
  /\ coerceOutput parseDate parseJSON cfg (semanticType identifierField) v = v.
Proof. split; reflexivity. Qed.

(** C6, as amended.  With [select: [f1, f2]] on fields of the model, the
    record that [create] or [findOne] returns has exactly the keys of [f1]
    and [f2], as the output transform names them, and no other key; the
    whole-record default-fill adds none.  Without an output key-mapping hook
    these keys are [f1] and [f2] themselves. *)
Theorem select_keeps_exactly_the_selected :
  forall (m : Model) (f1 f2 : string),
    In f1 (keys (allFields m)) ->
    In f2 (keys (allFields m)) ->
    let select := Some [f1; f2] in
    let exact (r : obj) :=
      NoDup (keys r)
      /\ forall k, In k (keys r)
                   <-> k = outputKey cfg f1 \/ k = outputKey cfg f2 in
    (forall row, exact (transformOutput m row select))
    /\ (forall registry backend model data r,
          findModel registry model = Ok m ->
          create registry backend model data select = Ok r ->
          exact r)
    /\ (forall registry backend model w r,
          findModel registry model = Ok m ->
          findOne registry backend model w select = Ok (Some r) ->
          exact r)
    /\ (mapKeysTransformOutput cfg = None ->
        outputKey cfg f1 = f1 /\ outputKey cfg f2 = f2).
Proof.
  intros m f1 f2 H1 H2 select exact.
  assert (Hrow : forall row, exact (transformOutput m row select)).
  { intros row. split; [apply transformOutput_NoDup|].
    intros k. rewrite transformOutput_keys. split.
    - intros (f & fd & _ & Hsel & ->). simpl in Hsel.
      rewrite orb_false_r in Hsel. apply orb_true_iff in Hsel.
      destruct Hsel as [E | E]; apply String.eqb_eq in E; subst; auto.
    - apply in_map_iff in H1. destruct H1 as ([g1 fd1] & E1 & Hin1).
      apply in_map_iff in H2. destruct H2 as ([g2 fd2] & E2 & Hin2).
      simpl in E1, E2. subst g1 g2.
      intros [-> | ->].
      + exists f1, fd1. repeat split; [exact Hin1|].
        simpl. now rewrite String.eqb_refl.
      + exists f2, fd2. repeat split; [exact Hin2|].
        simpl. now rewrite String.eqb_refl, orb_true_r. }
  split; [exact Hrow|]. split; [|split].
  - intros registry backend model data r Hm Hr.
    destruct (create_returns registry backend model m data select r Hm Hr)
      as [row ->]. apply Hrow.
  - intros registry backend model w r Hm Hr.
    destruct (findOne_returns registry backend model m w select r Hm Hr)
      as [row ->]. apply Hrow.
  - intros Hnone. unfold outputKey. now rewrite Hnone.
Qed.

Lemma keys_applyIdPolicy m data g :
  In g (keys (applyIdPolicy defaultGenerateId cfg m data)) ->
  g = identifier \/ In g (keys data).
Proof.
  unfold applyIdPolicy. destruct (disableIdGeneration cfg); [now right|].
  intros H. now apply keys_set in H.
Qed.

Lemma knownFields_applyIdPolicy m data :
  knownFields m data ->
  knownFields m (applyIdPolicy defaultGenerateId cfg m data).
Proof.
  intros Hk g Hg. apply keys_applyIdPolicy in Hg. destruct Hg as [-> | Hg].
  - rewrite identifier_field. discriminate.
  - now apply Hk.
Qed.

Lemma NoDup_applyIdPolicy m data :
  NoDup (keys data) ->
  NoDup (keys (applyIdPolicy defaultGenerateId cfg m data)).
Proof.
  intros H. unfold applyIdPolicy.
  destruct (disableIdGeneration cfg); [exact H | now apply keys_set_NoDup].
Qed.

Lemma createPayload_written m data f fd v :
  NoDup (keys data) ->
  knownFields m data ->
  In (f, v) (applyIdPolicy defaultGenerateId cfg m data) ->
  get f (allFields m) = Some fd ->
  transportKeyFree cfg m (applyIdPolicy defaultGenerateId cfg m data) f
    (transportKey cfg f fd) ->
  exists payload,
    createPayload m data = Ok payload
    /\ get (transportKey cfg f fd) payload = Some (inputValue m f fd v).
Proof.
  intros Hnd Hk Hin Hf Hfree.
  destruct (transformInputFrom_total m
              (applyIdPolicy defaultGenerateId cfg m data) []
              (knownFields_applyIdPolicy m data Hk)) as [payload Hp].
  exists payload. split; [exact Hp|].
  apply (transformInputFrom_written m f fd v
           (applyIdPolicy defaultGenerateId cfg m data) [] payload
           (NoDup_applyIdPolicy m data Hnd) Hin Hf Hfree Hp).
Qed.

Lemma outputValue_read m f fd row raw v :
  get (sourceKey cfg f fd) row = Some raw ->
  coerceOutput parseDate parseJSON cfg (semanticType fd) raw = v ->
  outputLeftAsIs cfg m f v ->
  outputValue m f fd row = v.
Proof.
  intros Hrow Hco Hhook. unfold outputValue, AdapterFactory.outputValue.
  rewrite Hrow, Hco. unfold outputLeftAsIs in Hhook.
  now destruct (customTransformOutput cfg).
Qed.

Lemma inputValue_builtin m f fd v :
  inputLeftToBuiltin cfg m f v ->
  inputValue m f fd v = coerceInput toISOString stringify cfg (semanticType fd) v.
Proof.
  intros H. unfold inputValue, AdapterFactory.inputValue.
  unfold inputLeftToBuiltin in H.
  destruct (customTransformInput cfg); [now rewrite H | reflexivity].
Qed.

(** The Kysely adapter asks the factory for the boolean coercion on
    [sqlite], [mssql], [mysql] and when no database type is configured. *)
Lemma kysely_supportsBooleans (config : option Config.KyselyAdapterConfig) :
  supportsBooleans (kyselyAdapterOptions config) = false
  <-> Kysely.configType config <> Some postgres.
Proof.
  unfold kyselyAdapterOptions. simpl.
  destruct (Kysely.configType config) as [[]|]; simpl; split;
    congruence.
Qed.

(** C1, as amended.  On an adapter configured with
    [supportsBooleans = false], a create call whose data gives a
    boolean-typed field the value [true] hands [1] to the backend driver
    under the field's transport key, and [false] is handed over as [0]; a
    backend row that carries this number comes back from [create], and from
    [findOne], with the field as the boolean it was.  The field is one the
    custom hooks leave to the built-in pipeline, one the select projection
    keeps, and one that shares its transport key and its output key with no
    other field; the data has distinct keys, all of them fields of the
    model. *)
Theorem boolean_stored_as_number_read_as_boolean :
  forall (m : Model) (f : string) (fd : FieldDef) (b : bool) (data : obj),
    supportsBooleans cfg = false ->
    get f (allFields m) = Some fd ->
    semanticType fd = TBoolean ->
    NoDup (keys data) ->
    In (f, VBool b) data ->
    knownFields m data ->
    inputLeftToBuiltin cfg m f (VBool b) ->
    transportKeyFree cfg m (applyIdPolicy defaultGenerateId cfg m data) f
      (transportKey cfg f fd) ->
    let stored := VNum (if b then 1 else 0) in
    exists payload,
      createPayload m data = Ok payload
      /\ get (transportKey cfg f fd) payload = Some stored
      /\ forall registry backend model select row,
          findModel registry model = Ok m ->
          get (sourceKey cfg f fd) row = Some stored ->
          selected select f = true ->
          outputLeftAsIs cfg m f (VBool b) ->
          outputKeyOwn cfg m f fd ->
          (insert backend (resolveModelName cfg m) payload = Ok row ->
           exists r,
             create registry backend model data select = Ok r
             /\ get (outputKey cfg f) r = Some (VBool b))
          /\ (forall w w',
                resolveWhere m w = Ok w' ->
                selectOne backend (resolveModelName cfg m) w' = Ok (Some row) ->
                exists r,
                  findOne registry backend model w select = Ok (Some r)
                  /\ get (outputKey cfg f) r = Some (VBool b)).
Proof.
  intros m f fd b data Hflag Hf Hty Hnd Hin Hk Hsilent Hfree stored.
  assert (Hnotid : f <> identifier).
  { intros ->. rewrite identifier_field in Hf. injection Hf as <-.
    discriminate. }
  assert (Hin' : In (f, VBool b) (applyIdPolicy defaultGenerateId cfg m data)).
  { unfold applyIdPolicy. destruct (disableIdGeneration cfg); [exact Hin|].
    now apply In_set_other. }
  destruct (createPayload_written m data f fd (VBool b) Hnd Hk Hin' Hf Hfree)
    as (payload & Hp & Hget).
  exists payload. split; [exact Hp|].
  assert (Hstored : inputValue m f fd (VBool b) = stored).
  { rewrite (inputValue_builtin m f fd (VBool b) Hsilent).
    unfold coerceInput. now rewrite Hty, Hflag. }
  split; [now rewrite Hget, Hstored|].
  intros registry backend model select row Hm Hrow Hsel Hout Hown.
  assert (Hread : get (outputKey cfg f) (transformOutput m row select)
                  = Some (VBool b)).
  { rewrite (transformOutput_get m row select f fd (get_In f fd _ Hf) Hown).
    rewrite Hsel. f_equal.
    apply (outputValue_read m f fd row stored (VBool b) Hrow); [|exact Hout].
    unfold coerceOutput. rewrite Hty, Hflag. unfold stored.
    now destruct b. }
  split.
  - intros Hins. exists (transformOutput m row select).
    split; [|exact Hread].
    apply (create_from_row registry backend model m data select payload row
             Hm Hp Hins).
  - intros w w' Hw Hsel1. exists (transformOutput m row select).
    split; [|exact Hread].
    apply (findOne_from_row registry backend model m w w' select row Hm Hw Hsel1).
Qed.

(** C2, as amended.  With identifier generation enabled and a generator
    that yields a non-empty string, the data handed to the backend driver
    carries this string as the identifier when the custom input hook leaves
    the identifier to the built-in pipeline, and so does the record [create]
    returns when the backend's row carries it, the select projection keeps
    the identifier and the custom output hook leaves it as it is.  With
    generation disabled and no identifier in the input, the data handed to
    the backend has no identifier, and the identifier reads [undefined] in
    the returned record of a backend that adds none.  Throughout, the data
    has distinct keys, all of them fields of the model, and the identifier
    shares its transport key and its output key with no other field. *)
Theorem identifier_follows_the_id_policy :
  forall (m : Model) (data : obj),
    NoDup (keys data) ->
    knownFields m data ->
    let idKey := transportKey cfg identifier identifierField in
    let idSource := sourceKey cfg identifier identifierField in
    (disableIdGeneration cfg = false ->
     forall s,
       generateId defaultGenerateId cfg (modelName m) None = s ->
       s <> EmptyString ->
       inputLeftToBuiltin cfg m identifier (VStr s) ->
       transportKeyFree cfg m (applyIdPolicy defaultGenerateId cfg m data)
         identifier idKey ->
       exists payload,
         createPayload m data = Ok payload
         /\ get idKey payload = Some (VStr s)
         /\ forall registry backend model select row,
             findModel registry model = Ok m ->
             insert backend (resolveModelName cfg m) payload = Ok row ->
             get idSource row = Some (VStr s) ->
             selected select identifier = true ->
             outputLeftAsIs cfg m identifier (VStr s) ->
             outputKeyOwn cfg m identifier identifierField ->
             exists r,
               create registry backend model data select = Ok r
               /\ get (outputKey cfg identifier) r = Some (VStr s))
    /\ (disableIdGeneration cfg = true ->
        ~ In identifier (keys data) ->
        (forall g gd,
            In g (keys data) -> get g (allFields m) = Some gd ->
            transportKey cfg g gd <> idKey) ->
        exists payload,
          createPayload m data = Ok payload
          /\ get idKey payload = None
          /\ forall registry backend model select row,
              findModel registry model = Ok m ->
              insert backend (resolveModelName cfg m) payload = Ok row ->
              get idSource row = None ->
              outputKeyOwn cfg m identifier identifierField ->
              exists r,
                create registry backend model data select = Ok r
                /\ prop (outputKey cfg identifier) r = VUndefined).
Proof.
  intros m data Hnd Hk idKey idSource. split.
  - intros Hen s Hgen Hs Hsilent Hfree.
    assert (Hin : In (identifier, VStr s)
                    (applyIdPolicy defaultGenerateId cfg m data)).
    { unfold applyIdPolicy. rewrite Hen, Hgen.
      apply get_In. apply get_set_same. }
    destruct (createPayload_written m data identifier identifierField (VStr s)
                Hnd Hk Hin (identifier_field m) Hfree)
      as (payload & Hp & Hget).
    exists payload. split; [exact Hp|].
    rewrite (inputValue_builtin m identifier identifierField (VStr s) Hsilent)
      in Hget.
    split; [exact Hget|].
    intros registry backend model select row Hm Hins Hrow Hsel Hout Hown.
    exists (transformOutput m row select). split.
    + apply (create_from_row registry backend model m data select payload row
               Hm Hp Hins).
    + rewrite (transformOutput_get m row select identifier identifierField
                 (identifier_listed m) Hown).
      rewrite Hsel. f_equal.
      now apply (outputValue_read m identifier identifierField row (VStr s)
                   (VStr s) Hrow).
  - intros Hdis Hnoid Hfree.
    assert (Hpol : applyIdPolicy defaultGenerateId cfg m data = data).
    { unfold applyIdPolicy. now rewrite Hdis. }
    destruct (transformInputFrom_total m data [] Hk) as [payload Hp].
    assert (Hp' : createPayload m data = Ok payload).
    { unfold createPayload, AdapterFactory.createPayload, transformInput.
      rewrite Hpol. exact Hp. }
    exists payload. split; [exact Hp'|]. split.
    + now rewrite (transformInputFrom_untouched m idKey data [] payload Hfree Hp).
    + intros registry backend model select row Hm Hins Hrow Hown.
      exists (transformOutput m row select). split.
      * apply (create_from_row registry backend model m data select payload row
                 Hm Hp' Hins).
      * unfold prop.
        rewrite (transformOutput_get m row select identifier identifierField
                   (identifier_listed m) Hown).
        destruct (selected select identifier); [|reflexivity].
        unfold outputValue, AdapterFactory.outputValue.
        fold idSource. now rewrite Hrow.
Qed.

End FactoryPipelines.

(** ** The properties on the calls of the tests *)

Section Instances.

Import Fixtures.

(** C2, as the specification words it, fails in five ways.  With generation
    enabled: a create call with [select: ["name"]] returns a record without
    identifier (the test "unless select is used to exclude it"); a custom
    input transform that answers for the identifier decides what the backend
    is handed; a custom output transform decides what the record has; and a
    field outside the model stops the call before the backend sees any data.
    With generation disabled, the record has the identifier the database
    assigned. *)
Lemma identifier_policy_needs_its_conditions :
  ~ createdRecordHasId
      (create (testConfig true false) [("name", VStr "test-name")]
         (Some ["name"]))
  /\ ~ payloadHasId
        (AdapterFactory.createPayload toISOString stringify defaultGenerateId
           (hookedConfig true (answerFor "id" VNull)) userModel
           [("name", VStr "test-name")])
  /\ ~ createdRecordHasId
        (create (customConfig true None (Some (fun _ => VNull)) None None)
           [("name", VStr "test-name")] None)
  /\ ~ payloadHasId
        (AdapterFactory.createPayload toISOString stringify defaultGenerateId
           (testConfig true false) userModel
           [("name", VStr "test-name"); ("nickname", VStr "x")])
  /\ ~ createdRecordLacksId
        (AdapterFactory.create toISOString parseDate stringify parseJSON
           defaultGenerateId (testConfig true true) registry assigningDriver
           "user" [("name", VStr "test-name")] None).
Proof.
  repeat split.
  - intros (record & s & Hr & Hget & _).
    vm_compute in Hr. injection Hr as <-. discriminate Hget.
  - intros (payload & s & Hp & Hget & _).
    vm_compute in Hp. injection Hp as <-. discriminate Hget.
  - intros (record & s & Hr & Hget & _).
    vm_compute in Hr. injection Hr as <-. discriminate Hget.
  - intros (payload & s & Hp & _).
    vm_compute in Hp. discriminate Hp.
  - intros (record & Hr & Hid).
    vm_compute in Hr. injection Hr as <-. discriminate Hid.
Qed.

(** C1, as the specification words it, fails in six ways on an adapter with
    [supportsBooleans = false]: a select projection that leaves the boolean
    field out returns a record without it; a custom input transform that
    answers for the field decides what the backend is handed; a custom
    output transform decides what the record has; a field outside the model
    stops the call before the backend sees any data; an input key mapping
    that sends [name] to the key of the boolean field hands the backend the
    name under it; and an output key mapping that sends [image] to the key
    of the boolean field returns the image under it. *)
Lemma boolean_round_trip_needs_its_conditions :
  ~ booleanClaimOn (testConfig false false)
      [("name", VStr "n"); ("emailVerified", VBool true)] (Some ["name"])
  /\ ~ booleanClaimOn
        (hookedConfig false (answerFor "emailVerified" (VStr "yes")))
        [("emailVerified", VBool true)] None
  /\ ~ booleanClaimOn
        (customConfig false None (Some (fun _ => VStr "no")) None None)
        [("emailVerified", VBool true)] None
  /\ ~ booleanClaimOn (testConfig false false)
        [("emailVerified", VBool true); ("nickname", VStr "x")] None
  /\ ~ booleanClaimOn
        (customConfig false None None (Some [("name", "emailVerified")]) None)
        [("emailVerified", VBool true); ("name", VStr "n")] None
  /\ ~ booleanClaimOn
        (customConfig false None None None (Some [("image", "emailVerified")]))
        [("emailVerified", VBool true)] None.
Proof.
  unfold booleanClaimOn. repeat split.
  - intros [_ (r & Hr & Hget)].
    vm_compute in Hr. injection Hr as <-. discriminate Hget.
  - intros [(p & Hp & Hget) _].
    vm_compute in Hp. injection Hp as <-. discriminate Hget.
  - intros [_ (r & Hr & Hget)].
    vm_compute in Hr. injection Hr as <-. discriminate Hget.
  - intros [(p & Hp & _) _].
    vm_compute in Hp. discriminate Hp.
  - intros [(p & Hp & Hget) _].
    vm_compute in Hp. injection Hp as <-. discriminate Hget.
  - intros [_ (r & Hr & Hget)].
    vm_compute in Hr. injection Hr as <-. discriminate Hget.
Qed.

(** C6, as the specification words it, fails: with an output key mapping
    that renames [email] to [mail], a create call with
    [select: ["name", "email"]] returns the keys [name] and [mail]. *)
Lemma selected_field_can_be_renamed :
  ~ keysAreExactly
      (AdapterFactory.create toISOString parseDate stringify parseJSON
         defaultGenerateId (renamingConfig [("email", "mail")]) registry
         AdapterFactory.echoDriver "user"
         [("name", VStr "n"); ("email", VStr "a@b.c")]
         (Some ["name"; "email"]))
      ["name"; "email"].
Proof.
  intros (record & Hr & Hkeys).
  vm_compute in Hr. injection Hr as <-.
  destruct (proj2 (Hkeys "email")) as [H | [H | []]];
    [right; left; reflexivity | discriminate H | discriminate H].
Qed.

Example boolean_field_is_coerced_on_sqlite :
  Kysely.transformValueToDB sqliteConfig toISOString schema (VBool true)
    "user" "emailVerified" = Some (VNum 1)
  /\ Kysely.transformValueToDB sqliteConfig toISOString schema (VBool true)
       "user" "id" = Some (VBool true).
Proof. split; reflexivity. Qed.

Example joined_rows_regrouped :
  Kysely.processJoinedResults getDefaultModelName schema joinedRows "user"
    (Some join)
    (Selects.allSelectsStr
       (Kysely.joinSelects getDefaultModelName schema (Some join)))
  = [[("id", VStr "u1"); ("name", VStr "a");
      ("session",
       VArr [VObj [("token", VNull); ("userId", VStr "u1");
                   ("id", VStr "s1")];
             VObj [("token", VNull); ("userId", VStr "u1");
                   ("id", VStr "s2")]]);
      ("account", VObj [("userId", VStr "u1"); ("id", VNull)])];
     [("id", VStr "u2"); ("name", VStr "b");
      ("session", VArr []);
      ("account", VObj [("userId", VStr "u2"); ("id", VStr "a1")])]].
Proof. reflexivity. Qed.

Example model_name_with_underscore_is_cut :
  Kysely.parseJoinedKey (Kysely.joinedAlias "two_factor" "id")
  = ("two", "factor_id").
Proof. reflexivity. Qed.

Example created_record_of_the_first_test :
  create (testConfig true false) [("name", VStr "test-name")] None
  = AdapterFactory.Ok
      [("id", VStr "generated-id"); ("name", VStr "test-name");
       ("email", VUndefined); ("emailVerified", VBool false);
       ("image", VUndefined); ("createdAt", VDate 0);
       ("updatedAt", VDate 0)].
Proof. reflexivity. Qed.

Lemma where_groups_conjoined_witness :
  exists st query,
    Kysely.findOneQuery sqliteConfig getFieldName getDefaultModelName
      toISOString dateToString numberToString schema "user"
      (Some [Where.mkWhere "id" (VStr "x") None None;
             Where.mkWhere "name" (VStr "bo") (Some "contains") (Some OR)])
      None = Some (st, query)
    /\ Query.wheres query
       = [EAnd [EBin "user.id" "=" (VStr "x")];
          EOr [EBin "user.name" "like" (VStr "%bo%")]].
Proof.
  destruct (where_groups_conjoined sqliteConfig getFieldName
              getDefaultModelName toISOString dateToString numberToString schema "user" None)
    as [_ H].
  destruct (H [Where.mkWhere "id" (VStr "x") None None;
               Where.mkWhere "name" (VStr "bo") (Some "contains") (Some OR)]
              [(AND, EBin "user.id" "=" (VStr "x"));
               (OR, EBin "user.name" "like" (VStr "%bo%"))]
              eq_refl) as (_ & st & query & Hq & Hw & _).
  exists st, query. split; [exact Hq | exact Hw].
Defined.

Lemma operators_compiled_witness :
  Kysely.convertCondition sqliteConfig getFieldName toISOString dateToString
    numberToString schema "user"
    (Where.mkWhere "email" (VStr "a@b.c") (Some "IN") None)
  = Some (AND, EBin "email_address" "in" (VArr [VStr "a@b.c"]))
  /\ Kysely.convertCondition sqliteConfig getFieldName toISOString
       dateToString numberToString schema "user"
       (Where.mkWhere "email" (VStr "a@b.c") (Some "ilike") None)
     = Some (AND, EBin "user.email_address" "ilike" (VStr "a@b.c"))
  /\ Kysely.convertCondition sqliteConfig getFieldName toISOString
       dateToString numberToString schema "user"
       (Where.mkWhere "name" (VNum 1000000000000000000000) (Some "contains")
          None)
     = Some (AND, EBin "user.name" "like" (VStr "%1e+21%"))
  /\ Kysely.convertCondition sqliteConfig getFieldName toISOString
       dateToString numberToString schema "user"
       (Where.mkWhere "name" (VNum 42) (Some "starts_with") None)
     = Some (AND, EBin "user.name" "like" (VStr "42%")).
Proof.
  destruct (operators_compiled sqliteConfig getFieldName toISOString
              dateToString numberToString schema "user" "email"
              (VStr "a@b.c") (VStr "a@b.c") None eq_refl)
    as (Hin & _ & _ & _ & _ & _ & _ & _ & _ & _ & _ & Hother & _).
  destruct (operators_compiled sqliteConfig getFieldName toISOString
              dateToString numberToString schema "user" "name"
              (VNum 1000000000000000000000) (VNum 1000000000000000000000)
              None eq_refl)
    as (_ & _ & Hbig & _).
  destruct (operators_compiled sqliteConfig getFieldName toISOString
              dateToString numberToString schema "user" "name"
              (VNum 42) (VNum 42) None eq_refl)
    as (_ & _ & _ & Hsmall & _).
  split; [exact (Hin "IN" eq_refl)|].
  split; [exact (Hother "ilike" eq_refl)|].
  split; [exact Hbig | exact Hsmall].
Defined.

Lemma omitted_operator_is_equality_witness :
  Kysely.convertWhereClause sqliteConfig getFieldName toISOString dateToString numberToString
    schema "user" (Some [Where.mkWhere "id" (VStr "u1") None None])
  = Some (Conditions.mkGroups (Some [EBin "user.id" "=" (VStr "u1")]) None).
Proof.
  destruct (omitted_operator_is_equality sqliteConfig getFieldName toISOString
              dateToString numberToString schema "user" "id" (VStr "u1") (VStr "u1") None
              None eq_refl) as (_ & _ & H).
  exact H.
Defined.

Lemma offset_orders_by_id_on_mssql_only_witness :
  exists st query,
    Kysely.findManyQuery mssqlConfig getFieldName getDefaultModelName
      toISOString dateToString numberToString schema "user" None None (Some 5%Z) None None
    = Some (st, query)
    /\ Query.orderBy query = [("id", None)].
Proof.
  exact (offset_orders_by_id_on_mssql_only mssqlConfig getFieldName
           getDefaultModelName toISOString dateToString numberToString schema "user" None
           None (Some 5%Z) None (Conditions.mkGroups None None) eq_refl
           eq_refl).
Defined.

Lemma joined_columns_aliased_witness :
  Selects.allSelectsStr
    (Kysely.joinSelects getDefaultModelName schema (Some join))
  = ["joined_session_token"; "joined_session_userId"; "joined_session_id";
     "joined_account_userId"; "joined_account_id"]
  /\ Kysely.distributeColumn
       (Selects.allSelectsStr
          (Kysely.joinSelects getDefaultModelName schema (Some join)))
       ([], [("session", VObj [])]) ("joined_session_id", VStr "s1")
     = ([], [("session", VObj [("id", VStr "s1")])]).
Proof.
  destruct (joined_columns_aliased sqliteConfig getFieldName
              getDefaultModelName toISOString dateToString numberToString schema join)
    as (_ & _ & _ & _ & _ & _ & Hparse).
  split; [reflexivity|].
  apply (Hparse [] [("session", VObj [])] "session" "id" (VStr "s1") []
           eq_refl).
  - right. right. now left.
  - reflexivity.
Defined.

Lemma select_keeps_exactly_the_selected_witness :
  exists r,
    create (testConfig true false)
      [("email", VStr "test@test.com"); ("name", VStr "test-name");
       ("emailVerified", VBool false); ("image", VStr "test-image");
       ("id", VStr "test-id")]
      (Some ["email"; "id"]) = AdapterFactory.Ok r
    /\ forall k, In k (keys r) <-> k = "email" \/ k = "id".
Proof.
  eexists. split; [reflexivity|].
  destruct (select_keeps_exactly_the_selected toISOString parseDate stringify
              parseJSON defaultGenerateId (testConfig true false) userModel
              "email" "id")
    as (_ & Hcreate & _ & _).
  - right. right. now left.
  - now left.
  - apply (Hcreate registry AdapterFactory.echoDriver "user"
             [("email", VStr "test@test.com"); ("name", VStr "test-name");
              ("emailVerified", VBool false); ("image", VStr "test-image");
              ("id", VStr "test-id")]
             _ eq_refl eq_refl).
Defined.

Lemma boolean_stored_as_number_read_as_boolean_witness :
  exists payload r,
    AdapterFactory.createPayload toISOString stringify defaultGenerateId
      (testConfig false false) userModel [("emailVerified", VBool true)]
    = AdapterFactory.Ok payload
    /\ get "emailVerified" payload = Some (VNum 1)
    /\ create (testConfig false false) [("emailVerified", VBool true)] None
       = AdapterFactory.Ok r
    /\ get "emailVerified" r = Some (VBool true).
Proof.
  destruct (boolean_stored_as_number_read_as_boolean toISOString parseDate
              stringify parseJSON defaultGenerateId (testConfig false false)
              userModel "emailVerified"
              (AdapterFactory.mkFieldDef AdapterFactory.TBoolean None false
                 (Some (VBool false)))
              true [("emailVerified", VBool true)])
    as (payload & Hp & Hget & Hback).
  - reflexivity.
  - reflexivity.
  - reflexivity.
  - constructor; [intros [] | constructor].
  - now left.
  - intros g [<- | []]. discriminate.
  - exact I.
  - intros g gd [<- | [<- | []]] Hg Hkey; [reflexivity|].
    injection Hg as <-. discriminate Hkey.
  - destruct (Hback registry AdapterFactory.echoDriver "user" None payload)
      as [Hcreate _].
    + reflexivity.
    + exact Hget.
    + reflexivity.
    + exact I.
    + intros g gd Hin Hkey.
      repeat (destruct Hin as [Heq | Hin];
              [injection Heq as <- <-; try discriminate Hkey; try reflexivity|]).
      destruct Hin.
    + destruct (Hcreate eq_refl) as (r & Hr & Hread).
      exists payload, r. repeat split; assumption.
Defined.

Lemma identifier_follows_the_id_policy_witness :
  (exists payload r,
      AdapterFactory.createPayload toISOString stringify defaultGenerateId
        (testConfig true false) userModel [("name", VStr "test-name")]
      = AdapterFactory.Ok payload
      /\ get "id" payload = Some (VStr "generated-id")
      /\ create (testConfig true false) [("name", VStr "test-name")] None
         = AdapterFactory.Ok r
      /\ get "id" r = Some (VStr "generated-id"))
  /\ (exists payload r,
         AdapterFactory.createPayload toISOString stringify defaultGenerateId
           (testConfig true true) userModel [("name", VStr "test-name")]
         = AdapterFactory.Ok payload
         /\ get "id" payload = None
         /\ create (testConfig true true) [("name", VStr "test-name")] None
            = AdapterFactory.Ok r
         /\ prop "id" r = VUndefined).
Proof.
  assert (Hnd : NoDup (keys [("name", VStr "test-name")])).
  { constructor; [intros [] | constructor]. }
  assert (Hk : knownFields userModel [("name", VStr "test-name")]).
  { intros g [<- | []]. discriminate. }
  assert (Hown : forall cfg,
             AdapterFactory.mapKeysTransformOutput cfg = None ->
             outputKeyOwn cfg userModel AdapterFactory.identifier
               AdapterFactory.identifierField).
  { intros cfg Hnone g gd Hin Hkey.
    unfold AdapterFactory.outputKey in Hkey. rewrite Hnone in Hkey.
    repeat (destruct Hin as [Heq | Hin];
            [injection Heq as <- <-; try discriminate Hkey; try reflexivity|]).
    destruct Hin. }
  split.
  - destruct (identifier_follows_the_id_policy toISOString parseDate stringify
                parseJSON defaultGenerateId (testConfig true false) userModel
                [("name", VStr "test-name")] Hnd Hk) as [Hon _].
    destruct (Hon eq_refl "generated-id" eq_refl) as (payload & Hp & Hget & Hback).
    + discriminate.
    + exact I.
    + intros g gd [<- | [<- | []]] Hg Hkey; [|reflexivity].
      injection Hg as <-. discriminate Hkey.
    + destruct (Hback registry AdapterFactory.echoDriver "user" None payload
                  eq_refl eq_refl Hget eq_refl I
                  (Hown (testConfig true false) eq_refl))
        as (r & Hr & Hread).
      exists payload, r. repeat split; assumption.
  - destruct (identifier_follows_the_id_policy toISOString parseDate stringify
                parseJSON defaultGenerateId (testConfig true true) userModel
                [("name", VStr "test-name")] Hnd Hk) as [_ Hoff].
    destruct (Hoff eq_refl) as (payload & Hp & Hget & Hback).
    + intros [H | []]. discriminate H.
    + intros g gd [<- | []] Hg Hkey. injection Hg as <-. discriminate Hkey.
    + destruct (Hback registry AdapterFactory.echoDriver "user" None payload
                  eq_refl eq_refl Hget (Hown (testConfig true true) eq_refl))
        as (r & Hr & Hread).
      exists payload, r. repeat split; assumption.
Defined.

End Instances.

(** * Further properties of the code *)

(** ** [transformValueToDB] *)

Section ValueTransform.

Variable config : option Config.KyselyAdapterConfig.
Variable getFieldName : string -> string -> string.
Variable toISOString : Z -> string.
Variable dateToString numberToString : Z -> string.

Let transformValueToDB := Kysely.transformValueToDB config toISOString.
Let dbType : KyselyDatabaseType :=
  match Kysely.configType config with Some t => t | None => sqlite end.

(** X1.  [transformValueToDB] throws in three cases, all on a field other
    than ["id"], and returns a value in every other case: when the schema
    has no entry [model] and either [model] is a name every object inherits
    or no table has the model name [model]; when the model's fields have no
    entry [field], [field] is no inherited name, and no table has the model
    name [model]; and when, on sqlite, the value of a field of type ["date"]
    is an Invalid Date. *)
Theorem transformValueToDB_throws_iff :
  forall (schema : Schema) (value : JS.value) (model field : string),
    let noTable :=
      forall tbl, In tbl (map snd schema) -> Table.modelName tbl <> model in
    transformValueToDB schema value model field = None
    <-> field <> "id"
        /\ ((Kysely.modelFields schema model = None
             /\ (inherited model = true \/ noTable))
            \/ (exists fs,
                   Kysely.modelFields schema model = Some fs
                   /\ get field fs = None
                   /\ inherited field = false
                   /\ noTable)
            \/ (exists fs f ms,
                   Kysely.modelFields schema model = Some fs
                   /\ get field fs = Some f
                   /\ Field.type f = "date"
                   /\ dbType = sqlite
                   /\ value = VDate ms
                   /\ validTime ms = false)).
Proof.
  intros schema value model field noTable.
  assert (Hfind : (find (fun t => Table.modelName t =? model) (map snd schema)
                   = None) <-> noTable).
  { split.
    - intros Hnone tbl Hin E. apply (find_none _ _ Hnone) in Hin.
      apply String.eqb_neq in Hin. contradiction.
    - intros Hno.
      destruct (find (fun t => Table.modelName t =? model) (map snd schema))
        as [tbl|] eqn:Hf; [|reflexivity].
      apply find_some in Hf. destruct Hf as [Hin E].
      apply String.eqb_eq in E. now destruct (Hno tbl Hin). }
  assert (Hby : match find (fun t => Table.modelName t =? model)
                        (map snd schema) with
                | Some _ => Some value
                | None => None
                end = None <-> noTable).
  { rewrite <- Hfind.
    destruct (find (fun t => Table.modelName t =? model) (map snd schema));
      split; congruence. }
  unfold transformValueToDB, Kysely.transformValueToDB. fold dbType.
  destruct (field =? "id") eqn:Eid.
  { apply String.eqb_eq in Eid. split; [discriminate|].
    intros [H _]. contradiction. }
  apply String.eqb_neq in Eid.
  destruct (Kysely.modelFields schema model) as [fs|] eqn:Hfs.
  - destruct (get field fs) as [f|] eqn:Hf.
    + destruct (Field.type f =? "boolean") eqn:Eb.
      * apply String.eqb_eq in Eb. rewrite Eb.
        change ("boolean" =? "date") with false. cbn [andb].
        split.
        -- destruct (_ && negb _); discriminate.
        -- intros (_ & [[H _] | [(fs' & H & H' & _)
                                | (fs' & f' & ms & H & H' & Hd & _)]]).
           ++ discriminate.
           ++ injection H as <-. congruence.
           ++ injection H as <-. rewrite Hf in H'. injection H' as <-.
              rewrite Eb in Hd. discriminate.
      * cbn [andb].
        destruct (Field.type f =? "date") eqn:Ed.
        -- apply String.eqb_eq in Ed.
           destruct (dbTypeEqb dbType sqlite) eqn:Es.
           ++ assert (Hsq : dbType = sqlite)
                by (destruct dbType; simpl in Es; try discriminate;
                    reflexivity).
              destruct value as [| | | | |ms| |]; cbn [andb truthy isDate];
                rewrite ?andb_false_r;
                try (split; [discriminate|];
                     intros (_ & [[H _] | [(fs' & H & H' & _)
                                          | (fs' & f' & ms' & _ & _ & _ & _
                                             & Hv & _)]]);
                     [discriminate | injection H as <-; congruence
                     | discriminate]).
              destruct (validTime ms) eqn:Hvalid.
              ** split; [discriminate|].
                 intros (_ & [[H _] | [(fs' & H & H' & _)
                                      | (fs' & f' & ms' & _ & _ & _ & _
                                         & Hv & Hinv)]]).
                 --- discriminate.
                 --- injection H as <-. congruence.
                 --- injection Hv as <-. congruence.
              ** split; [|reflexivity]. intros _. split; [exact Eid|].
                 right. right. exists fs, f, ms. now repeat split.
           ++ assert (Hsq : dbType <> sqlite)
                by (intros E; rewrite E in Es; discriminate).
              split.
              ** destruct (true && truthy value && isDate value); discriminate.
              ** intros (_ & [[H _] | [(fs' & H & H' & _)
                                      | (fs' & f' & ms' & _ & _ & _ & Hd
                                         & _)]]).
                 --- discriminate.
                 --- injection H as <-. congruence.
                 --- contradiction.
        -- apply String.eqb_neq in Ed. split; [discriminate|].
           intros (_ & [[H _] | [(fs' & H & H' & _)
                                | (fs' & f' & ms' & H & H' & Hd & _)]]).
           ++ discriminate.
           ++ injection H as <-. congruence.
           ++ injection H as <-. rewrite Hf in H'. injection H' as <-.
              contradiction.
    + destruct (inherited field) eqn:Hinh.
      * split; [discriminate|].
        intros (_ & [[H _] | [(fs' & _ & _ & H & _)
                             | (fs' & f' & ms' & H & H' & _)]]).
        -- discriminate.
        -- discriminate.
        -- injection H as <-. congruence.
      * rewrite Hby. split.
        -- intros Hno. split; [exact Eid|]. right. left.
           exists fs. now repeat split.
        -- intros (_ & [[H _] | [(fs' & _ & _ & _ & H)
                                | (fs' & f' & ms' & H & H' & _)]]).
           ++ discriminate.
           ++ exact H.
           ++ injection H as <-. congruence.
  - destruct (inherited model) eqn:Hinh.
    + split; [|reflexivity]. intros _. split; [exact Eid|].
      left. split; [reflexivity | now left].
    + rewrite Hby. split.
      * intros Hno. split; [exact Eid|]. left. split; [reflexivity | now right].
      * intros (_ & [[_ [H | H]] | [(fs' & H & _) | (fs' & f' & ms' & H & _)]]).
        -- discriminate.
        -- exact H.
        -- discriminate.
        -- discriminate.
Qed.

(** The cases of [transformValueToDB] on a field it finds. *)
Lemma transformValueToDB_cases schema value model field v' :
  transformValueToDB schema value model field = Some v' ->
  v' = value
  \/ (exists fs f,
         field <> "id"
         /\ Kysely.modelFields schema model = Some fs
         /\ get field fs = Some f
         /\ ((Field.type f = "boolean"
              /\ (dbType = sqlite \/ dbType = mssql)
              /\ value <> VNull /\ value <> VUndefined
              /\ v' = VNum (if truthy value then 1 else 0))
             \/ (Field.type f = "date" /\ Field.type f <> "boolean"
                 /\ dbType = sqlite
                 /\ exists ms, value = VDate ms
                               /\ v' = VStr (toISOString ms)))).
Proof.
  unfold transformValueToDB, Kysely.transformValueToDB. fold dbType.
  destruct (field =? "id") eqn:Eid; [intros [= <-]; now left|].
  apply String.eqb_neq in Eid.
  destruct (Kysely.modelFields schema model) as [fs|] eqn:Hfs.
  2:{ destruct (inherited model); [discriminate|].
      destruct (find _ _); [intros [= <-]; now left | discriminate]. }
  destruct (get field fs) as [f|] eqn:Hf.
  2:{ destruct (inherited field); [intros [= <-]; now left|].
      destruct (find _ _); [intros [= <-]; now left | discriminate]. }
  destruct (Field.type f =? "boolean") eqn:Eb.
  - apply String.eqb_eq in Eb. rewrite Eb.
    change ("boolean" =? "date") with false.
    destruct (dbTypeEqb dbType sqlite || dbTypeEqb dbType mssql) eqn:Et;
      [|intros [= <-]; now left].
    assert (Hty : dbType = sqlite \/ dbType = mssql)
      by (destruct dbType; simpl in Et; try discriminate; auto).
    destruct value; simpl; try (intros [= <-]; now left);
      intros [= <-]; right; exists fs, f;
      (split; [exact Eid|]); (split; [reflexivity|]); (split; [exact Hf|]);
      left; (split; [exact Eb|]); (split; [exact Hty|]);
      (split; [discriminate|]); (split; [discriminate|]);
      try reflexivity;
      match goal with
      | |- (if ?c then _ else _) = _ => destruct c; reflexivity
      end.
  - cbn [andb].
    destruct (Field.type f =? "date") eqn:Ed;
      [|intros [= <-]; now left].
    apply String.eqb_eq in Ed. apply String.eqb_neq in Eb.
    destruct value; cbn [andb truthy isDate];
      rewrite ?andb_false_r; try (intros [= <-]; now left).
    destruct (dbTypeEqb dbType sqlite) eqn:Es; [|intros [= <-]; now left].
    destruct (validTime ms); [|discriminate]. intros [= <-].
    right. exists fs, f.
    split; [exact Eid|]. split; [reflexivity|]. split; [exact Hf|].
    right. split; [exact Ed|]. split; [exact Eb|]. split.
    + destruct dbType; simpl in Es; try discriminate; reflexivity.
    + now exists ms.
Qed.

(** X2.  [transformValueToDB] is idempotent: a value it returned passes
    through it unchanged. *)
Theorem transformValueToDB_idempotent :
  forall (schema : Schema) (value v' : JS.value) (model field : string),
    transformValueToDB schema value model field = Some v' ->
    transformValueToDB schema v' model field = Some v'.
Proof.
  intros schema value v' model field H.
  destruct (transformValueToDB_cases schema value model field v' H)
    as [-> | (fs & f & Hid & Hfs & Hf & Hcase)]; [exact H|].
  unfold transformValueToDB, Kysely.transformValueToDB. fold dbType.
  apply String.eqb_neq in Hid. rewrite Hid, Hfs, Hf.
  destruct Hcase as [(Hb & Ht & _ & _ & ->) | (Hd & Hnb & _ & ms & _ & ->)].
  - rewrite Hb. simpl.
    assert (Et : dbTypeEqb dbType sqlite || dbTypeEqb dbType mssql = true)
      by (destruct Ht as [-> | ->]; reflexivity).
    rewrite Et. now destruct (truthy value).
  - apply String.eqb_neq in Hnb. rewrite Hnb. simpl.
    now rewrite andb_false_r.
Qed.

(** X3.  [transformValueToDB] changes a value only on sqlite and mssql: on
    postgres and on mysql every value it returns is the value it was given,
    booleans included (although the adapter tells the factory that mysql
    has no booleans). *)
Theorem transformValueToDB_identity_off_sqlite :
  forall (schema : Schema) (value v' : JS.value) (model field : string),
    Kysely.configType config = Some postgres
    \/ Kysely.configType config = Some mysql ->
    transformValueToDB schema value model field = Some v' ->
    v' = value
    /\ (Kysely.configType config = Some mysql ->
        AdapterFactory.supportsBooleans (kyselyAdapterOptions config) = false).
Proof.
  intros schema value v' model field Hty H.
  assert (Hdb : dbType = postgres \/ dbType = mysql).
  { unfold dbType. destruct Hty as [-> | ->]; auto. }
  split.
  - destruct (transformValueToDB_cases schema value model field v' H)
      as [-> | (fs & f & _ & _ & _ & Hcase)]; [reflexivity|].
    exfalso.
    destruct Hcase as [(_ & Ht & _) | (_ & _ & Ht & _)];
      destruct Hdb as [E | E]; rewrite E in Ht;
      try discriminate; destruct Ht; discriminate.
  - intros E. unfold kyselyAdapterOptions. simpl. now rewrite E.
Qed.

(** X4.  On sqlite and mssql the value of a boolean field is reduced to its
    truthiness: every value but [null] and [undefined] becomes [1] or [0].
    An array is truthy, so a clause [in] over a boolean field compares with
    the one-element list [[1]] whatever the array held. *)
Theorem boolean_field_value_is_its_truthiness :
  forall (schema : Schema) (model field : string)
         (fs : list (string * Field.FieldAttribute)) (f : Field.FieldAttribute)
         (k : option Connector),
    field <> "id" ->
    Kysely.modelFields schema model = Some fs ->
    get field fs = Some f ->
    Field.type f = "boolean" ->
    dbType = sqlite \/ dbType = mssql ->
    (forall value,
        value <> VNull -> value <> VUndefined ->
        transformValueToDB schema value model field
        = Some (VNum (if truthy value then 1 else 0)))
    /\ (forall xs,
          Kysely.convertCondition config getFieldName toISOString dateToString numberToString
            schema model (Where.mkWhere field (VArr xs) (Some "in") k)
          = Some (match k with Some c => c | None => AND end,
                  EBin (getFieldName model field) "in" (VArr [VNum 1]))).
Proof.
  intros schema model field fs f k Hid Hfs Hf Hb Ht.
  assert (Hv : forall value,
             value <> VNull -> value <> VUndefined ->
             transformValueToDB schema value model field
             = Some (VNum (if truthy value then 1 else 0))).
  { intros value Hn Hu.
    unfold transformValueToDB, Kysely.transformValueToDB. fold dbType.
    apply String.eqb_neq in Hid. rewrite Hid, Hfs, Hf, Hb. simpl.
    assert (Et : dbTypeEqb dbType sqlite || dbTypeEqb dbType mssql = true)
      by (destruct Ht as [-> | ->]; reflexivity).
    rewrite Et.
    destruct value; simpl;
      try (exfalso; apply Hu; reflexivity);
      try (exfalso; apply Hn; reflexivity);
      try reflexivity;
      match goal with
      | |- Some (if ?c then _ else _) = _ => destruct c; reflexivity
      end. }
  split; [exact Hv|].
  intros xs. unfold Kysely.convertCondition. simpl.
  fold transformValueToDB.
  rewrite (Hv (VArr xs)) by discriminate. reflexivity.
Qed.

End ValueTransform.

(** ** Where clauses across the operations *)

Section Operations.

Variable config : option Config.KyselyAdapterConfig.
Variable getFieldName : string -> string -> string.
Variable getDefaultModelName : string -> string.
Variable toISOString : Z -> string.
Variable dateToString numberToString : Z -> string.

Let convertWhereClause :=
  Kysely.convertWhereClause config getFieldName toISOString dateToString numberToString.
Let transformValueToDB := Kysely.transformValueToDB config toISOString.
Let findOneQuery :=
  Kysely.findOneQuery config getFieldName getDefaultModelName toISOString
    dateToString numberToString.
Let findManyQuery :=
  Kysely.findManyQuery config getFieldName getDefaultModelName toISOString
    dateToString numberToString.

Lemma convertAll_None_iff schema model w :
  convertAll config getFieldName toISOString dateToString numberToString schema model w
    = None
  <-> Exists (fun c => transformValueToDB schema (Where.value c) model
                         (Where.field c) = None) w.
Proof.
  induction w as [|c w IH]; simpl.
  - split; [discriminate | intros H; inversion H].
  - unfold Kysely.convertCondition. fold transformValueToDB.
    destruct (transformValueToDB schema (Where.value c) model (Where.field c))
      eqn:Hv.
    + destruct (convertAll config getFieldName toISOString dateToString numberToString schema
                  model w) as [kes|].
      * split; [discriminate|]. intros H. inversion H; subst; [congruence|].
        apply IH in H1. discriminate.
      * split; [|reflexivity]. intros _. right. now apply IH.
    + split; [|reflexivity]. intros _. now left.
Qed.

Lemma convertAll_length schema model w es :
  convertAll config getFieldName toISOString dateToString numberToString schema model w
    = Some es ->
  List.length es = List.length w.
Proof.
  revert es. induction w as [|c w IH]; intros es H; simpl in H.
  - now injection H as <-.
  - destruct (Kysely.convertCondition config getFieldName toISOString
                dateToString numberToString schema model c); [|discriminate].
    destruct (convertAll config getFieldName toISOString dateToString numberToString schema
                model w) as [kes|]; [|discriminate].
    injection H as <-. simpl. now rewrite (IH kes).
Qed.

Lemma groupOf_lengths es :
  List.length (groupOf false es) + List.length (groupOf true es)
  = List.length es.
Proof.
  induction es as [|[k e] es IH]; [reflexivity|].
  rewrite !groupOf_cons. destruct k; simpl; lia.
Qed.

Lemma nonEmpty_size {A : Type} (l : list A) :
  match Kysely.nonEmpty l with
  | Some l' => List.length l'
  | None => 0
  end = List.length l.
Proof. now destruct l. Qed.

(** X5.  A Where compiles as a whole or not at all: [convertWhereClause]
    throws exactly when the value of one of its clauses cannot be
    transformed, and otherwise every clause is in exactly one of the two
    groups, so that the groups together hold as many predicates as the Where
    has clauses. *)
Theorem where_compiles_all_or_nothing :
  forall (schema : Schema) (model : string) (w : list Where.Clause),
    (convertWhereClause schema model (Some w) = None
     <-> Exists (fun c => transformValueToDB schema (Where.value c) model
                            (Where.field c) = None) w)
    /\ (forall g,
          convertWhereClause schema model (Some w) = Some g ->
          match Conditions.and g with
          | Some l => List.length l
          | None => 0
          end
          + match Conditions.or g with
            | Some l => List.length l
            | None => 0
            end
          = List.length w).
Proof.
  intros schema model w.
  unfold convertWhereClause, Kysely.convertWhereClause.
  destruct (convertAll config getFieldName toISOString dateToString numberToString schema
              model w) as [es|] eqn:Hes.
  - rewrite (convertConditions_groups config getFieldName toISOString
               dateToString numberToString schema model w es ([], []) Hes). simpl.
    split.
    + split; [discriminate|]. intros H.
      apply convertAll_None_iff in H. congruence.
    + intros g [= <-]. simpl. rewrite !nonEmpty_size, groupOf_lengths.
      now apply convertAll_length in Hes.
  - rewrite (convertConditions_fails config getFieldName toISOString
               dateToString numberToString schema model w ([], []) Hes).
    split; [|discriminate].
    split; [|reflexivity]. intros _. now apply convertAll_None_iff.
Qed.

Lemma wheres_filterStatement c st :
  Statement.wheres (Kysely.filterStatement c st)
  = Statement.wheres st
    ++ Query.wheres (Kysely.applyConditions c (Query.selectFrom "")).
Proof.
  unfold Kysely.filterStatement, Kysely.applyConditions.
  destruct (Conditions.and c), (Conditions.or c); simpl;
    rewrite ?app_nil_r, <- ?app_assoc; reflexivity.
Qed.

Lemma wheres_applyConditions c q :
  Query.wheres (Kysely.applyConditions c q)
  = Query.wheres q
    ++ Query.wheres (Kysely.applyConditions c (Query.selectFrom "")).
Proof.
  unfold Kysely.applyConditions.
  destruct (Conditions.and c), (Conditions.or c); simpl;
    rewrite ?app_nil_r, <- ?app_assoc; reflexivity.
Qed.

(** X6.  [update], [updateMany], [count], [delete] and [deleteMany] filter
    with the very predicates [findOne] puts on its query for the same Where,
    and they throw on the same Wheres: the rows a statement touches are the
    rows the select would return. *)
Theorem writes_filter_like_findOne :
  forall (schema : Schema) (model : string) (w : list Where.Clause)
         (values : obj) (join : option JoinConfig),
    let selected :=
      option_map (fun r => Query.wheres (snd r))
        (findOneQuery schema model (Some w) join) in
    option_map (fun r => Statement.wheres (fst r))
      (Kysely.update config getFieldName toISOString dateToString numberToString schema
         model w values) = selected
    /\ option_map Statement.wheres
         (Kysely.updateMany config getFieldName toISOString dateToString numberToString
            schema model w values) = selected
    /\ option_map Statement.wheres
         (Kysely.count config getFieldName toISOString dateToString numberToString schema
            model (Some w)) = selected
    /\ option_map Statement.wheres
         (Kysely.deleteMany config getFieldName toISOString dateToString numberToString
            schema model w) = selected.
Proof.
  intros schema model w values join selected.
  assert (Hsel : selected
                 = option_map
                     (fun c => Query.wheres
                                 (Kysely.applyConditions c
                                    (Query.selectFrom "")))
                     (convertWhereClause schema model (Some w))).
  { unfold selected.
    destruct (convertWhereClause schema model (Some w)) as [c|] eqn:Hc.
    - destruct (wheres_findOneQuery config getFieldName getDefaultModelName
                  toISOString dateToString numberToString schema model (Some w) join c Hc)
        as (st & query & Hq & Hw).
      unfold findOneQuery. rewrite Hq. simpl. rewrite Hw.
      now rewrite wheres_applyConditions.
    - unfold findOneQuery, Kysely.findOneQuery.
      unfold convertWhereClause in Hc. now rewrite Hc. }
  rewrite Hsel.
  unfold Kysely.update, Kysely.updateMany, Kysely.count, Kysely.deleteMany,
    Kysely.filtered.
  fold convertWhereClause.
  destruct (convertWhereClause schema model (Some w)) as [c|]; simpl;
    [|now repeat split].
  rewrite !wheres_filterStatement. now repeat split.
Qed.

Lemma bounds_applyConditions c q :
  Query.limit (Kysely.applyConditions c q) = Query.limit q
  /\ Query.top (Kysely.applyConditions c q) = Query.top q
  /\ Query.offset (Kysely.applyConditions c q) = Query.offset q
  /\ Query.fetch (Kysely.applyConditions c q) = Query.fetch q.
Proof.
  unfold Kysely.applyConditions.
  destruct (Conditions.and c), (Conditions.or c); repeat split; reflexivity.
Qed.

Lemma bounds_applyJoins model join q :
  Query.limit (Kysely.applyJoins model join q) = Query.limit q
  /\ Query.top (Kysely.applyJoins model join q) = Query.top q
  /\ Query.offset (Kysely.applyJoins model join q) = Query.offset q
  /\ Query.fetch (Kysely.applyJoins model join q) = Query.fetch q.
Proof.
  destruct join as [j|]; [|repeat split; reflexivity]. simpl.
  repeat split; revert q; induction j as [|[jm ja] j IH]; intros q; simpl;
    try reflexivity; now rewrite IH.
Qed.

(** The query before pagination carries no bound and no ordering. *)
Lemma base_query_unbounded model join c :
  let q := Kysely.applyJoins model join
             (Kysely.applyConditions c
                (Query.withSelectAll (Some model) (Query.selectFrom model))) in
  Query.limit q = None /\ Query.top q = None /\ Query.offset q = None
  /\ Query.fetch q = None /\ Query.orderBy q = [].
Proof.
  intros q. unfold q.
  destruct (bounds_applyJoins model join
              (Kysely.applyConditions c
                 (Query.withSelectAll (Some model) (Query.selectFrom model))))
    as (H1 & H2 & H3 & H4).
  destruct (bounds_applyConditions c
              (Query.withSelectAll (Some model) (Query.selectFrom model)))
    as (G1 & G2 & G3 & G4).
  rewrite H1, H2, H3, H4, G1, G2, G3, G4.
  rewrite orderBy_applyJoins, orderBy_applyConditions.
  now repeat split.
Qed.

(** X7.  Every [findMany] query is bounded: the number of rows asked for is
    the given limit, or 100 when the limit is absent or zero.  It is carried
    by [limit] off mssql, by [top] on mssql without offset, and by [fetch]
    next to the offset on mssql; exactly one of the three is set. *)
Theorem findMany_is_bounded :
  forall (schema : Schema) (model : string) (w : option (list Where.Clause))
         (limit offset : option Z) (sortBy : option SortBy.SortSpec)
         (join : option JoinConfig) (c : Conditions.Groups),
    convertWhereClause schema model w = Some c ->
    let bound := match limit with
                 | Some n => if (n =? 0)%Z then 100%Z else n
                 | None => 100%Z
                 end in
    exists st query,
      findManyQuery schema model w limit offset sortBy join = Some (st, query)
      /\ bound <> 0%Z
      /\ (Query.limit query, Query.top query, Query.fetch query)
         = (if Kysely.typeIs config mssql
            then if Kysely.offsetGiven offset
                 then (None, None, Some bound)
                 else (None, Some bound, None)
            else (Some bound, None, None))
      /\ Query.offset query
         = if Kysely.offsetGiven offset then offset else None.
Proof.
  intros schema model w limit offset sortBy join c Hc bound.
  unfold findManyQuery, Kysely.findManyQuery.
  unfold convertWhereClause in Hc. rewrite Hc.
  eexists _, _. split; [reflexivity|].
  split.
  { unfold bound. destruct limit as [n|]; [|discriminate].
    destruct (n =? 0)%Z eqn:E; [discriminate|]. now apply Z.eqb_neq. }
  destruct (base_query_unbounded model join c) as (H1 & H2 & H3 & H4 & _).
  set (q := Kysely.applyJoins model join
              (Kysely.applyConditions c
                 (Query.withSelectAll (Some model) (Query.selectFrom model))))
    in *.
  assert (Hp : let p := Kysely.paginate config getFieldName model limit offset
                          sortBy q in
               (Query.limit p, Query.top p, Query.fetch p)
               = (if Kysely.typeIs config mssql
                  then if Kysely.offsetGiven offset
                       then (None, None, Some bound)
                       else (None, Some bound, None)
                  else (Some bound, None, None))
               /\ Query.offset p
                  = if Kysely.offsetGiven offset then offset else None).
  { unfold Kysely.paginate. fold bound.
    change (Kysely.limitOr100 limit) with bound.
    destruct (Kysely.typeIs config mssql), (Kysely.offsetGiven offset) eqn:Ho,
      sortBy; simpl; rewrite ?H1, ?H2, ?H3, ?H4;
      destruct offset; try discriminate Ho; now split. }
  destruct join; exact Hp.
Qed.

(** X8.  With [sortBy], the [findMany] query is ordered by the sort field's
    column in the given direction and by nothing else, on every database
    type and with or without offset. *)
Theorem findMany_orders_by_sortBy_only :
  forall (schema : Schema) (model : string) (w : option (list Where.Clause))
         (limit offset : option Z) (s : SortBy.SortSpec)
         (join : option JoinConfig) (c : Conditions.Groups),
    convertWhereClause schema model w = Some c ->
    exists st query,
      findManyQuery schema model w limit offset (Some s) join
      = Some (st, query)
      /\ Query.orderBy query
         = [(getFieldName model (SortBy.field s), Some (SortBy.direction s))].
Proof.
  intros schema model w limit offset s join c Hc.
  unfold findManyQuery, Kysely.findManyQuery.
  unfold convertWhereClause in Hc. rewrite Hc.
  eexists _, _. split; [reflexivity|].
  destruct (base_query_unbounded model join c) as (_ & _ & _ & _ & H5).
  set (q := Kysely.applyJoins model join
              (Kysely.applyConditions c
                 (Query.withSelectAll (Some model) (Query.selectFrom model))))
    in *.
  assert (Hp : Query.orderBy
                 (Kysely.paginate config getFieldName model limit offset
                    (Some s) q)
               = [(getFieldName model (SortBy.field s),
                   Some (SortBy.direction s))]).
  { unfold Kysely.paginate.
    destruct (Kysely.typeIs config mssql), (Kysely.offsetGiven offset); simpl;
      now rewrite H5. }
  destruct join; exact Hp.
Qed.

(** X9.  The query of [findOne] carries no limit, no offset and no ordering:
    it asks the driver for every matching row, and the first row (or the
    first regrouped record) is taken afterwards. *)
Theorem findOne_query_is_unbounded :
  forall (schema : Schema) (model : string) (w : option (list Where.Clause))
         (join : option JoinConfig) (c : Conditions.Groups),
    convertWhereClause schema model w = Some c ->
    exists st query,
      findOneQuery schema model w join = Some (st, query)
      /\ Query.limit query = None /\ Query.top query = None
      /\ Query.offset query = None /\ Query.fetch query = None
      /\ Query.orderBy query = [].
Proof.
  intros schema model w join c Hc.
  unfold findOneQuery, Kysely.findOneQuery.
  unfold convertWhereClause in Hc. rewrite Hc.
  eexists _, _. split; [reflexivity|].
  pose proof (base_query_unbounded model join c) as H.
  destruct join; exact H.
Qed.

End Operations.

(** ** Reading the written row back: [withReturning] *)

Section ReadingBack.

Variable config : option Config.KyselyAdapterConfig.
Variable getFieldName : string -> string -> string.
Variable toISOString : Z -> string.
Variable dateToString numberToString : Z -> string.

Let withReturning := Kysely.withReturning config getFieldName.

(** X10.  After an insert, only mysql reads the row again.  There the select
    is ordered by the identifier's column, descending, and limited to one
    row; it is filtered by the inserted identifier when the data has one,
    and not filtered at all otherwise, so that the row handed back is then
    the one with the greatest identifier. *)
Theorem insert_read_back :
  forall (data : obj) (model : string),
    let back := snd (Kysely.create config getFieldName data model) in
    (Kysely.typeIs config mysql = false ->
     back = if Kysely.typeIs config mssql
            then Kysely.OutputAllInserted else Kysely.ReturningAll)
    /\ (Kysely.typeIs config mysql = true ->
        exists query,
          back = Kysely.ExecuteThenSelect query
          /\ Query.from query = model
          /\ Query.limit query = Some 1%Z
          /\ Query.orderBy query = [(getFieldName model "id", Some desc)]
          /\ Query.wheres query
             = if truthy (prop "id" data)
               then [EBin (getFieldName model "id") "=" (prop "id" data)]
               else []).
Proof.
  intros data model back. unfold back, Kysely.create, Kysely.withReturning.
  simpl snd. split.
  - intros ->. reflexivity.
  - intros ->. unfold Kysely.returningField, Kysely.returningValue.
    destruct (truthy (prop "id" data)) eqn:Hid; simpl.
    + rewrite Hid. eexists. split; [reflexivity|]. now repeat split.
    + eexists. split; [reflexivity|]. now repeat split.
Qed.

(** X11.  After an update on mysql the row is read again by one equality:
    on the identifier when the update sets one; otherwise on the field of
    the first clause of the Where, compared with the value the update gives
    that field when it gives a truthy one, and with the clause's own value
    when it does not.  An update that changes the field it filters on is
    thus read back by the new value. *)
Theorem update_read_back_on_mysql :
  forall (schema : Schema) (model : string) (first : Where.Clause)
         (rest : list Where.Clause) (values : obj)
         (st : Statement.FilteredStatement) (back : Kysely.Returning),
    Kysely.typeIs config mysql = true ->
    Where.field first <> EmptyString ->
    Kysely.update config getFieldName toISOString dateToString numberToString schema model
      (first :: rest) values = Some (st, back) ->
    let field := if truthy (prop "id" values) then "id"
                 else Where.field first in
    let value := if truthy (prop field values) then prop field values
                 else Where.value first in
    exists query,
      back = Kysely.ExecuteThenSelect query
      /\ Query.from query = model
      /\ Query.limit query = Some 1%Z
      /\ Query.wheres query = [EBin (getFieldName model field) "=" value].
Proof.
  intros schema model first rest values st back Hmysql Hfield Hup field value.
  unfold Kysely.update in Hup.
  destruct (Kysely.filtered config getFieldName toISOString dateToString numberToString
              UpdateTable schema model (Some (first :: rest)) (Some values));
    [|discriminate].
  injection Hup as _ <-.
  unfold Kysely.withReturning. rewrite Hmysql.
  assert (Hf : Kysely.returningField values (first :: rest) = field).
  { unfold Kysely.returningField, field.
    destruct (truthy (prop "id" values)); [reflexivity|].
    apply String.eqb_neq in Hfield. now rewrite Hfield. }
  rewrite Hf.
  assert (Hv : Kysely.returningValue values (first :: rest) field = value)
    by reflexivity.
  rewrite Hv. rewrite andb_false_r.
  eexists. split; [reflexivity|]. now repeat split.
Qed.

End ReadingBack.

(** ** More on the regrouping of joined rows *)

Lemma updateAt_length_app {A : Type} (f : A -> A) (l : list A) x :
  Kysely.updateAt (List.length l) f (l ++ [x]) = l ++ [f x].
Proof. induction l as [|y l IH]; simpl; [reflexivity | now rewrite IH]. Qed.

Lemma updateAt_In {A : Type} (f : A -> A) i (l : list A) x :
  In x l -> In x (Kysely.updateAt i f l) \/ In (f x) (Kysely.updateAt i f l).
Proof.
  revert i. induction l as [|y l IH]; intros i H; [contradiction|].
  destruct H as [-> | H]; destruct i; simpl.
  - right. now left.
  - left. now left.
  - left. now right.
  - destruct (IH i H); [left | right]; now right.
Qed.

Lemma updateAt_mapIndex (f : JS.value * obj -> JS.value * obj) k m i :
  Kysely.mapIndex k m = Some i ->
  exists e, In (k, e) m /\ In (f (k, e)) (Kysely.updateAt i f m).
Proof.
  revert i. induction m as [|[k' e'] m IH]; intros i; simpl; [discriminate|].
  destruct (strictEq k' k) eqn:E.
  - intros [= <-]. apply strictEq_true in E. subst. exists e'. split; now left.
  - destruct (Kysely.mapIndex k m) as [j|]; [|discriminate].
    intros [= <-]. destruct (IH j eq_refl) as (e & H1 & H2).
    exists e. split; now right.
Qed.

Lemma updateAt_Forall_at {A : Type} (P : A -> Prop) (f : A -> A) i l :
  (forall x, P (f x)) -> Forall P l -> Forall P (Kysely.updateAt i f l).
Proof. intros Hf. apply updateAt_Forall. intros x _. apply Hf. Qed.

Set Warnings "-notation-for-abbreviation".

Section JoinedRecords.

Variable getDefaultModelName : string -> string.
Variable schema : Schema.
Variable joinConfig : JoinConfig.
Variable allSelectsStr : list string.

Local Notation nameOf := (fun e : string * Join.JoinAttr =>
                            getDefaultModelName (fst e)).
Local Notation processRow :=
  (Kysely.processRow getDefaultModelName schema joinConfig allSelectsStr).
Local Notation mainId := (mainIdOf joinConfig allSelectsStr).
Local Notation addJoinedRecord :=
  (Kysely.addJoinedRecord getDefaultModelName schema).
Local Notation initEntry :=
  (Kysely.initEntry getDefaultModelName schema joinConfig).
Local Notation distributeColumns :=
  (Kysely.distributeColumns joinConfig allSelectsStr).

(** The three ways the loop body goes. *)
Lemma processRow_cases groups row :
  let main := fst (distributeColumns row) in
  let joined := snd (distributeColumns row) in
  let f := fun ke : JS.value * obj =>
             (fst ke, fold_left (addJoinedRecord joined) joinConfig (snd ke)) in
  (truthy (mainId row) = false /\ processRow groups row = groups)
  \/ (truthy (mainId row) = true
      /\ exists i, Kysely.mapIndex (mainId row) groups = Some i
                   /\ processRow groups row = Kysely.updateAt i f groups)
  \/ (truthy (mainId row) = true
      /\ Kysely.mapIndex (mainId row) groups = None
      /\ processRow groups row
         = groups ++ [f (mainId row, initEntry main)]).
Proof.
  intros main joined f. unfold main, joined, f, Kysely.processRow, mainIdOf.
  destruct (distributeColumns row) as [m j]. simpl fst. simpl snd.
  destruct (truthy (prop "id" m)) eqn:Ht; simpl negb; cbv iota.
  - right. destruct (Kysely.mapIndex (prop "id" m) groups) eqn:Hm.
    + left. split; [reflexivity|]. exists n. split; reflexivity.
    + right. split; [reflexivity|]. split; [reflexivity|].
      now rewrite updateAt_length_app.
  - left. split; reflexivity.
Qed.

Lemma groupRows_keys_extend rows : forall groups,
  exists later,
    map fst (fold_left processRow rows groups) = map fst groups ++ later.
Proof.
  induction rows as [|row rows IH]; intros groups; simpl.
  - exists []. now rewrite app_nil_r.
  - destruct (IH (processRow groups row)) as [l Hl]. rewrite Hl.
    rewrite (processRow_keys getDefaultModelName schema joinConfig
               allSelectsStr groups row).
    destruct (truthy (mainId row));
      [destruct (Kysely.mapIndex (mainId row) groups)|].
    + now exists l.
    + exists ([mainId row] ++ l). now rewrite app_assoc.
    + now exists l.
Qed.

Lemma groupRows_keys_distinct rows : forall groups,
  Forall (fun row => truthy (mainId row) = true) rows ->
  NoDup (map fst groups ++ map mainId rows) ->
  map fst (fold_left processRow rows groups)
  = map fst groups ++ map mainId rows.
Proof.
  induction rows as [|row rows IH]; intros groups Ht Hnd; simpl.
  - now rewrite app_nil_r.
  - inversion Ht as [|? ? Hrow Hrows]; subst.
    assert (Hkeys : map fst (processRow groups row)
                    = map fst groups ++ [mainId row]).
    { rewrite (processRow_keys getDefaultModelName schema joinConfig
                 allSelectsStr groups row), Hrow.
      destruct (Kysely.mapIndex (mainId row) groups) eqn:Hm; [|reflexivity].
      exfalso. apply mapIndex_Some_In in Hm.
      simpl in Hnd. apply NoDup_remove_2 in Hnd. apply Hnd.
      apply in_or_app. now left. }
    rewrite IH; [|exact Hrows|].
    + rewrite Hkeys, <- app_assoc. reflexivity.
    + rewrite Hkeys, <- app_assoc. exact Hnd.
Qed.

(** Each record carries the identifier it is grouped under. *)
Lemma groupRows_ids rows :
  ~ In "id" (map nameOf joinConfig) ->
  map (prop "id")
    (map snd
       (Kysely.groupRows getDefaultModelName schema joinConfig allSelectsStr
          rows))
  = map fst
      (Kysely.groupRows getDefaultModelName schema joinConfig allSelectsStr
         rows).
Proof.
  intros Hid.
  assert (H : Forall (fun ke : JS.value * obj => prop "id" (snd ke) = fst ke)
                (Kysely.groupRows getDefaultModelName schema joinConfig
                   allSelectsStr rows)).
  { apply (groupRows_records getDefaultModelName schema joinConfig
             allSelectsStr (fun ke => prop "id" (snd ke) = fst ke)).
    - intros main. simpl. unfold prop.
      now rewrite (initEntry_other getDefaultModelName schema "id" joinConfig
                     Hid).
    - intros joined k entry e _ He Hke. simpl in *. unfold prop in *.
      rewrite addJoinedRecord_other; [exact Hke|].
      intros Heq. apply Hid. rewrite Heq.
      now apply (in_map (fun e0 => getDefaultModelName (fst e0))). }
  induction H as [|ke l Hke _ IH]; simpl; [reflexivity|].
  now rewrite Hke, IH.
Qed.

Lemma processJoinedResults_groups rows baseModel :
  Kysely.processJoinedResults getDefaultModelName schema rows baseModel
    (Some joinConfig) allSelectsStr
  = map snd
      (Kysely.groupRows getDefaultModelName schema joinConfig allSelectsStr
         rows).
Proof. unfold Kysely.processJoinedResults. now destruct rows. Qed.

(** The steps that add joined records write the slots of the joined models
    only. *)
Lemma addJoinedRecords_other joined key : forall (jc : JoinConfig) entry,
  ~ In key (map nameOf jc) ->
  get key (fold_left (addJoinedRecord joined) jc entry) = get key entry.
Proof.
  induction jc as [|e jc IH]; intros entry Hk; simpl; [reflexivity|].
  rewrite IH by (intros H; apply Hk; now right).
  apply addJoinedRecord_other. intros ->. apply Hk. now left.
Qed.

(** A later row leaves the first record first, and its base fields as they
    are. *)
Lemma processRow_head k e gs row :
  exists e' gs',
    processRow ((k, e) :: gs) row = (k, e') :: gs'
    /\ forall key, ~ In key (map nameOf joinConfig) -> get key e' = get key e.
Proof.
  destruct (processRow_cases ((k, e) :: gs) row)
    as [[_ ->] | [(_ & i & _ & ->) | (_ & _ & ->)]].
  - exists e, gs. now split.
  - destruct i; simpl.
    + eexists. eexists. split; [reflexivity|].
      intros key Hkey. now apply addJoinedRecords_other.
    + eexists. eexists. split; [reflexivity|]. reflexivity.
  - simpl. eexists. eexists. split; [reflexivity|]. reflexivity.
Qed.

Lemma groupRows_head rows : forall k e gs,
  exists e' gs',
    fold_left processRow rows ((k, e) :: gs) = (k, e') :: gs'
    /\ forall key, ~ In key (map nameOf joinConfig) -> get key e' = get key e.
Proof.
  induction rows as [|row rows IH]; intros k e gs; simpl.
  - exists e, gs. now split.
  - destruct (processRow_head k e gs row) as (e1 & gs1 & -> & H1).
    destruct (IH k e1 gs1) as (e2 & gs2 & -> & H2).
    exists e2, gs2. split; [reflexivity|].
    intros key Hkey. now rewrite H2, H1.
Qed.

Lemma groupRows_first row rest :
  truthy (mainId row) = true ->
  exists entry others,
    Kysely.groupRows getDefaultModelName schema joinConfig allSelectsStr
      (row :: rest)
    = (mainId row, entry) :: others
    /\ forall key,
         ~ In key (map nameOf joinConfig) ->
         get key entry = get key (fst (distributeColumns row)).
Proof.
  intros Ht. unfold Kysely.groupRows. simpl.
  destruct (processRow_cases [] row)
    as [[Hf _] | [(_ & i & Hi & _) | (_ & _ & ->)]].
  - rewrite Hf in Ht. discriminate.
  - discriminate.
  - simpl.
    destruct (groupRows_head rest (mainId row)
                (fold_left (addJoinedRecord (snd (distributeColumns row)))
                   joinConfig (initEntry (fst (distributeColumns row)))) [])
      as (e' & gs' & -> & H).
    exists e', gs'. split; [reflexivity|].
    intros key Hkey. rewrite (H key Hkey).
    rewrite addJoinedRecords_other by exact Hkey.
    now apply initEntry_other.
Qed.

Hypothesis distinctModels : NoDup (map nameOf joinConfig).

(** The slot of a joined model with a list keeps a list through every step,
    and what holds of the list goes on holding when records are added. *)
Lemma addJoinedRecord_list (Q : list JS.value -> Prop) joined jm ja entry e :
  (forall items x, Q items -> Q (items ++ [x])) ->
  In (jm, ja) joinConfig ->
  Kysely.isUnique schema (getDefaultModelName jm) ja = false ->
  In e joinConfig ->
  (exists items,
      get (getDefaultModelName jm) entry = Some (VArr items) /\ Q items) ->
  exists items,
    get (getDefaultModelName jm) (addJoinedRecord joined entry e)
    = Some (VArr items)
    /\ Q items.
Proof.
  intros HQ Hin Hu He (items & Hitems & Hq).
  destruct (String.eqb (getDefaultModelName jm) (nameOf e)) eqn:E.
  - apply String.eqb_eq in E.
    assert (Heq : (jm, ja) = e).
    { apply (NoDup_map_injective nameOf joinConfig); auto. }
    subst e. unfold Kysely.addJoinedRecord. rewrite Hu, Hitems.
    destruct (truthy (Kysely.idOf (prop jm joined)));
      [|exists items; now split].
    destruct (existsb _ items); [exists items; now split|].
    eexists. split; [apply get_set_same|]. now apply HQ.
  - apply String.eqb_neq in E.
    rewrite addJoinedRecord_other by exact E. exists items. now split.
Qed.

Lemma addJoinedRecords_list (Q : list JS.value -> Prop) joined jm ja :
  (forall items x, Q items -> Q (items ++ [x])) ->
  In (jm, ja) joinConfig ->
  Kysely.isUnique schema (getDefaultModelName jm) ja = false ->
  forall (jc : JoinConfig) entry,
    incl jc joinConfig ->
    (exists items,
        get (getDefaultModelName jm) entry = Some (VArr items) /\ Q items) ->
    exists items,
      get (getDefaultModelName jm) (fold_left (addJoinedRecord joined) jc entry)
      = Some (VArr items)
      /\ Q items.
Proof.
  intros HQ Hin Hu jc entry Hincl.
  apply (fold_left_preserves
           (fun entry' =>
              exists items,
                get (getDefaultModelName jm) entry' = Some (VArr items)
                /\ Q items)).
  intros a e He Ha.
  apply (addJoinedRecord_list Q joined jm ja a e HQ Hin Hu); auto.
Qed.

(** After the steps of one row, the list of a joined model has a record with
    the identifier of the row's joined object. *)
Lemma addJoinedRecords_has joined jm ja entry :
  In (jm, ja) joinConfig ->
  Kysely.isUnique schema (getDefaultModelName jm) ja = false ->
  truthy (Kysely.idOf (prop jm joined)) = true ->
  (exists items, get (getDefaultModelName jm) entry = Some (VArr items)) ->
  exists items item,
    get (getDefaultModelName jm)
      (fold_left (addJoinedRecord joined) joinConfig entry)
    = Some (VArr items)
    /\ In item items
    /\ Kysely.idOf item = Kysely.idOf (prop jm joined).
Proof.
  intros Hin Hu Hid (items0 & Hitems0).
  destruct (in_split _ _ Hin) as (l1 & l2 & Hsplit).
  assert (Hl1 : incl l1 joinConfig).
  { rewrite Hsplit. intros x Hx. apply in_or_app. now left. }
  assert (Hl2 : incl l2 joinConfig).
  { rewrite Hsplit. intros x Hx. apply in_or_app. right. now right. }
  rewrite Hsplit. rewrite fold_left_app. simpl.
  destruct (addJoinedRecords_list (fun _ => True) joined jm ja
              (fun _ _ _ => I) Hin Hu l1 entry Hl1)
    as (items1 & Hitems1 & _); [exists items0; now split|].
  set (entry1 := fold_left (addJoinedRecord joined) l1 entry) in *.
  destruct (addJoinedRecords_list
              (fun items =>
                 exists item,
                   In item items
                   /\ Kysely.idOf item = Kysely.idOf (prop jm joined))
              joined jm ja) with (jc := l2)
              (entry := addJoinedRecord joined entry1 (jm, ja))
    as (items & Hitems & item & Hitem & Heq); auto.
  - intros its x (item & Hitem & Heq). exists item. split; [|exact Heq].
    apply in_or_app. now left.
  - unfold Kysely.addJoinedRecord. rewrite Hu, Hitems1, Hid.
    destruct (existsb
                (fun item =>
                   strictEq (Kysely.idOf item)
                     (Kysely.idOf (prop jm joined))) items1) eqn:Hex.
    + exists items1. split; [exact Hitems1|].
      apply existsb_exists in Hex. destruct Hex as (item & Hitem & Hs).
      exists item. split; [exact Hitem | now apply strictEq_true].
    + eexists. split; [apply get_set_same|].
      exists (prop jm joined). split; [|reflexivity].
      apply in_or_app. right. now left.
  - exists items, item. now repeat split.
Qed.

(** After the steps of one row, the slot of a joined model with a unique
    join field holds the row's joined object. *)
Lemma addJoinedRecords_unique joined jm ja entry :
  joinedObjectsOf joinConfig joined ->
  In (jm, ja) joinConfig ->
  Kysely.isUnique schema (getDefaultModelName jm) ja = true ->
  exists o,
    get jm joined = Some (VObj o)
    /\ get (getDefaultModelName jm)
         (fold_left (addJoinedRecord joined) joinConfig entry)
       = Some (VObj o).
Proof.
  intros Hobj Hin Hu.
  destruct (Hobj jm ja Hin) as [o Ho]. exists o. split; [exact Ho|].
  destruct (in_split _ _ Hin) as (l1 & l2 & Hsplit).
  assert (Hnot : ~ In (getDefaultModelName jm) (map nameOf l2)).
  { pose proof distinctModels as Hnd. rewrite Hsplit, map_app in Hnd.
    simpl in Hnd. apply NoDup_remove_2 in Hnd.
    intros H. apply Hnd. apply in_or_app. now right. }
  rewrite Hsplit. rewrite fold_left_app. simpl.
  rewrite addJoinedRecords_other by exact Hnot.
  unfold Kysely.addJoinedRecord. rewrite Hu.
  rewrite get_set_same. unfold prop. now rewrite Ho.
Qed.

Lemma processRow_entryOk groups row :
  Forall (fun ke : JS.value * obj =>
            entryOkFor getDefaultModelName schema joinConfig (snd ke)) groups ->
  Forall (fun ke : JS.value * obj =>
            entryOkFor getDefaultModelName schema joinConfig (snd ke))
    (processRow groups row).
Proof.
  apply (processRow_records getDefaultModelName schema joinConfig
           allSelectsStr
           (fun ke => entryOkFor getDefaultModelName schema joinConfig
                        (snd ke))).
  - intros main _. simpl. now apply initEntry_ok.
  - intros joined k entry e Hobj He Hke. simpl in *.
    now apply addJoinedRecord_ok.
Qed.

End JoinedRecords.

Section JoinedRecordKept.

Variable getDefaultModelName : string -> string.
Variable schema : Schema.
Variable joinConfig : JoinConfig.
Variable allSelectsStr : list string.
Variable jm : string.
Variable ja : Join.JoinAttr.
Variable mainKey joinedKey : JS.value.

Hypothesis distinctModels :
  NoDup (map (fun e : string * Join.JoinAttr => getDefaultModelName (fst e))
           joinConfig).
Hypothesis joined : In (jm, ja) joinConfig.
Hypothesis known : Kysely.modelFields schema (getDefaultModelName jm) <> None.
Hypothesis listed : Kysely.isUnique schema (getDefaultModelName jm) ja = false.

Local Notation processRow :=
  (Kysely.processRow getDefaultModelName schema joinConfig allSelectsStr).
Local Notation mainId := (mainIdOf joinConfig allSelectsStr).
Local Notation joinedObj row :=
  (prop jm (snd (Kysely.distributeColumns joinConfig allSelectsStr row))).
Local Notation holds groups :=
  (exists entry items item,
      In (mainKey, entry) groups
      /\ get (getDefaultModelName jm) entry = Some (VArr items)
      /\ In item items
      /\ Kysely.idOf item = joinedKey).
Local Notation entriesOk groups :=
  (Forall (fun ke : JS.value * obj =>
             entryOkFor getDefaultModelName schema joinConfig (snd ke))
     groups).

Lemma processRow_keeps groups row :
  holds groups -> holds (processRow groups row).
Proof.
  intros (entry & items & item & Hg & Hget & Hitem & Hid).
  destruct (processRow_cases getDefaultModelName schema joinConfig
              allSelectsStr groups row)
    as [[_ ->] | [(_ & i & _ & ->) | (_ & _ & ->)]].
  - exists entry, items, item. auto.
  - match goal with
    | |- context [Kysely.updateAt i ?f groups] =>
        destruct (updateAt_In f i groups (mainKey, entry) Hg) as [H | H]
    end.
    + exists entry, items, item. auto.
    + simpl in H.
      destruct (addJoinedRecords_list getDefaultModelName schema joinConfig
                  distinctModels (fun its => In item its)
                  (snd (Kysely.distributeColumns joinConfig allSelectsStr row))
                  jm ja)
        with (jc := joinConfig) (entry := entry)
        as (items' & Hget' & Hitem'); auto.
      * intros its x Hx. apply in_or_app. now left.
      * apply incl_refl.
      * exists items. now split.
      * eexists. exists items', item. split; [exact H|]. auto.
  - exists entry, items, item. split; [|auto].
    apply in_or_app. now left.
Qed.

Lemma processRow_adds groups row :
  entriesOk groups ->
  mainId row = mainKey ->
  truthy mainKey = true ->
  Kysely.idOf (joinedObj row) = joinedKey ->
  truthy joinedKey = true ->
  holds (processRow groups row).
Proof.
  intros Hok Hmain Ht Hjoined Hj.
  assert (Hstep : forall entry,
             (exists items,
                 get (getDefaultModelName jm) entry = Some (VArr items)) ->
             exists items item,
               get (getDefaultModelName jm)
                 (fold_left
                    (Kysely.addJoinedRecord getDefaultModelName schema
                       (snd (Kysely.distributeColumns joinConfig
                               allSelectsStr row)))
                    joinConfig entry)
               = Some (VArr items)
               /\ In item items
               /\ Kysely.idOf item = joinedKey).
  { intros entry Hentry. rewrite <- Hjoined.
    apply (addJoinedRecords_has getDefaultModelName schema joinConfig
             distinctModels _ jm ja entry joined listed); [|exact Hentry].
    now rewrite Hjoined. }
  destruct (processRow_cases getDefaultModelName schema joinConfig
              allSelectsStr groups row)
    as [[Hf _] | [(_ & i & Hi & ->) | (_ & _ & ->)]].
  - rewrite Hmain, Ht in Hf. discriminate.
  - rewrite Hmain in Hi.
    match goal with
    | |- context [Kysely.updateAt i ?f groups] =>
        destruct (updateAt_mapIndex f mainKey groups i Hi) as (e & He & Hfe)
    end.
    simpl in Hfe.
    assert (Hslot : exists items,
               get (getDefaultModelName jm) e = Some (VArr items)).
    { rewrite Forall_forall in Hok. specialize (Hok _ He jm ja joined known).
      simpl in Hok. rewrite listed in Hok.
      destruct Hok as (items & Hitems & _). now exists items. }
    destruct (Hstep e Hslot) as (items & item & H1 & H2 & H3).
    eexists. exists items, item. split; [exact Hfe|]. now repeat split.
  - rewrite Hmain.
    assert (Hslot : exists items,
               get (getDefaultModelName jm)
                 (Kysely.initEntry getDefaultModelName schema joinConfig
                    (fst (Kysely.distributeColumns joinConfig allSelectsStr
                            row)))
               = Some (VArr items)).
    { rewrite (initEntry_slot getDefaultModelName schema joinConfig
                 distinctModels _ jm ja joined known), listed.
      now exists []. }
    destruct (Hstep _ Hslot) as (items & item & H1 & H2 & H3).
    eexists. exists items, item. split; [|split; [exact H1|]].
    + apply in_or_app. right. left. reflexivity.
    + now split.
Qed.

Lemma groupRows_keeps rows : forall groups,
  entriesOk groups ->
  holds groups
  \/ (exists row,
         In row rows /\ mainId row = mainKey /\ truthy mainKey = true
         /\ Kysely.idOf (joinedObj row) = joinedKey
         /\ truthy joinedKey = true) ->
  holds (fold_left processRow rows groups).
Proof.
  induction rows as [|r rows IH]; intros groups Hok H; simpl.
  - destruct H as [H | (row & [] & _)]. exact H.
  - apply IH.
    + now apply processRow_entryOk.
    + destruct H as [H | (row & [<- | Hrow] & H1 & H2 & H3 & H4)].
      * left. now apply processRow_keeps.
      * left. now apply processRow_adds.
      * right. exists row. auto.
Qed.

End JoinedRecordKept.


Section JoinedSlots.

Variable getDefaultModelName : string -> string.
Variable schema : Schema.
Variable joinConfig : JoinConfig.
Variable allSelectsStr : list string.

Local Notation nameOf := (fun e : string * Join.JoinAttr =>
                            getDefaultModelName (fst e)).
Local Notation mainId := (mainIdOf joinConfig allSelectsStr).
Local Notation addJoinedRecord :=
  (Kysely.addJoinedRecord getDefaultModelName schema).
Local Notation initEntry :=
  (Kysely.initEntry getDefaultModelName schema joinConfig).
Local Notation distributeColumns :=
  (Kysely.distributeColumns joinConfig allSelectsStr).


Hypothesis distinctModels : NoDup (map nameOf joinConfig).


End JoinedSlots.


(** X12.  The records leave [processJoinedResults] in the order in which
    their identifiers first occur in the rows: what further rows add comes
    after the records of the rows before them, and rows that all have an
    identifier, no two the same, give one record per row, in the rows'
    order. *)
Theorem joined_records_follow_row_order :
  forall (getDefaultModelName : string -> string) (schema : Schema)
         (joinConfig : JoinConfig) (allSelectsStr : list string)
         (baseModel : string) (rows more : list obj),
    ~ In "id" (map (fun e => getDefaultModelName (fst e)) joinConfig) ->
    let ids rs :=
      map (prop "id")
        (Kysely.processJoinedResults getDefaultModelName schema rs baseModel
           (Some joinConfig) allSelectsStr) in
    (exists later, ids (rows ++ more) = ids rows ++ later)
    /\ (Forall (fun row => truthy (mainIdOf joinConfig allSelectsStr row) = true)
          rows ->
        NoDup (map (mainIdOf joinConfig allSelectsStr) rows) ->
        ids rows = map (mainIdOf joinConfig allSelectsStr) rows).
Proof.
  intros gdm schema jc sel baseModel rows more Hid ids.
  assert (Hids : forall rs,
             ids rs = map fst (Kysely.groupRows gdm schema jc sel rs)).
  { intros rs. unfold ids. rewrite processJoinedResults_groups.
    now apply groupRows_ids. }
  split.
  - rewrite !Hids. unfold Kysely.groupRows. rewrite fold_left_app.
    apply groupRows_keys_extend.
  - intros Ht Hnd. rewrite Hids. unfold Kysely.groupRows.
    now rewrite groupRows_keys_distinct.
Qed.

(** X13.  With a join, [findOne] hands back the record of the first row the
    driver yields, when that row has an identifier: every field of the
    record other than the slots of the joined models is that row's column of
    the same name, whatever the rows after it hold. *)
Theorem findOne_joined_record_is_from_first_row :
  forall (config : option Config.KyselyAdapterConfig)
         (getFieldName : string -> string -> string)
         (getDefaultModelName : string -> string)
         (toISOString dateToString numberToString : Z -> string)
         (execute : Query.SelectQuery -> list obj)
         (schema : Schema) (model : string)
         (where_ : option (list Where.Clause)) (joinConfig : JoinConfig)
         (st : Selects.SelectState) (query : Query.SelectQuery)
         (first : obj) (rest : list obj),
    Kysely.findOneQuery config getFieldName getDefaultModelName toISOString
      dateToString numberToString schema model where_ (Some joinConfig) = Some (st, query) ->
    execute query = first :: rest ->
    truthy (mainIdOf joinConfig (Selects.allSelectsStr st) first) = true ->
    exists record,
      Kysely.findOne config getFieldName getDefaultModelName toISOString
        dateToString numberToString execute schema model where_ (Some joinConfig)
      = Some (VObj record)
      /\ forall key,
           ~ In key (map (fun e => getDefaultModelName (fst e)) joinConfig) ->
           get key record
           = get key
               (fst (Kysely.distributeColumns joinConfig
                       (Selects.allSelectsStr st) first)).
Proof.
  intros config gfn gdm toISO dts nts execute schema model w jc st query first
    rest Hq Hrows Ht.
  unfold Kysely.findOne. rewrite Hq, Hrows.
  rewrite processJoinedResults_groups.
  destruct (groupRows_first gdm (Selects.schema st) jc
              (Selects.allSelectsStr st) first rest Ht)
    as (entry & others & -> & H).
  simpl. exists entry. split; [reflexivity | exact H].
Qed.

(** X14.  No joined record is lost: when a row has an identifier and its
    columns of a joined model whose slot is a list have one too, the record
    of the row's identifier holds, in that list, a record with the joined
    identifier. *)
Theorem joined_record_is_never_lost :
  forall (getDefaultModelName : string -> string) (schema : Schema)
         (joinConfig : JoinConfig) (allSelectsStr : list string)
         (rows : list obj) (row : obj) (jm : string) (ja : Join.JoinAttr),
    NoDup (map (fun e => getDefaultModelName (fst e)) joinConfig) ->
    In (jm, ja) joinConfig ->
    Kysely.modelFields schema (getDefaultModelName jm) <> None ->
    Kysely.isUnique schema (getDefaultModelName jm) ja = false ->
    In row rows ->
    truthy (mainIdOf joinConfig allSelectsStr row) = true ->
    let joinedObj :=
      prop jm (snd (Kysely.distributeColumns joinConfig allSelectsStr row)) in
    truthy (Kysely.idOf joinedObj) = true ->
    exists record items item,
      In (mainIdOf joinConfig allSelectsStr row, record)
        (Kysely.groupRows getDefaultModelName schema joinConfig allSelectsStr
           rows)
      /\ get (getDefaultModelName jm) record = Some (VArr items)
      /\ In item items
      /\ Kysely.idOf item = Kysely.idOf joinedObj.
Proof.
  intros gdm schema jc sel rows row jm ja Hnd Hin Hknown Hu Hrow Ht
    joinedObj Hj.
  unfold Kysely.groupRows.
  apply (groupRows_keeps gdm schema jc sel jm ja
           (mainIdOf jc sel row) (Kysely.idOf joinedObj) Hnd Hin Hknown Hu
           rows []); [constructor|].
  right. exists row. auto.
Qed.

(** X15.  In every record that leaves [processJoinedResults], the slot of a
    joined model with a unique join field holds an object: the [null] the
    slot starts with is overwritten by the joined columns of every row of
    the group, also when the row matched nothing. *)
Theorem unique_join_slot_holds_an_object :
  forall (getDefaultModelName : string -> string) (schema : Schema)
         (joinConfig : JoinConfig) (allSelectsStr : list string)
         (rows : list obj) (baseModel : string) (jm : string)
         (ja : Join.JoinAttr) (record : obj),
    NoDup (map (fun e => getDefaultModelName (fst e)) joinConfig) ->
    In (jm, ja) joinConfig ->
    Kysely.isUnique schema (getDefaultModelName jm) ja = true ->
    In record
      (Kysely.processJoinedResults getDefaultModelName schema rows baseModel
         (Some joinConfig) allSelectsStr) ->
    exists o, get (getDefaultModelName jm) record = Some (VObj o).
Proof.
  intros gdm schema jc sel rows baseModel jm ja record Hnd Hin Hu Hrec.
  rewrite processJoinedResults_groups in Hrec.
  apply in_map_iff in Hrec. destruct Hrec as ([k e] & <- & Hke).
  set (Q := fun ke : JS.value * obj =>
              exists o, get (gdm jm) (snd ke) = Some (VObj o)).
  assert (Hall : Forall Q (Kysely.groupRows gdm schema jc sel rows)).
  { unfold Kysely.groupRows.
    apply (fold_left_preserves (Forall Q)); [|constructor].
    intros groups row _ Hgroups.
    assert (Hf : forall ke : JS.value * obj,
               Q (fst ke,
                  fold_left
                    (Kysely.addJoinedRecord gdm schema
                       (snd (Kysely.distributeColumns jc sel row)))
                    jc (snd ke))).
    { intros ke. unfold Q. simpl.
      destruct (addJoinedRecords_unique gdm schema jc Hnd
                  (snd (Kysely.distributeColumns jc sel row)) jm ja (snd ke)
                  (distributeColumns_objects jc sel row) Hin Hu)
        as (o & _ & Ho).
      now exists o. }
    destruct (processRow_cases gdm schema jc sel groups row)
      as [[_ ->] | [(_ & i & _ & ->) | (_ & _ & ->)]].
    - exact Hgroups.
    - now apply updateAt_Forall_at.
    - apply Forall_app. split; [exact Hgroups|].
      constructor; [apply Hf | constructor]. }
  rewrite Forall_forall in Hall. exact (Hall _ Hke).
Qed.

(** ** The schema after the selects of a join were built *)

Lemma set_get_same {A : Type} k (v : A) o : get k o = Some v -> set k v o = o.
Proof.
  induction o as [|[k' v'] o IH]; simpl; [discriminate|].
  destruct (String.eqb k' k) eqn:E.
  - intros [= ->]. apply String.eqb_eq in E. now subst.
  - intros H. now rewrite (IH H).
Qed.

Lemma get_withIdField fields :
  get "id" (Kysely.withIdField fields) = Some (Field.mkField "string" None None).
Proof. apply get_set_same. Qed.

Section SchemaAfterSelects.

Variable getDefaultModelName : string -> string.

Local Notation joinSelectsStep := (Kysely.joinSelectsStep getDefaultModelName).
Local Notation idWritten schema key :=
  (forall tbl,
      get key schema = Some tbl ->
      get "id" (Table.fields tbl) = Some (Field.mkField "string" None None)).

Lemma step_keeps_idWritten st e key :
  idWritten (Selects.schema st) key ->
  idWritten (Selects.schema (joinSelectsStep st e)) key.
Proof.
  intros H. unfold Kysely.joinSelectsStep.
  destruct (get (getDefaultModelName (fst e)) (Selects.schema st))
    as [tbl|] eqn:Ht; [|exact H].
  simpl. intros tbl'.
  destruct (String.eqb (getDefaultModelName (fst e)) key) eqn:E.
  - apply String.eqb_eq in E. subst key. rewrite get_set_same.
    intros [= <-]. apply get_withIdField.
  - apply String.eqb_neq in E. rewrite get_set_other by congruence. apply H.
Qed.

Lemma step_writes_id st e :
  idWritten (Selects.schema (joinSelectsStep st e))
    (getDefaultModelName (fst e)).
Proof.
  unfold Kysely.joinSelectsStep.
  destruct (get (getDefaultModelName (fst e)) (Selects.schema st))
    as [tbl|] eqn:Ht.
  - simpl. intros tbl'. rewrite get_set_same. intros [= <-].
    apply get_withIdField.
  - intros tbl'. rewrite Ht. discriminate.
Qed.

Lemma fold_writes_id jc : forall st e,
  In e jc ->
  idWritten (Selects.schema (fold_left joinSelectsStep jc st))
    (getDefaultModelName (fst e)).
Proof.
  induction jc as [|e' jc IH]; intros st e Hin; [contradiction|].
  simpl. destruct Hin as [-> | Hin]; [|now apply IH].
  apply (fold_left_preserves
           (fun st' =>
              idWritten (Selects.schema st') (getDefaultModelName (fst e)))).
  - intros a b _. apply step_keeps_idWritten.
  - apply step_writes_id.
Qed.

Lemma table_eta tbl :
  Table.mkTable (Table.modelName tbl) (Table.fields tbl) = tbl.
Proof. now destruct tbl. Qed.

(** One step on a schema that already has the identifiers written, next to
    the same step on a schema it comes from. *)
Lemma step_replay st st2 e :
  idFieldsAdded (Selects.schema st) (Selects.schema st2) ->
  idWritten (Selects.schema st2) (getDefaultModelName (fst e)) ->
  Selects.allSelects st2 = Selects.allSelects st ->
  Selects.allSelectsStr st2 = Selects.allSelectsStr st ->
  Selects.schema (joinSelectsStep st2 e) = Selects.schema st2
  /\ Selects.allSelects (joinSelectsStep st2 e)
     = Selects.allSelects (joinSelectsStep st e)
  /\ Selects.allSelectsStr (joinSelectsStep st2 e)
     = Selects.allSelectsStr (joinSelectsStep st e)
  /\ idFieldsAdded (Selects.schema (joinSelectsStep st e)) (Selects.schema st2).
Proof.
  intros HR Hid Hsel Hstr. unfold Kysely.joinSelectsStep.
  destruct (HR (getDefaultModelName (fst e))) as [Hsame | (tbl & H0 & H1)].
  - rewrite Hsame.
    destruct (get (getDefaultModelName (fst e)) (Selects.schema st))
      as [tbl|] eqn:Ht; [|now repeat split].
    assert (Hfix : Kysely.withIdField (Table.fields tbl) = Table.fields tbl).
    { apply set_get_same. apply Hid. exact Hsame. }
    simpl. rewrite Hfix, table_eta, Hsel, Hstr.
    split; [now apply set_get_same|]. split; [reflexivity|].
    split; [reflexivity|].
    intros key.
    destruct (String.eqb (getDefaultModelName (fst e)) key) eqn:E.
    + apply String.eqb_eq in E. subst key. left.
      now rewrite get_set_same, Hsame.
    + apply String.eqb_neq in E. rewrite get_set_other by congruence.
      apply HR.
  - rewrite H0, H1. simpl.
    assert (Hfix : Kysely.withIdField (Kysely.withIdField (Table.fields tbl))
                   = Kysely.withIdField (Table.fields tbl))
      by apply set_set_same.
    rewrite Hfix, Hsel, Hstr.
    split; [now apply set_get_same|]. split; [reflexivity|].
    split; [reflexivity|].
    intros key.
    destruct (String.eqb (getDefaultModelName (fst e)) key) eqn:E.
    + apply String.eqb_eq in E. subst key. left.
      now rewrite get_set_same, H1.
    + apply String.eqb_neq in E. rewrite get_set_other by congruence.
      apply HR.
Qed.

Lemma fold_replay jc : forall st st2,
  idFieldsAdded (Selects.schema st) (Selects.schema st2) ->
  (forall e, In e jc ->
             idWritten (Selects.schema st2) (getDefaultModelName (fst e))) ->
  Selects.allSelects st2 = Selects.allSelects st ->
  Selects.allSelectsStr st2 = Selects.allSelectsStr st ->
  Selects.schema (fold_left joinSelectsStep jc st2) = Selects.schema st2
  /\ Selects.allSelects (fold_left joinSelectsStep jc st2)
     = Selects.allSelects (fold_left joinSelectsStep jc st)
  /\ Selects.allSelectsStr (fold_left joinSelectsStep jc st2)
     = Selects.allSelectsStr (fold_left joinSelectsStep jc st).
Proof.
  induction jc as [|e jc IH]; intros st st2 HR Hid Hsel Hstr; simpl;
    [now repeat split|].
  destruct (step_replay st st2 e HR (Hid e (or_introl eq_refl)) Hsel Hstr)
    as (Hs & Ha & Hb & HR').
  destruct (IH (joinSelectsStep st e) (joinSelectsStep st2 e)) as (H1 & H2 & H3).
  - now rewrite Hs.
  - intros e' He'. rewrite Hs. apply Hid. now right.
  - exact Ha.
  - exact Hb.
  - rewrite H1, Hs. now repeat split.
Qed.

Lemma fold_idFieldsAdded schema0 jc : forall st,
  idFieldsAdded schema0 (Selects.schema st) ->
  idFieldsAdded schema0 (Selects.schema (fold_left joinSelectsStep jc st)).
Proof.
  intros st. apply (fold_left_preserves
                      (fun st' => idFieldsAdded schema0 (Selects.schema st'))).
  intros a b _. apply step_idFieldsAdded.
Qed.

End SchemaAfterSelects.

Lemma selectState_ext (a b : Selects.SelectState) :
  Selects.schema a = Selects.schema b ->
  Selects.allSelects a = Selects.allSelects b ->
  Selects.allSelectsStr a = Selects.allSelectsStr b ->
  a = b.
Proof. destruct a, b. simpl. now intros -> -> ->. Qed.

(** X16.  Once the selects of a join are built, no join on the field [id] of
    a joined model counts as unique: the [id] field written into the schema
    has no [unique] attribute and replaces the one the schema had, so the
    slot of such a model is a list whatever the schema declared. *)
Theorem join_on_id_is_never_unique :
  forall (getDefaultModelName : string -> string) (schema : Schema)
         (joinConfig : JoinConfig) (jm : string) (ja : Join.JoinAttr),
    In (jm, ja) joinConfig ->
    Join.on_to ja = "id" ->
    Kysely.isUnique
      (Selects.schema
         (Kysely.joinSelects getDefaultModelName schema (Some joinConfig)))
      (getDefaultModelName jm) ja
    = false.
Proof.
  intros gdm schema jc jm ja Hin Hto.
  pose proof (fold_writes_id gdm jc (Selects.mkSelects schema [] []) (jm, ja)
                Hin) as Hid.
  unfold Kysely.isUnique, Kysely.modelFields, Kysely.joinSelects.
  simpl fst in Hid.
  destruct (get (gdm jm)
              (Selects.schema
                 (fold_left (Kysely.joinSelectsStep gdm) jc
                    (Selects.mkSelects schema [] []))))
    as [tbl|] eqn:Ht; [|reflexivity].
  rewrite Hto, (Hid tbl eq_refl). reflexivity.
Qed.

(** X17.  Building the selects of the same join a second time, on the schema
    the first time left behind, asks for the same columns under the same
    aliases and leaves the schema as it is: what a call writes into the
    shared schema does not change the queries of the calls after it. *)
Theorem selects_of_a_join_are_stable :
  forall (getDefaultModelName : string -> string) (schema : Schema)
         (joinConfig : JoinConfig),
    let first :=
      Kysely.joinSelects getDefaultModelName schema (Some joinConfig) in
    let second :=
      Kysely.joinSelects getDefaultModelName (Selects.schema first)
        (Some joinConfig) in
    second = first.
Proof.
  intros gdm schema jc first second.
  destruct (fold_replay gdm jc (Selects.mkSelects schema [] [])
              (Selects.mkSelects (Selects.schema first) [] []))
    as (H1 & H2 & H3).
  - apply (fold_idFieldsAdded gdm schema jc (Selects.mkSelects schema [] [])).
    intros key. now left.
  - intros e He. apply (fold_writes_id gdm jc _ e He).
  - reflexivity.
  - reflexivity.
  - apply selectState_ext; assumption.
Qed.

(** ** Aliases and model names *)

Lemma append_assoc (a b c : string) :
  ((a ++ b) ++ c = a ++ b ++ c)%string.
Proof. induction a as [|x a IH]; simpl; [reflexivity | now rewrite IH]. Qed.

(** X18.  Among joined models whose names have no underscore, an alias
    belongs to one model and one column only. *)
Theorem alias_names_one_column :
  forall (model1 column1 model2 column2 : string),
    lacksChar "_" model1 = true ->
    lacksChar "_" model2 = true ->
    Kysely.joinedAlias model1 column1 = Kysely.joinedAlias model2 column2 ->
    model1 = model2 /\ column1 = column2.
Proof.
  intros m1 c1 m2 c2 H1 H2 Heq.
  pose proof (parseJoinedKey_alias m1 c1 H1) as P1.
  pose proof (parseJoinedKey_alias m2 c2 H2) as P2.
  rewrite Heq, P2 in P1. now injection P1 as -> ->.
Qed.

(** X19.  The columns of a joined model whose name has an underscore never
    reach that model's record: the key is cut at the first underscore after
    the prefix, so the value is filed, under the rest of the key, with the
    model named by the part before the underscore when the join has such a
    model, and is dropped when it has none. *)
Theorem underscore_in_model_name_misfiles_columns :
  forall (allSelectsStr : list string) (main joined : obj)
         (before after column : string) (v : JS.value),
    lacksChar "_" before = true ->
    let model := (before ++ "_" ++ after)%string in
    In (Kysely.joinedAlias model column) allSelectsStr ->
    Kysely.distributeColumn allSelectsStr (main, joined)
      (Kysely.joinedAlias model column, v)
    = match get before joined with
      | Some (VObj o) =>
          (main,
           set before (VObj (set (after ++ "_" ++ column)%string v o)) joined)
      | _ => (main, joined)
      end.
Proof.
  intros sel main joined before after column v Hb model Hin.
  assert (Halias : Kysely.joinedAlias model column
                   = Kysely.joinedAlias before (after ++ "_" ++ column)).
  { unfold Kysely.joinedAlias, model. now rewrite append_assoc. }
  unfold Kysely.distributeColumn.
  apply existsb_eqb_In in Hin. rewrite Hin.
  rewrite Halias, (parseJoinedKey_alias before _ Hb). reflexivity.
Qed.

(** ** The sweep of the expired API keys *)

Section ExpiredKeys.

Variable clock : nat -> Z.
Variable modelName : string.

Hypothesis monotone : forall i j, i <= j -> (clock i <= clock j)%Z.

Local Notation deleteAllExpiredApiKeys :=
  (ApiKeyRoutes.deleteAllExpiredApiKeys clock modelName).
Local Notation sweepTimes := (ApiKeyRoutes.sweepTimes clock modelName).

Lemma sweepTimes_spaced calls : forall s,
  Forall (fun byPass => byPass = false) calls ->
  spaced 10000
    match ApiKeyRoutes.lastChecked s with
    | Some last => last :: sweepTimes calls s
    | None => sweepTimes calls s
    end.
Proof.
  induction calls as [|b calls IH]; intros s Hall.
  - simpl. now destruct (ApiKeyRoutes.lastChecked s).
  - inversion Hall as [|? ? Hb Hrest]; subst.
    simpl. unfold ApiKeyRoutes.deleteAllExpiredApiKeys.
    destruct (ApiKeyRoutes.lastChecked s) as [last|] eqn:Hlast; simpl.
    + destruct (clock (ApiKeyRoutes.reads s) - last <? 10000)%Z eqn:Hdiff;
        simpl.
      * exact (IH (ApiKeyRoutes.mkSweepState (Some last)
                     (S (ApiKeyRoutes.reads s))) Hrest).
      * apply Z.ltb_ge in Hdiff.
        pose proof (monotone (ApiKeyRoutes.reads s)
                      (S (ApiKeyRoutes.reads s)) (Nat.le_succ_diag_r _)).
        split; [lia|].
        exact (IH (ApiKeyRoutes.mkSweepState
                     (Some (clock (S (ApiKeyRoutes.reads s))))
                     (S (ApiKeyRoutes.reads s) + 2)) Hrest).
    + exact (IH (ApiKeyRoutes.mkSweepState
                   (Some (clock (ApiKeyRoutes.reads s)))
                   (ApiKeyRoutes.reads s + 2)) Hrest).
Qed.

End ExpiredKeys.

(** X20.  When the clock does not go back, calls that do not bypass the
    check sweep the expired keys at most once in ten seconds: in any run of
    such calls, the times [lastChecked] is set to are at least 10000
    milliseconds apart, the first of them as much after the time it held
    before.  A call that bypasses the check, and the first call of all,
    sweep whatever the time, deleting the keys whose [expiresAt] is less
    than the time of the call. *)
Theorem expired_keys_swept_at_most_every_ten_seconds :
  forall (clock : nat -> Z) (modelName : string),
    (forall i j, i <= j -> (clock i <= clock j)%Z) ->
    (forall calls s,
        Forall (fun byPass => byPass = false) calls ->
        spaced 10000
          match ApiKeyRoutes.lastChecked s with
          | Some last => last :: ApiKeyRoutes.sweepTimes clock modelName calls s
          | None => ApiKeyRoutes.sweepTimes clock modelName calls s
          end)
    /\ (forall byPass s,
          byPass = true \/ ApiKeyRoutes.lastChecked s = None ->
          exists stamp cutoff,
            ApiKeyRoutes.deleteAllExpiredApiKeys clock modelName byPass s
            = (ApiKeyRoutes.mkSweepState (Some stamp)
                 (ApiKeyRoutes.reads s + 2),
               Some (modelName,
                     [Where.mkWhere "expiresAt" (VNum cutoff) (Some "lt")
                        None]))
            /\ (stamp <= cutoff)%Z).
Proof.
  intros clock modelName Hmono. split.
  - intros calls s. now apply sweepTimes_spaced.
  - intros byPass s H. unfold ApiKeyRoutes.deleteAllExpiredApiKeys.
    assert (Hle : (clock (ApiKeyRoutes.reads s)
                   <= clock (ApiKeyRoutes.reads s + 1)%nat)%Z)
      by (apply Hmono; lia).
    destruct H as [-> | ->].
    + destruct (ApiKeyRoutes.lastChecked s); simpl;
        eexists; eexists; (split; [reflexivity | exact Hle]).
    + eexists. eexists. split; [reflexivity | exact Hle].
Qed.

(** ** The lines [init] adds to the [.env] files *)

Lemma joinWith_above (lines rest : list string) :
  rest <> [] ->
  joinWith (String InitCommand.newline EmptyString)
    (lines ++ EmptyString :: rest)
  = (joinWith (String InitCommand.newline EmptyString)
       (lines ++ [EmptyString; EmptyString])
     ++ joinWith (String InitCommand.newline EmptyString) rest)%string.
Proof.
  intros Hrest. destruct rest as [|q rest]; [contradiction|].
  induction lines as [|p lines IH]; [reflexivity|].
  destruct lines as [|p' lines]; simpl app in *.
  - rewrite (joinWith_cons _ p EmptyString (q :: rest)), IH.
    rewrite (joinWith_cons _ p EmptyString [EmptyString]).
    now rewrite !append_assoc.
  - rewrite (joinWith_cons _ p p'), IH, (joinWith_cons _ p p').
    now rewrite !append_assoc.
Qed.

Section EnvLines.

Variable generateSecretHash : nat -> string.

Local Notation getEnvDescription :=
  (InitCommand.getEnvDescription generateSecretHash).
Local Notation envLine := (InitCommand.envLine generateSecretHash).
Local Notation envLines := (InitCommand.envLines generateSecretHash).
Local Notation updateEnvsFrom := (InitCommand.updateEnvsFrom generateSecretHash).

(** With or without a secret, the generator was called once at most. *)
Local Notation counted s :=
  ((InitCommand.previouslyGeneratedSecret s = None
    /\ InitCommand.generated s = 0)
   \/ (InitCommand.previouslyGeneratedSecret s <> None
       /\ InitCommand.generated s = 1)).

Ltac descriptions env :=
  unfold InitCommand.getEnvDescription;
  repeat match goal with
         | |- context [if String.eqb env ?k then _ else _] =>
             destruct (String.eqb env k) eqn:?
         end.

Lemma getEnvDescription_fixed env s secret :
  InitCommand.previouslyGeneratedSecret s = Some secret ->
  snd (getEnvDescription env s) = s.
Proof. intros H. descriptions env; try reflexivity. now rewrite H. Qed.

Lemma getEnvDescription_counted env s :
  counted s -> counted (snd (getEnvDescription env s)).
Proof.
  intros H. descriptions env; try exact H.
  destruct (InitCommand.previouslyGeneratedSecret s) eqn:Hs;
    [simpl; rewrite Hs; exact H|].
  simpl. right. destruct H as [[_ ->] | [H _]]; [|contradiction].
  split; [discriminate | reflexivity].
Qed.

(** When the secret is there at the end, a variable is described with it
    from the start. *)
Lemma getEnvDescription_replay env s s' secret :
  InitCommand.previouslyGeneratedSecret s' = Some secret ->
  (forall secret1,
      InitCommand.previouslyGeneratedSecret (snd (getEnvDescription env s))
      = Some secret1 ->
      secret1 = secret) ->
  fst (getEnvDescription env s') = fst (getEnvDescription env s).
Proof.
  intros Hs'. descriptions env; try reflexivity.
  rewrite Hs'.
  destruct (InitCommand.previouslyGeneratedSecret s) as [secret1|] eqn:Hs;
    simpl; intros Hkeep.
  - rewrite Hs in Hkeep. now rewrite (Hkeep secret1 eq_refl).
  - now rewrite (Hkeep _ eq_refl).
Qed.

Lemma getEnvDescription_no_secret env s :
  InitCommand.previouslyGeneratedSecret (snd (getEnvDescription env s)) = None ->
  snd (getEnvDescription env s) = s.
Proof.
  descriptions env; try reflexivity.
  destruct (InitCommand.previouslyGeneratedSecret s); [reflexivity|].
  discriminate.
Qed.

Lemma envLine_snd c x s :
  snd (envLine c x s) = snd (getEnvDescription x s).
Proof.
  unfold InitCommand.envLine. now destruct (getEnvDescription x s).
Qed.

Lemma envLines_cons c x rest s :
  envLines c (x :: rest) s
  = (fst (envLine c x s) :: fst (envLines c rest (snd (envLine c x s))),
     snd (envLines c rest (snd (envLine c x s)))).
Proof.
  simpl. destruct (envLine c x s) as [line s1]. simpl.
  now destruct (envLines c rest s1).
Qed.

Lemma envLines_fixed c envs : forall s secret,
  InitCommand.previouslyGeneratedSecret s = Some secret ->
  snd (envLines c envs s) = s.
Proof.
  induction envs as [|x envs IH]; intros s secret Hs; [reflexivity|].
  rewrite envLines_cons. simpl snd.
  rewrite envLine_snd, (getEnvDescription_fixed x s secret Hs).
  now apply (IH s secret).
Qed.

Lemma envLines_counted c envs : forall s,
  counted s -> counted (snd (envLines c envs s)).
Proof.
  induction envs as [|x envs IH]; intros s Hs; [exact Hs|].
  rewrite envLines_cons. simpl snd. apply IH.
  rewrite envLine_snd. now apply getEnvDescription_counted.
Qed.

(** A secret, once there, stays. *)
Lemma envLines_keeps_secret c envs s secret :
  InitCommand.previouslyGeneratedSecret s = Some secret ->
  InitCommand.previouslyGeneratedSecret (snd (envLines c envs s))
  = Some secret.
Proof. intros H. now rewrite (envLines_fixed c envs s secret H). Qed.

Lemma envLine_fst_replay c x s s' :
  fst (getEnvDescription x s') = fst (getEnvDescription x s) ->
  fst (envLine c x s') = fst (envLine c x s).
Proof.
  unfold InitCommand.envLine.
  destruct (getEnvDescription x s'), (getEnvDescription x s). simpl.
  now intros ->.
Qed.

Lemma envLines_fst_replay c envs : forall s s' secret,
  InitCommand.previouslyGeneratedSecret s' = Some secret ->
  InitCommand.previouslyGeneratedSecret (snd (envLines c envs s))
  = Some secret ->
  fst (envLines c envs s') = fst (envLines c envs s).
Proof.
  induction envs as [|x envs IH]; intros s s' secret Hs' Hend; [reflexivity|].
  rewrite (envLines_cons c x envs s) in *.
  rewrite (envLines_cons c x envs s'). simpl fst. simpl snd in Hend.
  assert (Hfixed : snd (envLine c x s') = s').
  { rewrite envLine_snd. now apply (getEnvDescription_fixed x s' secret). }
  rewrite Hfixed. f_equal.
  - apply envLine_fst_replay.
    apply (getEnvDescription_replay x s s' secret Hs').
    intros secret1 H1. rewrite <- (envLine_snd c) in H1.
    rewrite (envLines_keeps_secret c envs _ secret1 H1) in Hend.
    now injection Hend.
  - now apply (IH _ s' secret).
Qed.

Lemma envLines_no_secret c envs : forall s,
  InitCommand.previouslyGeneratedSecret (snd (envLines c envs s)) = None ->
  snd (envLines c envs s) = s.
Proof.
  induction envs as [|x envs IH]; intros s Hend; [reflexivity|].
  rewrite envLines_cons. rewrite envLines_cons in Hend. simpl snd in *.
  pose proof (IH _ Hend) as H1. rewrite H1 in Hend. rewrite H1.
  rewrite envLine_snd in *.
  now apply getEnvDescription_no_secret.
Qed.

(** The lines of a second file are those of the first. *)
Lemma envLines_replay c envs s :
  envLines c envs (snd (envLines c envs s))
  = (fst (envLines c envs s), snd (envLines c envs s)).
Proof.
  destruct (InitCommand.previouslyGeneratedSecret (snd (envLines c envs s)))
    as [secret|] eqn:Hend.
  - rewrite (surjective_pairing (envLines c envs (snd (envLines c envs s)))).
    rewrite (envLines_fst_replay c envs s _ secret Hend Hend).
    now rewrite (envLines_fixed c envs _ secret Hend).
  - pose proof (envLines_no_secret c envs s Hend) as Hsame.
    rewrite Hsame. etransitivity; [apply surjective_pairing|].
    now rewrite Hsame.
Qed.

(** The loop over the files, from a state in which the lines of a file are
    [lines] and the state after them [s1]. *)
Lemma updateEnvsFrom_files c envs lines s1 :
  envLines c envs s1 = (lines, s1) ->
  forall files fs s,
    envLines c envs s = (lines, s1) ->
    NoDup files ->
    (forall file, In file files -> get file fs <> None) ->
    exists fs' s',
      updateEnvsFrom envs c files (fs, s) = ((fs', s'), true)
      /\ (s' = s \/ s' = s1)
      /\ (forall file content,
            In file files ->
            get file fs = Some content ->
            get file fs'
            = Some (joinWith (String InitCommand.newline EmptyString)
                      (lines ++ [EmptyString; EmptyString])
                    ++ content)%string)
      /\ (forall file, ~ In file files -> get file fs' = get file fs).
Proof.
  intros Hs1. induction files as [|file files IH]; intros fs s Hs Hnd Hall.
  - exists fs, s. split; [reflexivity|]. split; [now left|].
    split; [intros file content []|reflexivity].
  - inversion Hnd as [|? ? Hnotin Hnd']; subst.
    simpl. unfold InitCommand.updateEnvFile.
    destruct (get file fs) as [content|] eqn:Hfile;
      [|now destruct (Hall file (or_introl eq_refl))].
    rewrite Hs.
    set (written := joinWith (String InitCommand.newline EmptyString)
                      (lines ++ [EmptyString]
                       ++ split InitCommand.newline content)).
    assert (Hwritten : written
                       = (joinWith (String InitCommand.newline EmptyString)
                            (lines ++ [EmptyString; EmptyString])
                          ++ content)%string).
    { unfold written. simpl app.
      rewrite (joinWith_above lines (split InitCommand.newline content)
                 (split_nonempty _ _)).
      now rewrite joinWith_split. }
    destruct (IH (set file written fs) s1 Hs1 Hnd') as (fs' & s' & Hrun & Hs' & Hin & Hout).
    { intros g Hg. rewrite get_set_other; [now apply Hall; right|].
      intros ->. contradiction. }
    exists fs', s'. split; [exact Hrun|]. split.
    + right. now destruct Hs'.
    + split.
      * intros g gc [<- | Hg] Hgc.
        -- rewrite (Hout file Hnotin), get_set_same, Hwritten.
           rewrite Hfile in Hgc. now injection Hgc as ->.
        -- apply Hin; [exact Hg|].
           rewrite get_set_other; [exact Hgc|]. intros ->. contradiction.
      * intros g Hg. rewrite Hout by (intros H; apply Hg; now right).
        apply get_set_other. intros ->. apply Hg. now left.
Qed.

End EnvLines.

(** The loop over files that are all there. *)
Lemma env_files_written :
  forall (generateSecretHash : nat -> string) (envs files : list string)
         (isCommented : bool) (fs : InitCommand.FileSystem),
    NoDup files ->
    (forall file, In file files -> get file fs <> None) ->
    let lines :=
      fst (InitCommand.envLines generateSecretHash isCommented envs
             (InitCommand.mkSecretState None 0)) in
    let above :=
      joinWith (String InitCommand.newline EmptyString)
        (lines ++ [EmptyString; EmptyString]) in
    exists fs' s',
      InitCommand.updateEnvs generateSecretHash envs files isCommented fs
      = ((fs', s'), true)
      /\ (forall file content,
            In file files ->
            get file fs = Some content ->
            get file fs' = Some (above ++ content)%string)
      /\ (forall file, ~ In file files -> get file fs' = get file fs)
      /\ InitCommand.generated s' <= 1.
Proof.
  intros gen envs files c fs Hnd Hall lines above.
  set (s0 := InitCommand.mkSecretState None 0).
  set (s1 := snd (InitCommand.envLines gen c envs s0)).
  assert (Hcount : forall s, s = s0 \/ s = s1 -> InitCommand.generated s <= 1).
  { intros s [-> | ->]; [simpl; lia|].
    destruct (envLines_counted gen c envs s0) as [[_ H] | [_ H]];
      [left; now split | |]; unfold s1; rewrite H; lia. }
  destruct (updateEnvsFrom_files gen c envs lines s1
              (envLines_replay gen c envs s0) files fs s0
              (surjective_pairing _) Hnd Hall)
    as (fs' & s' & Hrun & Hs' & Hin & Hout).
  exists fs', s'. split; [exact Hrun|]. split; [exact Hin|].
  split; [exact Hout | now apply Hcount].
Qed.

(** X21.  [updateEnvs] puts the same lines on top of every file: the lines
    of the variables, one empty line, and then the file's content as it
    was.  A file that is not listed is left alone, and the secret is
    generated once at most, so that every file gets the same secret. *)
Theorem env_files_get_the_same_lines_above_their_content :
  forall (generateSecretHash : nat -> string) (envs files : list string)
         (isCommented : bool) (fs : InitCommand.FileSystem),
    NoDup files ->
    (forall file, In file files -> get file fs <> None) ->
    let lines :=
      fst (InitCommand.envLines generateSecretHash isCommented envs
             (InitCommand.mkSecretState None 0)) in
    let above :=
      joinWith (String InitCommand.newline EmptyString)
        (lines ++ [EmptyString; EmptyString]) in
    exists fs' s',
      InitCommand.updateEnvs generateSecretHash envs files isCommented fs
      = ((fs', s'), true)
      /\ (forall file content,
            In file files ->
            get file fs = Some content ->
            get file fs' = Some (above ++ content)%string)
      /\ (forall file, ~ In file files -> get file fs' = get file fs)
      /\ InitCommand.generated s' <= 1.
Proof.
  intros gen envs files c fs Hnd Hall. cbv zeta.
  exact (env_files_written gen envs files c fs Hnd Hall).
Qed.

(** ** The columns of one row *)

Lemma split_two_parts sep (a b : string) :
  exists h q r, split sep (a ++ String sep b)%string = h :: q :: r.
Proof.
  induction a as [|c a (h & q & r & IH)]; simpl.
  - rewrite Ascii.eqb_refl.
    destruct (split sep b) as [|q r] eqn:Hb; [now apply split_nonempty in Hb|].
    now exists EmptyString, q, r.
  - destruct (Ascii.eqb c sep).
    + rewrite IH. now exists EmptyString, h, (q :: r).
    + rewrite IH. now exists (String c h), q, r.
Qed.

(** A key of the shape of an alias is put together again from the model and
    the field read off it. *)
Lemma parseJoinedKey_inverse model column :
  Kysely.joinedAlias model column
  = Kysely.joinedAlias
      (fst (Kysely.parseJoinedKey (Kysely.joinedAlias model column)))
      (snd (Kysely.parseJoinedKey (Kysely.joinedAlias model column))).
Proof.
  pose proof (joinWith_split "_" (model ++ String "_" column)) as Hjoin.
  destruct (split_two_parts "_" model column) as (h & q & r & Hsplit).
  rewrite Hsplit, joinWith_cons in Hjoin.
  assert (Hparse : Kysely.parseJoinedKey (Kysely.joinedAlias model column)
                   = (h, joinWith "_" (q :: r))).
  { unfold Kysely.parseJoinedKey.
    change (substringFrom 7 (Kysely.joinedAlias model column))
      with (model ++ String "_" column)%string.
    now rewrite Hsplit. }
  rewrite Hparse. unfold Kysely.joinedAlias.
  apply (f_equal (String.append "joined_")). symmetry. exact Hjoin.
Qed.

Section RowColumns.

Variable joinConfig : JoinConfig.
Variable allSelectsStr : list string.

Local Notation distributeColumn := (Kysely.distributeColumn allSelectsStr).

Lemma distributeColumns_main key : forall (row main joined : obj),
  NoDup (keys row) ->
  get key (fst (fold_left distributeColumn row (main, joined)))
  = if existsb (String.eqb key) allSelectsStr then get key main
    else match get key row with
         | Some v => Some v
         | None => get key main
         end.
Proof.
  induction row as [|[k v] row IH]; intros main joined Hnd.
  - simpl. now destruct (existsb (String.eqb key) allSelectsStr).
  - inversion Hnd as [|? ? Hnotin Hnd']; subst.
    change (fold_left distributeColumn ((k, v) :: row) (main, joined))
      with (fold_left distributeColumn row
              (distributeColumn (main, joined) (k, v))).
    destruct (distributeColumn (main, joined) (k, v)) as [main' joined']
      eqn:Hstep.
    rewrite (IH main' joined' Hnd').
    unfold Kysely.distributeColumn in Hstep.
    destruct (existsb (String.eqb k) allSelectsStr) eqn:Hk.
    + assert (Hmain : main' = main).
      { destruct (Kysely.parseJoinedKey k) as [jm f].
        destruct (get jm joined) as [[]|]; now injection Hstep. }
      subst main'.
      destruct (existsb (String.eqb key) allSelectsStr) eqn:Hkey;
        [reflexivity|].
      simpl. destruct (String.eqb k key) eqn:E; [|reflexivity].
      apply String.eqb_eq in E. subst. congruence.
    + injection Hstep as <- <-.
      destruct (existsb (String.eqb key) allSelectsStr) eqn:Hkey.
      * apply get_set_other. intros ->. congruence.
      * simpl. destruct (String.eqb k key) eqn:E.
        -- apply String.eqb_eq in E. subst key.
           assert (Hrow : get k row = None).
           { apply get_None_iff. exact Hnotin. }
           rewrite Hrow. apply get_set_same.
        -- apply String.eqb_neq in E.
           now rewrite get_set_other by congruence.
Qed.

Hypothesis aliases :
  Forall (fun key => exists model column,
              key = Kysely.joinedAlias model column) allSelectsStr.

Lemma alias_of_parse key jm column :
  In key allSelectsStr ->
  Kysely.parseJoinedKey key = (jm, column) ->
  key = Kysely.joinedAlias jm column.
Proof.
  intros Hin Hparse. rewrite Forall_forall in aliases.
  destruct (aliases key Hin) as (m & c & ->).
  rewrite (parseJoinedKey_inverse m c), Hparse. reflexivity.
Qed.

Lemma distributeColumns_joined jm column :
  lacksChar "_" jm = true ->
  In (Kysely.joinedAlias jm column) allSelectsStr ->
  forall (row main joined : obj) o,
    NoDup (keys row) ->
    get jm joined = Some (VObj o) ->
    exists o',
      get jm (snd (fold_left distributeColumn row (main, joined)))
      = Some (VObj o')
      /\ get column o'
         = match get (Kysely.joinedAlias jm column) row with
           | Some v => Some v
           | None => get column o
           end.
Proof.
  intros Hjm Halias.
  induction row as [|[k v] row IH]; intros main joined o Hnd Ho.
  - exists o. now split.
  - inversion Hnd as [|? ? Hnotin Hnd']; subst.
    change (fold_left distributeColumn ((k, v) :: row) (main, joined))
      with (fold_left distributeColumn row
              (distributeColumn (main, joined) (k, v))).
    assert (Hstep : exists o1,
               get jm (snd (distributeColumn (main, joined) (k, v)))
               = Some (VObj o1)
               /\ get column o1
                  = if String.eqb k (Kysely.joinedAlias jm column)
                    then Some v else get column o).
    { unfold Kysely.distributeColumn.
      destruct (existsb (String.eqb k) allSelectsStr) eqn:Hk.
      - apply existsb_eqb_In in Hk.
        destruct (Kysely.parseJoinedKey k) as [m f] eqn:Hparse.
        pose proof (alias_of_parse k m f Hk Hparse) as Hkey.
        destruct (String.eqb k (Kysely.joinedAlias jm column)) eqn:E.
        + apply String.eqb_eq in E.
          rewrite E, (parseJoinedKey_alias jm column Hjm) in Hparse.
          injection Hparse as <- <-. rewrite Ho. simpl.
          eexists. split; [apply get_set_same|]. apply get_set_same.
        + apply String.eqb_neq in E.
          destruct (get m joined) as [[| | | | | | |om]|] eqn:Hm;
            try (exists o; now split).
          simpl. destruct (String.eqb m jm) eqn:Em.
          * apply String.eqb_eq in Em. subst m.
            rewrite Ho in Hm. injection Hm as <-.
            eexists. split; [apply get_set_same|].
            apply get_set_other. intros ->. now apply E.
          * apply String.eqb_neq in Em.
            exists o. split; [|reflexivity].
            now rewrite get_set_other.
      - simpl. exists o. split; [exact Ho|].
        destruct (String.eqb k (Kysely.joinedAlias jm column)) eqn:E;
          [|reflexivity].
        apply String.eqb_eq in E. subst k.
        apply existsb_eqb_In in Halias. congruence. }
    destruct Hstep as (o1 & Ho1 & Hcol).
    destruct (distributeColumn (main, joined) (k, v)) as [main' joined'].
    destruct (IH main' joined' o1 Hnd' Ho1) as (o' & Ho' & Hcol').
    exists o'. split; [exact Ho'|]. rewrite Hcol', Hcol. simpl.
    destruct (String.eqb k (Kysely.joinedAlias jm column)) eqn:E;
      [|reflexivity].
    apply String.eqb_eq in E. subst k.
    assert (Hrow : get (Kysely.joinedAlias jm column) row = None)
      by (apply get_None_iff; exact Hnotin).
    now rewrite Hrow.
Qed.

End RowColumns.

(** X22.  The columns of a row are set apart by their keys alone: a column
    whose key is not one of the aliases is a field of the base record, with
    its value as it is, and the base record has no other field. *)
Theorem base_fields_are_the_columns_without_alias :
  forall (joinConfig : JoinConfig) (allSelectsStr : list string) (row : obj)
         (key : string),
    NoDup (keys row) ->
    get key (fst (Kysely.distributeColumns joinConfig allSelectsStr row))
    = if existsb (String.eqb key) allSelectsStr then None else get key row.
Proof.
  intros jc sel row key Hnd. unfold Kysely.distributeColumns.
  rewrite (distributeColumns_main sel key row [] _ Hnd). simpl.
  destruct (existsb (String.eqb key) sel); [reflexivity|].
  now destruct (get key row).
Qed.

(** X23.  What the select of a join names comes back where it belongs: for a
    joined model whose name has no underscore, the value of the column
    requested under the alias [joined_<model>_<column>] is the field
    [column] of the model's joined object. *)
Theorem joined_columns_reach_their_model :
  forall (getDefaultModelName : string -> string) (schema : Schema)
         (joinConfig : JoinConfig) (row : obj) (jm : string)
         (ja : Join.JoinAttr) (column : string),
    let allSelectsStr :=
      Selects.allSelectsStr
        (Kysely.joinSelects getDefaultModelName schema (Some joinConfig)) in
    NoDup (keys row) ->
    In (jm, ja) joinConfig ->
    lacksChar "_" jm = true ->
    In (Kysely.joinedAlias jm column) allSelectsStr ->
    exists o,
      get jm (snd (Kysely.distributeColumns joinConfig allSelectsStr row))
      = Some (VObj o)
      /\ get column o = get (Kysely.joinedAlias jm column) row.
Proof.
  intros gdm schema jc row jm ja column sel Hnd Hin Hjm Halias.
  assert (Hshape : Forall (fun key => exists model c,
                              key = Kysely.joinedAlias model c) sel).
  { destruct (fold_shapes gdm jc (Selects.mkSelects schema [] [])
                (Forall_nil _) eq_refl) as [Hall Hstr].
    unfold sel, Kysely.joinSelects. rewrite Hstr.
    apply Forall_map. apply (Forall_impl _ (P := aliasShaped)); [|exact Hall].
    intros s Hs. exists (Selection.table s), (Selection.column s). exact Hs. }
  destruct (initJoinedModelFields_objects jc jm ja Hin) as [o0 Ho0].
  assert (Hempty : o0 = []).
  { revert Ho0. unfold Kysely.initJoinedModelFields.
    apply (fold_left_preserves
             (fun acc : obj =>
                forall o, get jm acc = Some (VObj o) -> o = [])).
    - intros acc e _ Hacc o.
      destruct (String.eqb (fst e) jm) eqn:E.
      + apply String.eqb_eq in E. subst jm. rewrite get_set_same.
        now intros [= <-].
      + apply String.eqb_neq in E. rewrite get_set_other by congruence.
        apply Hacc.
    - intros o. discriminate. }
  subst o0.
  destruct (distributeColumns_joined sel Hshape jm column Hjm Halias row []
              (Kysely.initJoinedModelFields jc) [] Hnd Ho0)
    as (o' & Ho' & Hcol).
  exists o'. split; [exact Ho'|]. rewrite Hcol.
  now destruct (get (Kysely.joinedAlias jm column) row).
Qed.

(** ** A file that cannot be read *)

Lemma updateEnvsFrom_app generateSecretHash envs c before rest st :
  InitCommand.updateEnvsFrom generateSecretHash envs c (before ++ rest) st
  = match InitCommand.updateEnvsFrom generateSecretHash envs c before st with
    | (st', true) =>
        InitCommand.updateEnvsFrom generateSecretHash envs c rest st'
    | failed => failed
    end.
Proof.
  revert st. induction before as [|file before IH]; intros st; simpl.
  - reflexivity.
  - destruct (InitCommand.updateEnvFile generateSecretHash envs c file st)
      as [st'|]; [apply IH | reflexivity].
Qed.

(** X24.  [updateEnvs] stops at the first file it cannot read: the files
    before it have their lines, and no file after it is touched. *)
Theorem env_files_stop_at_a_missing_file :
  forall (generateSecretHash : nat -> string) (envs before after : list string)
         (missing : string) (isCommented : bool) (fs : InitCommand.FileSystem),
    NoDup before ->
    (forall file, In file before -> get file fs <> None) ->
    get missing fs = None ->
    let lines :=
      fst (InitCommand.envLines generateSecretHash isCommented envs
             (InitCommand.mkSecretState None 0)) in
    let above :=
      joinWith (String InitCommand.newline EmptyString)
        (lines ++ [EmptyString; EmptyString]) in
    exists fs' s',
      InitCommand.updateEnvs generateSecretHash envs
        (before ++ missing :: after) isCommented fs
      = ((fs', s'), false)
      /\ (forall file content,
            In file before ->
            get file fs = Some content ->
            get file fs' = Some (above ++ content)%string)
      /\ (forall file, ~ In file before -> get file fs' = get file fs).
Proof.
  intros gen envs before after missing c fs Hnd Hall Hmissing lines above.
  destruct (env_files_written gen envs before c fs Hnd Hall)
    as (fs' & s' & Hrun & Hin & Hout & _).
  exists fs', s'. split; [|split; [exact Hin | exact Hout]].
  unfold InitCommand.updateEnvs in *. rewrite updateEnvsFrom_app, Hrun.
  simpl. rewrite Hout, Hmissing; [reflexivity|].
  intros H. now apply (Hall missing H).
Qed.

(** ** Instances of the further properties *)

Section FurtherInstances.

Import Fixtures.

Local Notation mysqlConfig :=
  (Some (Config.mkConfig (Some mysql) None None)).
Local Notation joinedSelects :=
  (Selects.allSelectsStr
     (Kysely.joinSelects getDefaultModelName schema (Some join))).



(** C9 on a joined model whose name has an underscore: the columns are
    requested under the aliases [joined_api_key_...], and the record that
    comes back has lost the key, which a model named [apikey] keeps. *)
Lemma underscore_model_loses_its_joined_record :
  let found keys :=
    Kysely.findMany sqliteConfig getFieldName getDefaultModelName toISOString
      dateToString numberToString (fun _ => [keyRow keys]) (keySchema keys)
      "user" None None None None (Some (keyJoin keys)) in
  Selects.allSelectsStr
    (Kysely.joinSelects getDefaultModelName (keySchema "api_key")
       (Some (keyJoin "api_key")))
  = ["joined_api_key_userId"; "joined_api_key_id"]
  /\ found "apikey"
     = Some [[("id", VStr "u1");
              ("apikey",
               VArr [VObj [("userId", VStr "u1"); ("id", VStr "k1")]])]]
  /\ found "api_key" = Some [[("id", VStr "u1"); ("api_key", VArr [])]].
Proof. repeat split; reflexivity. Qed.

Lemma transformValueToDB_throws_iff_witness :
  Kysely.transformValueToDB sqliteConfig toISOString schema
    (VDate 8640000000000001) "user" "createdAt" = None
  /\ Kysely.transformValueToDB sqliteConfig toISOString schema (VStr "x")
       "constructor" "name" = None
  /\ Kysely.transformValueToDB sqliteConfig toISOString schema (VStr "x")
       "team" "name" = None.
Proof.
  split; [|split].
  - apply (transformValueToDB_throws_iff sqliteConfig toISOString schema
             (VDate 8640000000000001) "user" "createdAt").
    split; [discriminate|]. right. right.
    eexists. eexists. exists 8640000000000001%Z.
    split; [reflexivity|]. split; [reflexivity|]. now repeat split.
  - apply (transformValueToDB_throws_iff sqliteConfig toISOString schema
             (VStr "x") "constructor" "name").
    split; [discriminate|]. left. split; [reflexivity|]. left. reflexivity.
  - apply (transformValueToDB_throws_iff sqliteConfig toISOString schema
             (VStr "x") "team" "name").
    split; [discriminate|]. left. split; [reflexivity|]. right.
    intros tbl [<- | [<- | [<- | []]]]; discriminate.
Defined.

Lemma transformValueToDB_idempotent_witness :
  Kysely.transformValueToDB sqliteConfig toISOString schema (VNum 1) "user"
    "emailVerified" = Some (VNum 1).
Proof.
  apply (transformValueToDB_idempotent sqliteConfig toISOString schema
           (VBool true) (VNum 1) "user" "emailVerified").
  reflexivity.
Defined.

Lemma transformValueToDB_identity_off_sqlite_witness :
  VBool true = VBool true
  /\ (Kysely.configType mysqlConfig = Some mysql ->
      AdapterFactory.supportsBooleans (kyselyAdapterOptions mysqlConfig)
      = false).
Proof.
  apply (transformValueToDB_identity_off_sqlite mysqlConfig toISOString schema
           (VBool true) (VBool true) "user" "emailVerified").
  - right. reflexivity.
  - reflexivity.
Defined.

Lemma boolean_field_value_is_its_truthiness_witness :
  Kysely.convertCondition mssqlConfig getFieldName toISOString dateToString numberToString
    schema "user"
    (Where.mkWhere "emailVerified" (VArr [VBool false]) (Some "in") None)
  = Some (AND, EBin "emailVerified" "in" (VArr [VNum 1])).
Proof.
  destruct (boolean_field_value_is_its_truthiness mssqlConfig getFieldName
              toISOString dateToString numberToString schema "user" "emailVerified"
              [("name", Field.mkField "string" None None);
               ("email",
                Field.mkField "string" (Some "email_address") (Some true));
               ("emailVerified", Field.mkField "boolean" None None);
               ("createdAt", Field.mkField "date" None None)]
              (Field.mkField "boolean" None None) None)
    as [_ H].
  - discriminate.
  - reflexivity.
  - reflexivity.
  - reflexivity.
  - right. reflexivity.
  - exact (H [VBool false]).
Defined.

Lemma where_compiles_all_or_nothing_witness :
  Kysely.convertWhereClause sqliteConfig getFieldName toISOString dateToString numberToString
    schema "team"
    (Some [Where.mkWhere "id" (VStr "x") None None;
           Where.mkWhere "name" (VStr "y") None None])
  = None.
Proof.
  apply (where_compiles_all_or_nothing sqliteConfig getFieldName toISOString
           dateToString numberToString schema "team"
           [Where.mkWhere "id" (VStr "x") None None;
            Where.mkWhere "name" (VStr "y") None None]).
  right. left. reflexivity.
Defined.

Lemma findMany_is_bounded_witness :
  exists st query,
    Kysely.findManyQuery mssqlConfig getFieldName getDefaultModelName
      toISOString dateToString numberToString schema "user" None (Some 0%Z) (Some 5%Z) None
      None = Some (st, query)
    /\ Query.limit query = None /\ Query.top query = None
    /\ Query.fetch query = Some 100%Z
    /\ Query.offset query = Some 5%Z.
Proof.
  destruct (findMany_is_bounded mssqlConfig getFieldName getDefaultModelName
              toISOString dateToString numberToString schema "user" None (Some 0%Z)
              (Some 5%Z) None None (Conditions.mkGroups None None) eq_refl)
    as (st & query & Hq & _ & Hb & Ho).
  exists st, query. simpl in Hb. injection Hb as H1 H2 H3.
  repeat split; assumption.
Defined.

Lemma findMany_orders_by_sortBy_only_witness :
  exists st query,
    Kysely.findManyQuery mssqlConfig getFieldName getDefaultModelName
      toISOString dateToString numberToString schema "user" None None (Some 5%Z)
      (Some (SortBy.mkSortBy "email" desc)) None = Some (st, query)
    /\ Query.orderBy query = [("email_address", Some desc)].
Proof.
  exact (findMany_orders_by_sortBy_only mssqlConfig getFieldName
           getDefaultModelName toISOString dateToString numberToString schema "user" None
           None (Some 5%Z) (SortBy.mkSortBy "email" desc) None
           (Conditions.mkGroups None None) eq_refl).
Defined.

Lemma findOne_query_is_unbounded_witness :
  exists st query,
    Kysely.findOneQuery sqliteConfig getFieldName getDefaultModelName
      toISOString dateToString numberToString schema "user"
      (Some [Where.mkWhere "id" (VStr "x") None None]) (Some join)
    = Some (st, query)
    /\ Query.limit query = None /\ Query.top query = None
    /\ Query.offset query = None /\ Query.fetch query = None
    /\ Query.orderBy query = [].
Proof.
  exact (findOne_query_is_unbounded sqliteConfig getFieldName
           getDefaultModelName toISOString dateToString numberToString schema "user"
           (Some [Where.mkWhere "id" (VStr "x") None None]) (Some join)
           (Conditions.mkGroups (Some [EBin "user.id" "=" (VStr "x")]) None)
           eq_refl).
Defined.

Lemma insert_read_back_witness :
  exists query,
    snd (Kysely.create mysqlConfig getFieldName [("name", VStr "a")] "user")
    = Kysely.ExecuteThenSelect query
    /\ Query.wheres query = []
    /\ Query.orderBy query = [("id", Some desc)].
Proof.
  destruct (insert_read_back mysqlConfig getFieldName [("name", VStr "a")]
              "user") as [_ H].
  destruct (H eq_refl) as (query & Hq & _ & _ & Ho & Hw).
  exists query. repeat split; assumption.
Defined.

Lemma update_read_back_on_mysql_witness :
  exists query,
    option_map snd
      (Kysely.update mysqlConfig getFieldName toISOString dateToString numberToString schema
         "user" [Where.mkWhere "email" (VStr "old@x.y") None None]
         [("email", VStr "new@x.y")])
    = Some (Kysely.ExecuteThenSelect query)
    /\ Query.wheres query = [EBin "email_address" "=" (VStr "new@x.y")].
Proof.
  destruct (update_read_back_on_mysql mysqlConfig getFieldName toISOString
              dateToString numberToString schema "user"
              (Where.mkWhere "email" (VStr "old@x.y") None None) []
              [("email", VStr "new@x.y")] _ _ eq_refl
              ltac:(discriminate) eq_refl)
    as (query & Hq & _ & _ & Hw).
  exists query. split; [|exact Hw]. simpl. now rewrite <- Hq.
Defined.

Lemma joined_records_follow_row_order_witness :
  exists later,
    map (prop "id")
      (Kysely.processJoinedResults getDefaultModelName schema
         (joinedRows ++ [joinedRow "u3" "c" VNull VNull]) "user" (Some join)
         joinedSelects)
    = map (prop "id")
        (Kysely.processJoinedResults getDefaultModelName schema joinedRows
           "user" (Some join) joinedSelects)
      ++ later.
Proof.
  apply (joined_records_follow_row_order getDefaultModelName schema join
           joinedSelects "user" joinedRows [joinedRow "u3" "c" VNull VNull]).
  simpl. intros [H | [H | []]]; discriminate H.
Defined.

Lemma findOne_joined_record_is_from_first_row_witness :
  exists record,
    Kysely.findOne sqliteConfig getFieldName getDefaultModelName toISOString
      dateToString numberToString (fun _ => joinedRows) schema "user" None (Some join)
    = Some (VObj record)
    /\ get "name" record = Some (VStr "a").
Proof.
  destruct (findOne_joined_record_is_from_first_row sqliteConfig getFieldName
              getDefaultModelName toISOString dateToString numberToString
              (fun _ => joinedRows) schema "user" None join _ _
              (joinedRow "u1" "a" (VStr "s1") VNull) _ eq_refl eq_refl
              eq_refl)
    as (record & Hr & Hkeys).
  exists record. split; [exact Hr|].
  rewrite (Hkeys "name"); [reflexivity|].
  simpl. intros [H | [H | []]]; discriminate H.
Defined.

Lemma joined_record_is_never_lost_witness :
  exists record items item,
    In (VStr "u1", record)
      (Kysely.groupRows getDefaultModelName schema join joinedSelects
         joinedRows)
    /\ get "session" record = Some (VArr items)
    /\ In item items
    /\ Kysely.idOf item = VStr "s2".
Proof.
  apply (joined_record_is_never_lost getDefaultModelName schema join
           joinedSelects joinedRows (joinedRow "u1" "a" (VStr "s2") VNull)
           "session" (Join.mkJoin left "id" "userId")).
  - simpl. constructor; [intros [H | []]; discriminate H|].
    constructor; [intros [] | constructor].
  - left. reflexivity.
  - discriminate.
  - reflexivity.
  - right. left. reflexivity.
  - reflexivity.
  - reflexivity.
Defined.

Lemma unique_join_slot_holds_an_object_witness :
  exists o,
    get "account"
      (hd []
         (Kysely.processJoinedResults getDefaultModelName schema joinedRows
            "user" (Some join) joinedSelects))
    = Some (VObj o).
Proof.
  apply (unique_join_slot_holds_an_object getDefaultModelName schema join
           joinedSelects joinedRows "user" "account"
           (Join.mkJoin left "id" "userId")).
  - simpl. constructor; [intros [H | []]; discriminate H|].
    constructor; [intros [] | constructor].
  - right. left. reflexivity.
  - reflexivity.
  - left. reflexivity.
Defined.

Lemma join_on_id_is_never_unique_witness :
  Kysely.isUnique
    (Selects.schema
       (Kysely.joinSelects getDefaultModelName
          [("user",
            Table.mkTable "user" [("id", Field.mkField "string" None (Some true))])]
          (Some [("user", Join.mkJoin left "userId" "id")])))
    "user" (Join.mkJoin left "userId" "id")
  = false.
Proof.
  apply (join_on_id_is_never_unique getDefaultModelName
           [("user",
             Table.mkTable "user"
               [("id", Field.mkField "string" None (Some true))])]
           [("user", Join.mkJoin left "userId" "id")] "user"
           (Join.mkJoin left "userId" "id")).
  - left. reflexivity.
  - reflexivity.
Defined.

Lemma alias_names_one_column_witness :
  "session" = "session" /\ "token" = "token".
Proof.
  apply (alias_names_one_column "session" "token" "session" "token");
    reflexivity.
Defined.

Lemma underscore_in_model_name_misfiles_columns_witness :
  Kysely.distributeColumn ["joined_api_key_name"]
    ([], [("api_key", VObj [])]) ("joined_api_key_name", VStr "k")
  = ([], [("api_key", VObj [])]).
Proof.
  apply (underscore_in_model_name_misfiles_columns ["joined_api_key_name"] []
           [("api_key", VObj [])] "api" "key" "name" (VStr "k")).
  - reflexivity.
  - left. reflexivity.
Defined.

Lemma expired_keys_swept_at_most_every_ten_seconds_witness :
  spaced 10000
    (ApiKeyRoutes.sweepTimes (fun n => (Z.of_nat n * 4000)%Z) "apikey"
       [false; false; false; false] (ApiKeyRoutes.mkSweepState None 0)).
Proof.
  destruct (expired_keys_swept_at_most_every_ten_seconds
              (fun n => (Z.of_nat n * 4000)%Z) "apikey") as [H _].
  - intros i j Hij. lia.
  - exact (H [false; false; false; false]
             (ApiKeyRoutes.mkSweepState None 0)
             (Forall_cons _ eq_refl
                (Forall_cons _ eq_refl
                   (Forall_cons _ eq_refl
                      (Forall_cons _ eq_refl (Forall_nil _)))))).
Defined.

Lemma env_files_get_the_same_lines_above_their_content_witness :
  exists fs' s',
    InitCommand.updateEnvs (fun _ => "s3cr3t")
      ["BETTER_AUTH_SECRET"; "DATABASE_URL"] [".env"; ".env.local"] true
      [(".env", "A=1"); (".env.local", EmptyString)]
    = ((fs', s'), true)
    /\ InitCommand.generated s' <= 1.
Proof.
  destruct (env_files_get_the_same_lines_above_their_content
              (fun _ => "s3cr3t") ["BETTER_AUTH_SECRET"; "DATABASE_URL"]
              [".env"; ".env.local"] true
              [(".env", "A=1"); (".env.local", EmptyString)])
    as (fs' & s' & Hrun & _ & _ & Hgen).
  - constructor; [intros [H | []]; discriminate H|].
    constructor; [intros [] | constructor].
  - intros file [<- | [<- | []]]; discriminate.
  - exists fs', s'. split; [exact Hrun | exact Hgen].
Defined.

Lemma joinedRow_keys id name sessionId accountId :
  NoDup (keys (joinedRow id name sessionId accountId)).
Proof.
  repeat (constructor; [simpl; intuition discriminate|]). constructor.
Defined.

Lemma base_fields_are_the_columns_without_alias_witness :
  get "name"
    (fst (Kysely.distributeColumns join joinedSelects
            (joinedRow "u1" "a" (VStr "s1") VNull)))
  = Some (VStr "a")
  /\ get "joined_session_id"
       (fst (Kysely.distributeColumns join joinedSelects
               (joinedRow "u1" "a" (VStr "s1") VNull)))
     = None.
Proof.
  split.
  - exact (base_fields_are_the_columns_without_alias join joinedSelects
             (joinedRow "u1" "a" (VStr "s1") VNull) "name"
             (joinedRow_keys _ _ _ _)).
  - exact (base_fields_are_the_columns_without_alias join joinedSelects
             (joinedRow "u1" "a" (VStr "s1") VNull) "joined_session_id"
             (joinedRow_keys _ _ _ _)).
Defined.

Lemma joined_columns_reach_their_model_witness :
  exists o,
    get "session"
      (snd (Kysely.distributeColumns join joinedSelects
              (joinedRow "u1" "a" (VStr "s1") VNull)))
    = Some (VObj o)
    /\ get "id" o = Some (VStr "s1").
Proof.
  apply (joined_columns_reach_their_model getDefaultModelName schema join
           (joinedRow "u1" "a" (VStr "s1") VNull) "session"
           (Join.mkJoin left "id" "userId") "id").
  - apply joinedRow_keys.
  - left. reflexivity.
  - reflexivity.
  - vm_compute. do 2 right. left. reflexivity.
Defined.

Lemma env_files_stop_at_a_missing_file_witness :
  exists fs' s',
    InitCommand.updateEnvs (fun _ => "s3cr3t") ["DATABASE_URL"]
      ([".env"] ++ ".env.test" :: [".env.local"]) false
      [(".env", "A=1"); (".env.local", "B=2")]
    = ((fs', s'), false)
    /\ get ".env.local" fs' = Some "B=2".
Proof.
  destruct (env_files_stop_at_a_missing_file (fun _ => "s3cr3t")
              ["DATABASE_URL"] [".env"] [".env.local"] ".env.test" false
              [(".env", "A=1"); (".env.local", "B=2")])
    as (fs' & s' & Hrun & _ & Hout).
  - constructor; [intros [] | constructor].
  - intros file [<- | []]. discriminate.
  - reflexivity.
  - exists fs', s'. split; [exact Hrun|].
    rewrite Hout; [reflexivity|]. intros [H | []]. discriminate H.
Defined.

End FurtherInstances.
